(** * Swap detection and valuation (src/src/swap_analysis.py)

    A shallow embedding of [SwapAnalyzer] and of the parts of the
    CoinGecko client and of the SQLite store it touches, followed by the
    properties of the swap detector.

    Conventions of the embedding.
    - The [transactions] table is the list of its rows in rowid order; a
      row is a record with one field per column of [_SCHEMA] (src/src/db.py).
    - [Decimal] and the REAL/float values that cross the persistence
      boundary are exact rationals ([Qc]): the 28-digit rounding of the
      decimal context and the binary rounding of [float()] are not
      modelled, so [Decimal(str(x))] and [float(d)] are the identity.
    - The price oracle is the duck-typed [cg_client] object: a record of
      three functions that either return a value or raise
      [CoinGeckoError], the one exception class of src/src/coingecko.py;
      exceptions of the HTTP transport under it are not modelled.  Every
      call to the oracle and every [print] is recorded, in order, in a
      trace.
    - [datetime] values and [datetime.fromisoformat] are kept abstract.
    - The second part embeds what feeds the analyzer: [upsert_events]
      (src/src/db.py), the filters of src/fetch_and_store.py on the
      transfers already fetched, the spam rules of src/src/spam_filters.py
      and the two caches of the real [CoinGeckoClient].  Network replies are
      arguments; [int(s, 16)], the rowid that AUTOINCREMENT draws,
      [CURRENT_TIMESTAMP] and the URL pattern of the spam rules are
      parameters; strings are ASCII. *)

From Stdlib Require Import List ZArith QArith Qcanon String Ascii Bool Lia.
From Stdlib Require Import Permutation Sorted OrderedTypeEx.
Import ListNotations.

Set Implicit Arguments.

Local Open Scope string_scope.
Local Open Scope list_scope.

(** ** Numbers *)

Abbreviation Decimal := Qc (only parsing).
Abbreviation float := Qc (only parsing).

Definition Decimal_of_float (x : float) : Decimal := x.
Definition float_of_Decimal (d : Decimal) : float := d.

Definition Decimal_leb (a b : Decimal) : bool := Qle_bool a b.
Definition Decimal_ltb (a b : Decimal) : bool := negb (Qle_bool b a).
Definition Decimal_zero : Decimal := Q2Qc 0.

(** ** Strings: the fragments of [str] the analyzer uses (ASCII letters) *)

Definition ascii_lower (c : ascii) : ascii :=
  let n := nat_of_ascii c in
  if (65 <=? n)%nat && (n <=? 90)%nat then ascii_of_nat (n + 32) else c.

Definition ascii_upper (c : ascii) : ascii :=
  let n := nat_of_ascii c in
  if (97 <=? n)%nat && (n <=? 122)%nat then ascii_of_nat (n - 32) else c.

Fixpoint lower (s : string) : string :=
  match s with
  | EmptyString => EmptyString
  | String c s' => String (ascii_lower c) (lower s')
  end.

Fixpoint upper (s : string) : string :=
  match s with
  | EmptyString => EmptyString
  | String c s' => String (ascii_upper c) (upper s')
  end.

(** [ts.endswith("Z")] and [ts[:-1]]. *)
Fixpoint endswith_Z (s : string) : bool :=
  match s with
  | EmptyString => false
  | String c EmptyString => Ascii.eqb c "Z"%char
  | String _ s' => endswith_Z s'
  end.

Fixpoint drop_last (s : string) : string :=
  match s with
  | EmptyString => EmptyString
  | String _ EmptyString => EmptyString
  | String c s' => String c (drop_last s')
  end.

(** [x or ""] and the truth value of an optional string. *)
Definition or_empty (o : option string) : string :=
  match o with Some s => s | None => "" end.

Definition truthy_str (o : option string) : bool :=
  match o with Some s => negb (s =? "") | None => false end.

Definition opt_string_eqb (a b : option string) : bool :=
  match a, b with
  | None, None => true
  | Some x, Some y => x =? y
  | _, _ => false
  end.

(** ** The store *)

(** One row of [transactions] (all columns of [_SCHEMA]). *)
Record Transaction := mkTransaction {
  id : Z;
  chain : string;
  tx_hash : string;
  unique_id : string;
  block_number : option Z;
  block_timestamp : option string;
  from_address : option string;
  to_address : option string;
  asset : option string;
  value : option float;
  raw_value_wei : option string;
  category : option string;
  contract_address : option string;
  erc721_token_id : option string;
  erc1155_metadata : option string;
  is_swap : Z;
  swap_spent_asset : option string;
  swap_spent_amount : option float;
  swap_spent_usd : option float;
  swap_btc_price_at_purchase : option float;
  swap_btc_amount : option float;
  swap_btc_price_current : option float;
  swap_btc_value_usd : option float;
  raw_json : option string;
  created_at : option string
}.

(** The [sqlite3.Row] produced by the SELECT of [_group_transactions]. *)
Record Row := mkRow {
  r_id : Z;
  r_chain : string;
  r_tx_hash : string;
  r_block_timestamp : option string;
  r_from_address : option string;
  r_to_address : option string;
  r_asset : option string;
  r_value : option float;
  r_category : option string;
  r_contract_address : option string
}.

Definition select_row (t : Transaction) : Row :=
  mkRow (id t) (chain t) (tx_hash t) (block_timestamp t) (from_address t)
        (to_address t) (asset t) (value t) (category t) (contract_address t).

(** [ORDER BY block_timestamp]: NULL sorts first, TEXT by byte order; ties
    keep the scan (rowid) order. *)
Definition timestamp_leb (a b : option string) : bool :=
  match a, b with
  | None, _ => true
  | Some _, None => false
  | Some x, Some y => String.leb x y
  end.

Fixpoint insert_by_timestamp (r : Row) (l : list Row) : list Row :=
  match l with
  | [] => [r]
  | x :: l' =>
      if timestamp_leb (r_block_timestamp x) (r_block_timestamp r)
      then x :: insert_by_timestamp r l'
      else r :: x :: l'
  end.

Definition order_by_timestamp (l : list Row) : list Row :=
  fold_left (fun acc r => insert_by_timestamp r acc) l [].

Definition fetchall (conn : list Transaction) : list Row :=
  order_by_timestamp (map select_row conn).

(** [UPDATE transactions SET ... WHERE id = ?] *)
Definition update_where_id (rid : Z) (f : Transaction -> Transaction)
           (conn : list Transaction) : list Transaction :=
  map (fun t => if (id t =? rid)%Z then f t else t) conn.

Definition set_is_swap (t : Transaction) : Transaction :=
  mkTransaction (id t) (chain t) (tx_hash t) (unique_id t) (block_number t)
    (block_timestamp t) (from_address t) (to_address t) (asset t) (value t)
    (raw_value_wei t) (category t) (contract_address t) (erc721_token_id t)
    (erc1155_metadata t)
    1%Z (swap_spent_asset t) (swap_spent_amount t) (swap_spent_usd t)
    (swap_btc_price_at_purchase t) (swap_btc_amount t)
    (swap_btc_price_current t) (swap_btc_value_usd t)
    (raw_json t) (created_at t).

(** The seven [?] of the UPDATE in [_enrich_incoming], before the id. *)
Record EnrichParams := mkParams {
  p_spent_asset : option string;
  p_spent_amount : option float;
  p_usd_spent : option float;
  p_btc_price_purchase : option float;
  p_btc_amount : option float;
  p_btc_price_current : option float;
  p_btc_value : option float
}.

Definition set_enrichment (p : EnrichParams) (t : Transaction) : Transaction :=
  mkTransaction (id t) (chain t) (tx_hash t) (unique_id t) (block_number t)
    (block_timestamp t) (from_address t) (to_address t) (asset t) (value t)
    (raw_value_wei t) (category t) (contract_address t) (erc721_token_id t)
    (erc1155_metadata t)
    1%Z (p_spent_asset p) (p_spent_amount p) (p_usd_spent p)
    (p_btc_price_purchase p) (p_btc_amount p)
    (p_btc_price_current p) (p_btc_value p)
    (raw_json t) (created_at t).

(** ** Exceptions, the trace, and the monad of traced fallible code *)

Inductive exn :=
| ValueError (msg : string)
| KeyError (msg : string)
| CoinGeckoError (msg : string).

Section Analyzer.

(** [datetime] (already converted to UTC) and
    [datetime.fromisoformat(ts).astimezone(timezone.utc)], [None] standing
    for the [ValueError] that [_parse_timestamp] catches. *)
Variable datetime : Type.
Variable fromisoformat : string -> option datetime.

Inductive Event :=
| CallCurrentPrice (coin_id : string)
| CallPriceAtTimestamp (coin_id : string) (timestamp : datetime)
| CallCoinIdByContract (platform_id contract_address : string)
| Print (line : string).

Definition T (A : Type) : Type := (exn + A) * list Event.

Definition ret {A} (a : A) : T A := (inr a, []).

Definition raise {A} (e : exn) : T A := (inl e, []).

Definition bind {A B} (m : T A) (f : A -> T B) : T B :=
  match m with
  | (inl e, tr) => (inl e, tr)
  | (inr a, tr) => let (r, tr') := f a in (r, tr ++ tr')
  end.

(** [try: m  except CoinGeckoError as exc: h exc] *)
Definition try_except_CoinGeckoError {A} (m : T A) (h : string -> T A) : T A :=
  match m with
  | (inl (CoinGeckoError msg), tr) => let (r, tr') := h msg in (r, tr ++ tr')
  | other => other
  end.

Definition print (line : string) : T unit := (inr tt, [Print line]).

Notation "x <- m ;; k" := (bind m (fun x => k))
  (at level 61, m at next level, right associativity).
Notation "m ;;; k" := (bind m (fun _ => k))
  (at level 61, right associativity).

(** ** The CoinGecko client, as the analyzer sees it (src/src/coingecko.py) *)

Record CoinGeckoClient := mkClient {
  get_current_price : string -> string + float;
  get_price_at_timestamp : string -> datetime -> string + float;
  get_coin_id_by_contract : string -> string -> string + string
}.

Definition of_answer {A} (ev : Event) (a : string + A) : T A :=
  match a with
  | inl msg => (inl (CoinGeckoError msg), [ev])
  | inr v => (inr v, [ev])
  end.

Definition call_get_current_price (cg : CoinGeckoClient) (coin_id : string) : T float :=
  of_answer (CallCurrentPrice coin_id) (get_current_price cg coin_id).

Definition call_get_price_at_timestamp (cg : CoinGeckoClient) (coin_id : string)
           (timestamp : datetime) : T float :=
  of_answer (CallPriceAtTimestamp coin_id timestamp)
            (get_price_at_timestamp cg coin_id timestamp).

Definition call_get_coin_id_by_contract (cg : CoinGeckoClient)
           (platform_id contract_address : string) : T string :=
  of_answer (CallCoinIdByContract platform_id contract_address)
            (get_coin_id_by_contract cg platform_id contract_address).

(** ** Module-level tables *)

Definition SYMBOL_TO_COINGECKO_ID : list (string * string) :=
  [ ("ETH", "ethereum"); ("WETH", "weth"); ("USDC", "usd-coin");
    ("USDT", "tether"); ("DAI", "dai"); ("WBTC", "wrapped-bitcoin");
    ("BTC", "bitcoin") ].

(** src/src/config.py *)
Definition COINGECKO_PLATFORMS_BY_CHAIN : list (string * string) :=
  [ ("ethereum", "ethereum"); ("base", "base"); ("arbitrum", "arbitrum-one") ].

Fixpoint table_get (k : string) (d : list (string * string)) : option string :=
  match d with
  | [] => None
  | (k', v) :: d' => if k' =? k then Some v else table_get k d'
  end.

(** ** [SpentComponent] *)

Record SpentComponent := mkSpentComponent {
  sc_asset : string;
  sc_amount : Decimal;
  sc_usd_price : Decimal
}.

Definition usd_value (c : SpentComponent) : Decimal :=
  Qcmult (sc_amount c) (sc_usd_price c).

(** ** [_parse_timestamp] *)

Definition _parse_timestamp (ts : option string) : option datetime :=
  match ts with
  | None => None
  | Some s =>
      if s =? "" then None
      else fromisoformat (if endswith_Z s then drop_last s ++ "+00:00" else s)
  end.

(** ** [SwapAnalyzer] *)

Record SwapAnalyzer := mkSwapAnalyzer {
  wallet_address : string;
  db_path : string;
  cg_client : CoinGeckoClient
}.

(** [SwapAnalyzer.__init__] *)
Definition SwapAnalyzer_init (wallet : string) (path : string)
           (cg : CoinGeckoClient) : exn + SwapAnalyzer :=
  if wallet =? "" then inl (ValueError "wallet_address is required")
  else inr (mkSwapAnalyzer (lower wallet) path cg).

Definition _is_incoming (self : SwapAnalyzer) (row : Row) : bool :=
  lower (or_empty (r_to_address row)) =? wallet_address self.

Definition _is_outgoing (self : SwapAnalyzer) (row : Row) : bool :=
  lower (or_empty (r_from_address row)) =? wallet_address self.

Fixpoint _tx_timestamp (rows : list Row) : option datetime :=
  match rows with
  | [] => None
  | row :: rows' =>
      match _parse_timestamp (r_block_timestamp row) with
      | Some ts => Some ts
      | None => _tx_timestamp rows'
      end
  end.

Definition _resolve_coin_id (self : SwapAnalyzer) (chain : string)
           (asset contract_address : option string) : T string :=
  let symbol := upper (or_empty asset) in
  if truthy_str contract_address then
    match table_get (lower chain) COINGECKO_PLATFORMS_BY_CHAIN with
    | None =>
        raise (CoinGeckoError ("Unsupported chain for CoinGecko mapping: " ++ chain))
    | Some platform =>
        if platform =? "" then
          raise (CoinGeckoError ("Unsupported chain for CoinGecko mapping: " ++ chain))
        else
          call_get_coin_id_by_contract (cg_client self) platform
                                       (or_empty contract_address)
    end
  else
    match table_get symbol SYMBOL_TO_COINGECKO_ID with
    | Some coin_id => ret coin_id
    | None =>
        raise (CoinGeckoError
                 ("Unable to resolve CoinGecko id for asset " ++
                  (if truthy_str asset then or_empty asset else "unknown")))
    end.

(** *** [_build_spent_components] *)

(** Keys of the two dictionaries: [(row["asset"], row["contract_address"])]. *)
Definition Key : Type := option string * option string.

Definition key_eqb (a b : Key) : bool :=
  opt_string_eqb (fst a) (fst b) && opt_string_eqb (snd a) (snd b).

Definition row_key (row : Row) : Key := (r_asset row, r_contract_address row).

(** [grouped[key] += amount] on a [defaultdict(lambda: Decimal(0))]; the
    association list keeps the insertion order that [items()] follows. *)
Fixpoint dict_add (k : Key) (amount : Decimal) (d : list (Key * Decimal))
  : list (Key * Decimal) :=
  match d with
  | [] => [(k, Qcplus Decimal_zero amount)]
  | (k', v) :: d' =>
      if key_eqb k' k then (k', Qcplus v amount) :: d'
      else (k', v) :: dict_add k amount d'
  end.

(** [chain_by_key[key] = chain] *)
Fixpoint dict_set (k : Key) (c : string) (d : list (Key * string))
  : list (Key * string) :=
  match d with
  | [] => [(k, c)]
  | (k', v) :: d' =>
      if key_eqb k' k then (k', c) :: d' else (k', v) :: dict_set k c d'
  end.

Fixpoint dict_get (k : Key) (d : list (Key * string)) : option string :=
  match d with
  | [] => None
  | (k', v) :: d' => if key_eqb k' k then Some v else dict_get k d'
  end.

(** The first loop: one step per outgoing row. *)
Definition aggregate_step (acc : list (Key * Decimal) * list (Key * string))
           (row : Row) : list (Key * Decimal) * list (Key * string) :=
  match r_value row with
  | None => acc
  | Some v =>
      let amount := Decimal_of_float v in
      if Decimal_leb amount Decimal_zero then acc
      else (dict_add (row_key row) amount (fst acc),
            dict_set (row_key row) (r_chain row) (snd acc))
  end.

Definition aggregate (outgoing : list Row)
  : list (Key * Decimal) * list (Key * string) :=
  fold_left aggregate_step outgoing ([], []).

(** The second loop, over [grouped.items()]: its body, then the loop. *)
Definition price_component (self : SwapAnalyzer)
           (chain_by_key : list (Key * string)) (timestamp : datetime)
           (item : Key * Decimal) : T SpentComponent :=
  let '(key, amount) := item in
  chain <- match dict_get key chain_by_key with
           | Some c => ret c
           | None => raise (KeyError "chain_by_key")
           end ;;
  coin_id <- _resolve_coin_id self chain (fst key) (snd key) ;;
  usd_price <- call_get_price_at_timestamp (cg_client self) coin_id timestamp ;;
  ret (mkSpentComponent (or_empty (fst key)) amount (Decimal_of_float usd_price)).

Fixpoint price_components (self : SwapAnalyzer)
         (chain_by_key : list (Key * string)) (timestamp : datetime)
         (items : list (Key * Decimal)) (components : list SpentComponent)
  : T (list SpentComponent) :=
  match items with
  | [] => ret components
  | item :: items' =>
      component <- price_component self chain_by_key timestamp item ;;
      price_components self chain_by_key timestamp items'
                       (components ++ [component])
  end.

Definition _build_spent_components (self : SwapAnalyzer) (outgoing : list Row)
           (timestamp : datetime) : T (list SpentComponent) :=
  let '(grouped, chain_by_key) := aggregate outgoing in
  price_components self chain_by_key timestamp grouped [].

(** *** [_mark_outgoing] and [_enrich_incoming] *)

Definition _mark_outgoing (conn : list Transaction) (outgoing : list Row)
  : list Transaction :=
  let ids := map r_id outgoing in
  match ids with
  | [] => conn
  | _ => fold_left (fun c row_id => update_where_id row_id set_is_swap c) ids conn
  end.

Definition is_nil {A} (l : list A) : bool :=
  match l with [] => true | _ => false end.

(** The values bound to the seven [?] (lines 248-267). *)
Definition enrichment_params (spent_components : list SpentComponent)
           (total_usd_spent btc_price_at_purchase btc_amount : option Decimal)
           (btc_price_current : Decimal) : EnrichParams :=
  let spent_asset :=
    match spent_components with
    | [c] => Some (sc_asset c)
    | [] => None
    | _ => Some "MULTI"
    end in
  let spent_amount :=
    match spent_components with
    | [c] => Some (float_of_Decimal (sc_amount c))
    | _ => None
    end in
  let usd_spent_float := option_map float_of_Decimal total_usd_spent in
  let btc_price_purchase_float := option_map float_of_Decimal btc_price_at_purchase in
  let btc_amount_float := option_map float_of_Decimal btc_amount in
  let btc_price_current_float :=
    match btc_amount with
    | Some _ => Some (float_of_Decimal btc_price_current)
    | None => None
    end in
  let btc_value_float :=
    match btc_amount with
    | Some a => Some (float_of_Decimal (Qcmult a btc_price_current))
    | None => None
    end in
  mkParams spent_asset spent_amount usd_spent_float btc_price_purchase_float
           btc_amount_float btc_price_current_float btc_value_float.

Definition _enrich_incoming (conn : list Transaction) (incoming : list Row)
           (spent_components : list SpentComponent)
           (total_usd_spent btc_price_at_purchase btc_amount : option Decimal)
           (btc_price_current : Decimal) : list Transaction :=
  let p := enrichment_params spent_components total_usd_spent
                             btc_price_at_purchase btc_amount
                             btc_price_current in
  let params := map (fun row => (p, r_id row)) incoming in
  match params with
  | [] => conn
  | _ => fold_left (fun c q => update_where_id (snd q) (set_enrichment (fst q)) c)
                   params conn
  end.

(** *** [_group_transactions] *)

(** [grouped[row["tx_hash"]].append(row)] on a [defaultdict(list)]. *)
Fixpoint group_append (h : string) (row : Row) (d : list (string * list Row))
  : list (string * list Row) :=
  match d with
  | [] => [(h, [row])]
  | (h', rows) :: d' =>
      if h' =? h then (h', rows ++ [row]) :: d'
      else (h', rows) :: group_append h row d'
  end.

Definition _group_transactions (conn : list Transaction)
  : list (string * list Row) :=
  fold_left (fun grouped row => group_append (r_tx_hash row) row grouped)
            (fetchall conn) [].

(** *** [analyze] *)

Record Summary := mkSummary {
  swaps_detected : Decimal;
  btc_amount : Decimal;
  btc_value_usd : Decimal;
  btc_price_current : Decimal
}.

(** The truth value of an optional [Decimal]: [None] and zero are false. *)
Definition truthy_dec (o : option Decimal) : bool :=
  match o with
  | Some d => negb (Qc_eq_bool d Decimal_zero)
  | None => false
  end.

(** [self._tx_timestamp(rows) or datetime.utcnow()...] *)
Definition reference_time (rows : list Row) (now : datetime) : datetime :=
  match _tx_timestamp rows with Some ts => ts | None => now end.

(** [sum((c.usd_value for c in spent_components), Decimal(0))] *)
Definition sum_usd_value (spent_components : list SpentComponent) : Decimal :=
  fold_left (fun acc c => Qcplus acc (usd_value c)) spent_components
            Decimal_zero.

(** Lines 95-126 of [analyze]: the reference time, the spent components,
    the historical bitcoin price and the derived amounts of one group. *)
Definition group_valuation (self : SwapAnalyzer) (now : datetime)
           (tx_hash : string) (rows outgoing : list Row)
  : T (list SpentComponent * option Decimal * option Decimal * option Decimal) :=
  let timestamp := reference_time rows now in
  spent_components <-
    try_except_CoinGeckoError
      (_build_spent_components self outgoing timestamp)
      (fun exc =>
         print ("[swap-analysis] " ++ tx_hash ++ " skipped: " ++ exc) ;;;
         ret []) ;;
  if negb (is_nil spent_components) then
    btc_price_at_purchase <-
      try_except_CoinGeckoError
        (p <- call_get_price_at_timestamp (cg_client self) "bitcoin" timestamp ;;
         ret (Some (Decimal_of_float p)))
        (fun exc =>
           print ("[swap-analysis] " ++ tx_hash ++
                  " BTC price lookup failed: " ++ exc) ;;;
           ret None) ;;
    let total_usd_spent := sum_usd_value spent_components in
    let btc_amount :=
      match btc_price_at_purchase with
      | Some p =>
          if truthy_dec (Some p) && Decimal_ltb Decimal_zero p
          then Some (Qcdiv total_usd_spent p)
          else None
      | None => None
      end in
    ret (spent_components, Some total_usd_spent, btc_price_at_purchase, btc_amount)
  else
    ret (spent_components, None, None, None).

(** The body of the [for tx_hash, rows in grouped.items()] loop. *)
Definition analyze_group (self : SwapAnalyzer) (utcnow : string -> datetime)
           (btc_price_current : Decimal)
           (state : list Transaction * Decimal * Z)
           (group : string * list Row)
  : T (list Transaction * Decimal * Z) :=
  let '(conn, total_btc_amount, swaps_detected) := state in
  let '(tx_hash, rows) := group in
  let outgoing := filter (_is_outgoing self) rows in
  let incoming := filter (_is_incoming self) rows in
  if is_nil outgoing || is_nil incoming then ret state
  else
    v <- group_valuation self (utcnow tx_hash) tx_hash rows outgoing ;;
    let '(spent_components, total_usd_spent, btc_price_at_purchase, btc_amount) := v in
    let swaps_detected := (swaps_detected + 1)%Z in
    let conn := _mark_outgoing conn outgoing in
    let conn := _enrich_incoming conn incoming spent_components total_usd_spent
                                 btc_price_at_purchase btc_amount
                                 btc_price_current in
    let total_btc_amount :=
      if truthy_dec btc_amount
      then match btc_amount with
           | Some a => Qcplus total_btc_amount a
           | None => total_btc_amount
           end
      else total_btc_amount in
    ret (conn, total_btc_amount, swaps_detected).

Fixpoint analyze_loop (self : SwapAnalyzer) (utcnow : string -> datetime)
         (btc_price_current : Decimal)
         (groups : list (string * list Row))
         (state : list Transaction * Decimal * Z)
  : T (list Transaction * Decimal * Z) :=
  match groups with
  | [] => ret state
  | group :: groups' =>
      state' <- analyze_group self utcnow btc_price_current state group ;;
      analyze_loop self utcnow btc_price_current groups' state'
  end.

Definition zero_summary : Summary :=
  mkSummary Decimal_zero Decimal_zero Decimal_zero Decimal_zero.

(** [analyze]: [utcnow h] is the reading of [datetime.utcnow()] taken
    while the group of transaction hash [h] is processed (it is read only
    when that group has no parseable timestamp), [conn] the contents of the
    table at [db_path].  [init_db] only creates the schema and changes no
    row; a store that cannot be opened is not modelled.  The result pairs what
    the call returns or raises with the table as the connection leaves it
    (commit on return, rollback on an exception) and the trace. *)
Definition analyze (self : SwapAnalyzer) (utcnow : string -> datetime)
           (conn : list Transaction)
  : (exn + Summary) * list Transaction * list Event :=
  let grouped := _group_transactions conn in
  let body : T (Summary * list Transaction) :=
    if is_nil grouped then ret (zero_summary, conn)
    else
      price <- call_get_current_price (cg_client self) "bitcoin" ;;
      let btc_price_current := Decimal_of_float price in
      final <- analyze_loop self utcnow btc_price_current grouped
                            (conn, Decimal_zero, 0%Z) ;;
      let '(conn', total_btc_amount, swaps_detected) := final in
      let total_btc_value := Qcmult total_btc_amount btc_price_current in
      ret (mkSummary (Q2Qc (inject_Z swaps_detected)) total_btc_amount
                     total_btc_value btc_price_current, conn')
  in
  match body with
  | (inr (summary, conn'), tr) => (inr summary, conn', tr)
  | (inl e, tr) => (inl e, conn, tr)
  end.

(** [main], up to the formatting of the summary line: the analyzer is
    built from the wallet argument, then run; [cg] is the behaviour of the
    client that the constructor creates. *)
Definition main (wallet path : string) (cg : CoinGeckoClient)
           (utcnow : string -> datetime)
           (conn : list Transaction)
  : (exn + Summary) * list Transaction * list Event :=
  match SwapAnalyzer_init wallet path cg with
  | inl e => (inl e, conn, [])
  | inr analyzer => analyze analyzer utcnow conn
  end.

(** ** Vocabulary of the statements *)

(** [grouped.get(h)] *)
Fixpoint group_get (h : string) (d : list (string * list Row))
  : option (list Row) :=
  match d with
  | [] => None
  | (h', rows) :: d' => if h' =? h then Some rows else group_get h d'
  end.

(** The legs of transaction hash [h], in load order, and their partitions. *)
Definition group_rows (conn : list Transaction) (h : string) : list Row :=
  match group_get h (_group_transactions conn) with
  | Some rows => rows
  | None => []
  end.

Definition outgoing_of (self : SwapAnalyzer) (conn : list Transaction)
           (h : string) : list Row :=
  filter (_is_outgoing self) (group_rows conn h).

Definition incoming_of (self : SwapAnalyzer) (conn : list Transaction)
           (h : string) : list Row :=
  filter (_is_incoming self) (group_rows conn h).

(** The group qualifies as a swap: the test of line 92 does not [continue]. *)
Definition is_swap_group (self : SwapAnalyzer) (conn : list Transaction)
           (h : string) : bool :=
  negb (is_nil (outgoing_of self conn h)) && negb (is_nil (incoming_of self conn h)).

(** What [_build_spent_components] is called with for group [h]. *)
Definition spent_components_of (self : SwapAnalyzer)
           (utcnow : string -> datetime)
           (conn : list Transaction) (h : string) : T (list SpentComponent) :=
  _build_spent_components self (outgoing_of self conn h)
                          (reference_time (group_rows conn h) (utcnow h)).

(** The loaded rows that carry transaction hash [h]. *)
Definition rows_with (h : string) (l : list Row) : list Row :=
  filter (fun r => r_tx_hash r =? h) l.

(** The sum of the values of [grouped]. *)
Definition dict_total (g : list (Key * Decimal)) : Decimal :=
  fold_right (fun kv acc => Qcplus (snd kv) acc) Decimal_zero g.

(** The order of the load, on rows and on their timestamps. *)
Definition ts_le (a b : option string) : Prop := timestamp_leb a b = true.

Definition row_le (a b : Row) : Prop :=
  ts_le (r_block_timestamp a) (r_block_timestamp b).

(** The store without the rows of transaction hash [h]. *)
Definition without_hash (h : string) (conn : list Transaction) : list Transaction :=
  filter (fun t => negb (tx_hash t =? h)) conn.

(** The oracle gives the same historical prices at two reference times. *)
Definition same_answers (cg : CoinGeckoClient) (ts1 ts2 : datetime) : Prop :=
  forall coin_id, get_price_at_timestamp cg coin_id ts1 =
                  get_price_at_timestamp cg coin_id ts2.

(** The outcome of a run. *)
Definition Outcome : Type := (exn + Summary) * list Transaction * list Event.

Definition completes (o : Outcome) : bool :=
  match fst (fst o) with inr _ => true | inl _ => false end.

Definition store_after (o : Outcome) : list Transaction := snd (fst o).

Definition trace_of (o : Outcome) : list Event := snd o.

Definition is_oracle_call (e : Event) : bool :=
  match e with Print _ => false | _ => true end.

(** The enrichment columns of a stored row. *)
Definition enrichment_of (t : Transaction) : EnrichParams :=
  mkParams (swap_spent_asset t) (swap_spent_amount t) (swap_spent_usd t)
           (swap_btc_price_at_purchase t) (swap_btc_amount t)
           (swap_btc_price_current t) (swap_btc_value_usd t).

Definition no_enrichment : EnrichParams :=
  mkParams None None None None None None None.

(** The net effect of one pass of the loop body on one stored row. *)
Definition has_id (rid : Z) (rows : list Row) : bool :=
  existsb (fun r => (rid =? r_id r)%Z) rows.

Definition valuation_of (self : SwapAnalyzer) (now : datetime)
           (tx_hash : string) (rows outgoing : list Row)
  : list SpentComponent * option Decimal * option Decimal * option Decimal :=
  match fst (group_valuation self now tx_hash rows outgoing) with
  | inr v => v
  | inl _ => ([], None, None, None)
  end.

Definition row_after_group (self : SwapAnalyzer)
           (utcnow : string -> datetime)
           (btc_price_current : Decimal) (group : string * list Row)
           (t : Transaction) : Transaction :=
  let '(tx_hash, rows) := group in
  let outgoing := filter (_is_outgoing self) rows in
  let incoming := filter (_is_incoming self) rows in
  if is_nil outgoing || is_nil incoming then t
  else
    let '(spent_components, total_usd_spent, btc_price_at_purchase, btc_amount) :=
      valuation_of self (utcnow tx_hash) tx_hash rows outgoing in
    let t1 := if has_id (id t) outgoing then set_is_swap t else t in
    if has_id (id t) incoming
    then set_enrichment
           (enrichment_params spent_components total_usd_spent
                              btc_price_at_purchase btc_amount btc_price_current)
           t1
    else t1.

(** The stored row [t] after a completed run over [conn] in which the
    current bitcoin price was [btc_price_current]: only the pass over the
    group of its own transaction hash acts on it. *)
Definition final_row (self : SwapAnalyzer) (utcnow : string -> datetime)
           (btc_price_current : Decimal) (conn : list Transaction)
           (t : Transaction) : Transaction :=
  row_after_group self utcnow btc_price_current
                  (tx_hash t, group_rows conn (tx_hash t)) t.

(** A traced computation raises nothing but [CoinGeckoError]. *)
Definition raises_only_CoinGeckoError {A} (m : T A) : Prop :=
  match fst m with
  | inl (CoinGeckoError _) => True
  | inl _ => False
  | inr _ => True
  end.

(** Every key of [grouped] has its entry in [chain_by_key]. *)
Definition chains_cover (acc : list (Key * Decimal) * list (Key * string)) : Prop :=
  forall k, In k (map fst (fst acc)) -> dict_get k (snd acc) <> None.

(** What one pass of the loop body adds to the trace. *)
Definition group_trace (self : SwapAnalyzer) (utcnow : string -> datetime)
           (group : string * list Row) : list Event :=
  let '(tx_hash, rows) := group in
  let outgoing := filter (_is_outgoing self) rows in
  let incoming := filter (_is_incoming self) rows in
  if is_nil outgoing || is_nil incoming then []
  else snd (group_valuation self (utcnow tx_hash) tx_hash rows outgoing).

(** The sum of the values that the first loop of
    [_build_spent_components] does not skip. *)
Definition amount_of (row : Row) : Decimal :=
  match r_value row with
  | Some v => if Decimal_leb (Decimal_of_float v) Decimal_zero
              then Decimal_zero else Decimal_of_float v
  | None => Decimal_zero
  end.

Definition counted (row : Row) : bool :=
  match r_value row with
  | Some v => negb (Decimal_leb (Decimal_of_float v) Decimal_zero)
  | None => false
  end.

Definition sum_amounts (rows : list Row) : Decimal :=
  fold_right (fun r acc => Qcplus (amount_of r) acc) Decimal_zero rows.

(** [grouped.get(key)] *)
Fixpoint amount_get (k : Key) (g : list (Key * Decimal)) : option Decimal :=
  match g with
  | [] => None
  | (k', v) :: g' => if key_eqb k' k then Some v else amount_get k g'
  end.

(** The counted legs that carry key [k]. *)
Definition key_rows (k : Key) (rows : list Row) : list Row :=
  filter (fun r => counted r && key_eqb (row_key r) k) rows.

(** A loaded row without its row id, and the loaded columns of a stored
    row without its row id. *)
Definition forget_id (r : Row) : Row :=
  mkRow 0%Z (r_chain r) (r_tx_hash r) (r_block_timestamp r) (r_from_address r)
        (r_to_address r) (r_asset r) (r_value r) (r_category r)
        (r_contract_address r).

Definition row_data (t : Transaction) : Row := forget_id (select_row t).

(** Counted legs that share an (asset, contract address) key name the
    same chain. *)
Definition compatible_rows (x y : Row) : Prop :=
  counted x = true -> counted y = true -> row_key x = row_key y ->
  r_chain x = r_chain y.

Definition compatible_chains (rows : list Row) : Prop :=
  forall x y, In x rows -> In y rows -> compatible_rows x y.

(** Two states of the first loop with the same lookups. *)
Definition acc_equiv (a b : list (Key * Decimal) * list (Key * string)) : Prop :=
  (forall k, amount_get k (fst a) = amount_get k (fst b)) /\
  (forall k, dict_get k (snd a) = dict_get k (snd b)).

(** The first exception, or all the components. *)
Fixpoint collect (l : list (exn + SpentComponent)) : exn + list SpentComponent :=
  match l with
  | [] => inr []
  | inl e :: _ => inl e
  | inr c :: l' =>
      match collect l' with
      | inl e => inl e
      | inr cs => inr (c :: cs)
      end
  end.

(** [total_usd_spent] as line 117 and line 125 of [analyze] set it from
    the outcome of [_build_spent_components]. *)
Definition spent_usd_of (r : exn + list SpentComponent) : option Decimal :=
  match r with
  | inr (c :: cs) => Some (sum_usd_value (c :: cs))
  | _ => None
  end.

(** The [total_usd_spent] of group [h] in a run over [conn]. *)
Definition group_spent_usd (self : SwapAnalyzer)
           (utcnow : string -> datetime)
           (conn : list Transaction) (h : string) : option Decimal :=
  snd (fst (fst (valuation_of self (utcnow h) h (group_rows conn h)
                              (outgoing_of self conn h)))).

(** ** Vocabulary of the further properties *)

(** The columns that no UPDATE of the analyzer names. *)
Definition other_columns (t : Transaction) :=
  (id t, chain t, tx_hash t, unique_id t, block_number t, block_timestamp t,
   from_address t, to_address t, asset t, value t, raw_value_wei t,
   category t, contract_address t, erc721_token_id t, erc1155_metadata t,
   raw_json t, created_at t).

(** The test of line 92 on one entry of [grouped]. *)
Definition qualifies (self : SwapAnalyzer) (group : string * list Row) : bool :=
  negb (is_nil (filter (_is_outgoing self) (snd group)) ||
        is_nil (filter (_is_incoming self) (snd group))).

(** What one pass of the loop body adds to [total_btc_amount]. *)
Definition group_btc_amount (self : SwapAnalyzer) (utcnow : string -> datetime)
           (group : string * list Row) : Decimal :=
  if qualifies self group then
    match snd (valuation_of self (utcnow (fst group)) (fst group) (snd group)
                            (filter (_is_outgoing self) (snd group))) with
    | Some a => if truthy_dec (Some a) then a else Decimal_zero
    | None => Decimal_zero
    end
  else Decimal_zero.

Definition is_current_price_call (e : Event) : bool :=
  match e with CallCurrentPrice _ => true | _ => false end.

Definition is_price_at_call (e : Event) : bool :=
  match e with CallPriceAtTimestamp _ _ => true | _ => false end.

Definition unparseable (row : Row) : Prop :=
  _parse_timestamp (r_block_timestamp row) = None.

End Analyzer.

Arguments ret {datetime A} a.
Arguments raise {datetime A} e.
Arguments print {datetime} line.
Arguments Print {datetime} line.
Arguments CallCurrentPrice {datetime} coin_id.
Arguments CallCoinIdByContract {datetime} platform_id contract_address.
Arguments completes {datetime} o.
Arguments store_after {datetime} o.
Arguments trace_of {datetime} o.
Arguments is_current_price_call {datetime} e.
Arguments is_price_at_call {datetime} e.

(** * The rest of the pipeline: events, the store writer, the fetch
      filters, the spam rules and the CoinGecko client *)

(** ** Transfer events (the dictionaries of [alchemy_getAssetTransfers]) *)

Record RawContract := mkRawContract {
  rc_value : option string;
  rc_address : option string
}.

(** The [metadata] entry: absent, JSON null, or a dictionary. *)
Inductive Metadata :=
| MetadataAbsent
| MetadataNull
| MetadataDict (blockTimestamp : option string).

(** The entries that the code reads.  [ev_erc1155Metadata] is the JSON
    text of that entry when it is truthy, [ev_json] the JSON text of the
    whole event ([json.dumps]); [ev_value] is a number or null. *)
Record AlchemyEvent := mkEvent {
  ev_blockNum : option string;
  ev_rawContract : option RawContract;
  ev_hash : option string;
  ev_uniqueId : option string;
  ev_metadata : Metadata;
  ev_blockTimestamp : option string;
  ev_from : option string;
  ev_to : option string;
  ev_asset : option string;
  ev_value : option float;
  ev_category : option string;
  ev_erc721TokenId : option string;
  ev_erc1155Metadata : option string;
  ev_json : string
}.

(** ** [upsert_events] (src/src/db.py) *)

(** What the store writer takes from its environment: [int(s, 16)]
    ([None] for [ValueError]), the rowid that AUTOINCREMENT picks given the
    rowids in use, and [CURRENT_TIMESTAMP]. *)
Record DbEnv := mkDbEnv {
  int16 : string -> option Z;
  next_rowid : list Z -> Z;
  current_timestamp : string
}.

(** AUTOINCREMENT never reuses a rowid. *)
Definition rowid_is_fresh (env : DbEnv) : Prop :=
  forall ids i, In i ids -> (i < next_rowid env ids)%Z.

Inductive db_exn :=
| DbValueError
| DbAttributeError.

(** The tuple bound to the fifteen [?] of [_INSERT]. *)
Record InsertValues := mkInsertValues {
  iv_chain : string;
  iv_tx_hash : option string;
  iv_unique_id : string;
  iv_block_number : option Z;
  iv_block_timestamp : option string;
  iv_from_address : option string;
  iv_to_address : option string;
  iv_asset : option string;
  iv_value : option float;
  iv_raw_value_wei : option string;
  iv_category : option string;
  iv_contract_address : option string;
  iv_erc721_token_id : option string;
  iv_erc1155_metadata : option string;
  iv_raw_json : string
}.

(** [a or b] on optional strings. *)
Definition or_else (a b : option string) : option string :=
  if truthy_str a then a else b.

(** The body of the [for e in events] loop. *)
Definition event_values (env : DbEnv) (chain : string) (e : AlchemyEvent)
  : db_exn + InsertValues :=
  match (if truthy_str (ev_blockNum e)
         then match int16 env (or_empty (ev_blockNum e)) with
              | Some n => inr (Some n)
              | None => inl DbValueError
              end
         else inr None) with
  | inl err => inl err
  | inr block_number =>
      let raw_contract :=
        match ev_rawContract e with
        | Some rc => rc
        | None => mkRawContract None None
        end in
      match ev_metadata e with
      | MetadataNull => inl DbAttributeError
      | metadata =>
          let meta_ts :=
            match metadata with
            | MetadataDict ts => ts
            | _ => None
            end in
          inr (mkInsertValues chain (ev_hash e) (or_empty (ev_uniqueId e))
                 block_number (or_else meta_ts (ev_blockTimestamp e))
                 (ev_from e) (ev_to e) (ev_asset e) (ev_value e)
                 (rc_value raw_contract) (ev_category e)
                 (rc_address raw_contract) (ev_erc721TokenId e)
                 (ev_erc1155Metadata e) (ev_json e))
      end
  end.

Fixpoint events_values (env : DbEnv) (chain : string) (events : list AlchemyEvent)
  : db_exn + list InsertValues :=
  match events with
  | [] => inr []
  | e :: events' =>
      match event_values env chain e with
      | inl err => inl err
      | inr v =>
          match events_values env chain events' with
          | inl err => inl err
          | inr vs => inr (v :: vs)
          end
      end
  end.

(** The key of [UNIQUE(chain, tx_hash, unique_id)]. *)
Definition unique_key (t : Transaction) : string * string * string :=
  (chain t, tx_hash t, unique_id t).

Definition unique_key_eqb (a b : string * string * string) : bool :=
  (fst (fst a) =? fst (fst b)) && (snd (fst a) =? snd (fst b)) && (snd a =? snd b).

(** The row that [_INSERT] writes: the fifteen values, the rowid, and
    the defaults of the other columns. *)
Definition new_row (rowid : Z) (now : string) (hash : string)
           (v : InsertValues) : Transaction :=
  mkTransaction rowid (iv_chain v) hash
    (iv_unique_id v) (iv_block_number v) (iv_block_timestamp v)
    (iv_from_address v) (iv_to_address v) (iv_asset v) (iv_value v)
    (iv_raw_value_wei v) (iv_category v) (iv_contract_address v)
    (iv_erc721_token_id v) (iv_erc1155_metadata v)
    0%Z None None None None None None None
    (Some (iv_raw_json v)) (Some now).

Definition values_key (v : InsertValues) : string * option string * string :=
  (iv_chain v, iv_tx_hash v, iv_unique_id v).

(** One [INSERT OR IGNORE]: a NULL [tx_hash] or a key already present
    skips the row; otherwise the row is appended with a new rowid and the
    column defaults. *)
Definition insert_or_ignore (env : DbEnv) (table : list Transaction)
           (v : InsertValues) : list Transaction :=
  match iv_tx_hash v with
  | None => table
  | Some h =>
      if existsb (fun t => unique_key_eqb (unique_key t) (iv_chain v, h, iv_unique_id v))
                 table
      then table
      else table ++ [new_row (next_rowid env (map id table))
                             (current_timestamp env) h v]
  end.

(** [upsert_events]: the count returned and the table left, or the
    exception raised while the tuples are built (nothing is written then). *)
Definition upsert_events (env : DbEnv) (chain : string)
           (events : list AlchemyEvent) (table : list Transaction)
  : db_exn + (nat * list Transaction) :=
  match events with
  | [] => inr (0%nat, table)
  | _ =>
      match events_values env chain events with
      | inl err => inl err
      | inr rows => inr (List.length rows, fold_left (insert_or_ignore env) rows table)
      end
  end.

(** The table after a successful [upsert_events]; as it was otherwise. *)
Definition table_after (table : list Transaction)
           (r : db_exn + (nat * list Transaction)) : list Transaction :=
  match r with
  | inr (_, table') => table'
  | inl _ => table
  end.

(** A row as [_INSERT] leaves it: not a swap, no valuation. *)
Definition unanalysed (t : Transaction) : Prop :=
  is_swap t = 0%Z /\ enrichment_of t = no_enrichment.

(** ** The fetch filters (src/fetch_and_store.py) *)

Definition event_key (e : AlchemyEvent) : option string * string :=
  (ev_hash e, or_empty (ev_uniqueId e)).

Definition event_key_eqb (a b : option string * string) : bool :=
  opt_string_eqb (fst a) (fst b) && (snd a =? snd b).

(** [_unique_by_tx_and_unique_id], with [seen] the keys met so far. *)
Fixpoint unique_from (seen : list (option string * string))
         (events : list AlchemyEvent) : list AlchemyEvent :=
  match events with
  | [] => []
  | e :: events' =>
      if existsb (event_key_eqb (event_key e)) seen
      then unique_from seen events'
      else e :: unique_from (event_key e :: seen) events'
  end.

Definition _unique_by_tx_and_unique_id (events : list AlchemyEvent)
  : list AlchemyEvent :=
  unique_from [] events.

Definition ALLOWED_CATEGORIES : list string := ["external"; "erc20"].

Definition category_allowed (e : AlchemyEvent) : bool :=
  existsb (String.eqb (lower (or_empty (ev_category e)))) ALLOWED_CATEGORIES.

Definition _filter_allowed_categories (events : list AlchemyEvent)
  : list AlchemyEvent :=
  filter category_allowed events.

(** ** The spam rules (src/src/spam_filters.py, src/src/config.py) *)

Definition ASSET_ALLOWED_MAX_LEN : nat := 16.

Definition SPAM_KEYWORDS : list string :=
  [ "http"; "https"; "www."; "t.me"; "telegram"; "discord"; "twitter"; "x.com";
    "airdrop"; "claim"; "free"; "bonus"; "gift" ].

Definition EXCLUDE_ZERO_VALUE : bool := true.

Definition DUST_WEI_THRESHOLDS : list (string * option Z) :=
  [ ("ethereum", None); ("base", None); ("arbitrum", None) ].

(** [needle in hay] *)
Fixpoint contains (needle hay : string) : bool :=
  prefix needle hay ||
  match hay with
  | EmptyString => false
  | String _ hay' => contains needle hay'
  end.

Fixpoint endswith_newline (s : string) : bool :=
  match s with
  | EmptyString => false
  | String c EmptyString => Ascii.eqb c (ascii_of_nat 10)
  | String _ s' => endswith_newline s'
  end.

(** A character of the class [A-Za-z0-9+_.-]. *)
Definition asset_char (c : ascii) : bool :=
  let n := nat_of_ascii c in
  ((65 <=? n) && (n <=? 90) || (97 <=? n) && (n <=? 122) ||
   (48 <=? n) && (n <=? 57) ||
   (n =? 43) || (n =? 95) || (n =? 46) || (n =? 45))%nat.

Definition allowed_body (s : string) : bool :=
  (1 <=? String.length s)%nat && (String.length s <=? ASSET_ALLOWED_MAX_LEN)%nat &&
  forallb asset_char (list_ascii_of_string s).

(** [_ASSET_ALLOWED_RE.match(asset)]: the pattern is anchored, and [$]
    also matches just before a final newline. *)
Definition asset_allowed_match (asset : string) : bool :=
  allowed_body asset ||
  (endswith_newline asset && allowed_body (drop_last asset)).

Definition _value_is_zero (e : AlchemyEvent) : bool :=
  match ev_value e with
  | Some v => Qc_eq_bool v Decimal_zero
  | None => false
  end.

Fixpoint dust_get (chain : string) (d : list (string * option Z)) : option Z :=
  match d with
  | [] => None
  | (k, v) :: d' => if k =? chain then v else dust_get chain d'
  end.

Definition _under_dust (env : DbEnv) (e : AlchemyEvent) (chain : string) : bool :=
  match dust_get chain DUST_WEI_THRESHOLDS with
  | None => false
  | Some threshold =>
      if (threshold =? 0)%Z then false
      else if negb (lower (or_empty (ev_category e)) =? "external") then false
      else
        let raw := match ev_rawContract e with
                   | Some rc => rc_value rc
                   | None => None
                   end in
        if negb (truthy_str raw) then false
        else match int16 env (or_empty raw) with
             | Some wei => (wei <? threshold)%Z
             | None => false
             end
  end.

(** [_asset_has_url_or_keywords]; [url_like a] stands for
    [bool(_URL_LIKE_RE.search(a))]. *)
Definition _asset_has_url_or_keywords (url_like : string -> bool)
           (asset : string) : bool :=
  let a := lower asset in
  if a =? "" then false
  else if existsb (fun k => contains (lower k) a) SPAM_KEYWORDS then true
  else url_like a.

Definition _asset_is_weird (asset : string) : bool :=
  if asset =? "" then false else negb (asset_allowed_match asset).

Definition is_spam_event (env : DbEnv) (url_like : string -> bool)
           (e : AlchemyEvent) (chain : string) : bool :=
  let asset := or_empty (ev_asset e) in
  if EXCLUDE_ZERO_VALUE && _value_is_zero e then true
  else if _asset_has_url_or_keywords url_like asset then true
  else if _asset_is_weird asset then true
  else if _under_dust env e chain then true
  else false.

Definition _apply_spam_filters (env : DbEnv) (url_like : string -> bool)
           (events : list AlchemyEvent) (chain : string) : list AlchemyEvent :=
  filter (fun e => negb (is_spam_event env url_like e chain)) events.

(** [fetch_all_for_chain], given the pages fetched for the two directions. *)
Definition fetch_all_for_chain (env : DbEnv) (url_like : string -> bool)
           (incoming outgoing : list AlchemyEvent) (chain : string)
  : list AlchemyEvent :=
  let merged := _unique_by_tx_and_unique_id (incoming ++ outgoing) in
  let merged := _filter_allowed_categories merged in
  _apply_spam_filters env url_like merged chain.

(** ** The CoinGecko client (src/src/coingecko.py) *)

Module CoinGecko.

(** The three requests the client sends. *)
Inductive Request :=
| GetContract (platform_id contract_address : string)
| GetMarketChartRange (coin_id : string) (from to : Z)
| GetSimplePrice (coin_id : string).

(** The [CoinGeckoError]s of the client, by message. *)
Inductive Error :=
| ApiError (message : string)
| CouldNotResolve (platform_id contract_address : string)
| PriceHistoryMissing (coin_id : string) (unix_ts : Z)
| CurrentPriceMissing (coin_id : string).

(** What [_request] gives for each request: the [CoinGeckoError] it
    raises (status 400 or more, or a body that is not JSON), or what the
    caller reads from the decoded body: [data.get("id")],
    [data.get("prices")] as pairs of milliseconds and price, and
    [data.get(coin_id, {}).get("usd")]; [None] where the entry is missing
    or the body is not a dictionary. *)
Record Http := mkHttp {
  contract_response : string -> string -> string + option string;
  range_response : string -> Z -> Z -> string + option (list (Z * float));
  simple_price_response : string -> string + option float
}.

(** The two dictionaries of the dataclass. *)
Record Client := mkClient {
  _price_cache : list ((string * Z) * float);
  _contract_cache : list ((string * string) * string)
}.

Definition new_client : Client := mkClient [] [].

Definition price_key_eqb (a b : string * Z) : bool :=
  (fst a =? fst b) && (snd a =? snd b)%Z.

Definition contract_key_eqb (a b : string * string) : bool :=
  (fst a =? fst b) && (snd a =? snd b).

Fixpoint cache_get {K V : Type} (eqb : K -> K -> bool) (k : K)
         (d : list (K * V)) : option V :=
  match d with
  | [] => None
  | (k', v) :: d' => if eqb k' k then Some v else cache_get eqb k d'
  end.

Fixpoint cache_set {K V : Type} (eqb : K -> K -> bool) (k : K) (v : V)
         (d : list (K * V)) : list (K * V) :=
  match d with
  | [] => [(k, v)]
  | (k', v') :: d' =>
      if eqb k' k then (k', v) :: d' else (k', v') :: cache_set eqb k v d'
  end.

(** A call gives its result, the client afterwards and the requests sent. *)
Definition Call (A : Type) : Type := (Error + A) * Client * list Request.

Definition get_coin_id_by_contract (http : Http) (self : Client)
           (platform_id contract_address : string) : Call string :=
  let key := (platform_id, lower contract_address) in
  match cache_get contract_key_eqb key (_contract_cache self) with
  | Some coin_id => (inr coin_id, self, [])
  | None =>
      let sent := [GetContract platform_id contract_address] in
      match contract_response http platform_id contract_address with
      | inl message => (inl (ApiError message), self, sent)
      | inr coin_id =>
          if truthy_str coin_id
          then (inr (or_empty coin_id),
                mkClient (_price_cache self)
                         (cache_set contract_key_eqb key (or_empty coin_id)
                                    (_contract_cache self)),
                sent)
          else (inl (CouldNotResolve platform_id contract_address), self, sent)
      end
  end.

(** The key of [min]: [abs(int(pair[0] / 1000) - unix_ts)]. *)
Definition distance (unix_ts : Z) (sample : Z * float) : Z :=
  Z.abs (Z.quot (fst sample) 1000 - unix_ts).

(** [min(prices, key=...)]: the first of the smallest. *)
Fixpoint min_from (unix_ts : Z) (best : Z * float) (prices : list (Z * float))
  : Z * float :=
  match prices with
  | [] => best
  | sample :: prices' =>
      if (distance unix_ts sample <? distance unix_ts best)%Z
      then min_from unix_ts sample prices'
      else min_from unix_ts best prices'
  end.

(** [get_price_at_timestamp], from [unix_ts = int(timestamp.timestamp())]
    on. *)
Definition get_price_at_timestamp (http : Http) (self : Client)
           (coin_id : string) (unix_ts : Z) : Call float :=
  let cache_key := (coin_id, unix_ts) in
  match cache_get price_key_eqb cache_key (_price_cache self) with
  | Some price => (inr price, self, [])
  | None =>
      let sent := [GetMarketChartRange coin_id (unix_ts - 900) (unix_ts + 900)] in
      match range_response http coin_id (unix_ts - 900) (unix_ts + 900) with
      | inl message => (inl (ApiError message), self, sent)
      | inr (Some (first :: prices)) =>
          let closest_price := min_from unix_ts first prices in
          let price := snd closest_price in
          (inr price,
           mkClient (cache_set price_key_eqb cache_key price (_price_cache self))
                    (_contract_cache self),
           sent)
      | inr _ => (inl (PriceHistoryMissing coin_id unix_ts), self, sent)
      end
  end.

Definition get_current_price (http : Http) (self : Client) (coin_id : string)
  : Call float :=
  let sent := [GetSimplePrice coin_id] in
  match simple_price_response http coin_id with
  | inl message => (inl (ApiError message), self, sent)
  | inr (Some price) => (inr price, self, sent)
  | inr None => (inl (CurrentPriceMissing coin_id), self, sent)
  end.

(** A use of the client, and the client after a sequence of uses. *)
Inductive Use :=
| UseCoinId (platform_id contract_address : string)
| UsePriceAt (coin_id : string) (unix_ts : Z)
| UseCurrentPrice (coin_id : string).

Definition client_after (http : Http) (self : Client) (u : Use) : Client :=
  match u with
  | UseCoinId p c => snd (fst (get_coin_id_by_contract http self p c))
  | UsePriceAt c ts => snd (fst (get_price_at_timestamp http self c ts))
  | UseCurrentPrice c => snd (fst (get_current_price http self c))
  end.

Definition client_after_all (http : Http) (self : Client) (uses : list Use)
  : Client :=
  fold_left (client_after http) uses self.

End CoinGecko.

(** ** Sample data: the scenario of tests/test_swap_analysis.py and variants *)

Definition dec (n : Z) (d : positive) : Qc := Q2Qc (n # d).

(** A stored row as [insert_transaction] leaves it: enrichment at defaults. *)
Definition stored (i : Z) (ch h uid : string) (ts f t a : option string)
           (v : option float) (c : option string) : Transaction :=
  mkTransaction i ch h uid (Some i) ts f t a v None (Some "erc20") c None None
                0%Z None None None None None None None (Some "{}") None.

Definition usdc_contract : string := "0xa0b86991c6218b36c1d19d4a2e9eb0ce3606eb48".

(** Sample reading of timestamps: the calendar day, as the fake client of
    the tests keys its prices. *)
Definition day_of (s : string) : option string :=
  if (String.length s <? 10)%nat then None else Some (substring 0 10 s).

(** The fake client of the tests; a lookup it does not know raises. *)
Definition sample_client : CoinGeckoClient string :=
  mkClient
    (fun c => if c =? "bitcoin" then inr (dec 30000 1) else inl "no quote")
    (fun c day =>
       if (c =? "usd-coin") && ((day =? "2024-01-01") || (day =? "2024-01-02"))
       then inr (dec 1 1)
       else if (c =? "bitcoin") && (day =? "2024-01-01") then inr (dec 25000 1)
       else if (c =? "bitcoin") && (day =? "2024-01-02") then inr (dec 26000 1)
       else if (c =? "ethereum") && (day =? "2024-01-02") then inr (dec 2000 1)
       else if (c =? "bridged-usdc") && (day =? "2024-01-01") then inr (dec 2 1)
       else inl "no price")
    (fun p c =>
       if (p =? "ethereum") && (lower c =? usdc_contract) then inr "usd-coin"
       else if (p =? "base") && (lower c =? usdc_contract) then inr "bridged-usdc"
       else inl "unknown contract").

(** The same client when the upstream has no current quote. *)
Definition no_quote_client : CoinGeckoClient string :=
  mkClient (fun _ => inl "CoinGecko current price missing for bitcoin")
           (get_price_at_timestamp sample_client)
           (get_coin_id_by_contract sample_client).

Definition day1 : option string := Some "2024-01-01T00:00:00.000Z".
Definition day2 : option string := Some "2024-01-02T00:00:00.000Z".
Definition day3 : option string := Some "2024-01-03T00:00:00.000Z".
Definition wallet : option string := Some "0xWallet".

Definition sample_store : list Transaction :=
  [ stored 1 "ethereum" "0xswap1" "out-1" day1 wallet (Some "0xDex")
           (Some "USDC") (Some (dec 1000 1)) (Some usdc_contract);
    stored 2 "ethereum" "0xswap1" "in-1" day1 (Some "0xDex") wallet
           (Some "TOKEN") (Some (dec 500 1)) (Some "0xToken");
    stored 3 "ethereum" "0xswap2" "out-eth" day2 wallet (Some "0xDex2")
           (Some "ETH") (Some (dec 1 10)) None;
    stored 4 "ethereum" "0xswap2" "out-usdc" day2 wallet (Some "0xDex2")
           (Some "USDC") (Some (dec 100 1)) (Some usdc_contract);
    stored 5 "ethereum" "0xswap2" "in-2" day2 (Some "0xDex2") wallet
           (Some "TOKEN2") (Some (dec 750 1)) (Some "0xToken2");
    stored 6 "ethereum" "0xnoswap" "gift" day3 (Some "0xFriend") wallet
           (Some "ETH") (Some (dec 1 2)) None ].

Definition sample_analyzer : SwapAnalyzer string :=
  mkSwapAnalyzer "0xwallet" "transactions.sqlite3" sample_client.

(** The first swap with a third leg of the same transaction that does not
    involve the wallet (the router paying a pool). *)
Definition store_with_foreign_leg : list Transaction :=
  [ stored 1 "ethereum" "0xswap1" "out-1" day1 wallet (Some "0xDex")
           (Some "USDC") (Some (dec 1000 1)) (Some usdc_contract);
    stored 2 "ethereum" "0xswap1" "in-1" day1 (Some "0xDex") wallet
           (Some "TOKEN") (Some (dec 500 1)) (Some "0xToken");
    stored 3 "ethereum" "0xswap1" "hop" day1 (Some "0xDex") (Some "0xPool")
           (Some "USDC") (Some (dec 1000 1)) (Some usdc_contract) ].

(** A swap whose spent asset cannot be priced (unknown symbol, no
    contract), next to the two swaps of the test. *)
Definition store_with_unpriced_group : list Transaction :=
  [ stored 7 "ethereum" "0xswap0" "out-x" day1 wallet (Some "0xDex")
           (Some "FOO") (Some (dec 5 1)) None;
    stored 8 "ethereum" "0xswap0" "in-x" day1 (Some "0xDex") wallet
           (Some "TOKEN") (Some (dec 9 1)) (Some "0xToken") ]
  ++ sample_store.

(** One transaction hash recorded on two chains, the same token contract
    spent on both; the two stores hold the same records in two orders. *)
Definition replay_leg_ethereum (i : Z) : Transaction :=
  stored i "ethereum" "0xreplay" "out-eth" day1 wallet (Some "0xDex")
         (Some "USDC") (Some (dec 100 1)) (Some usdc_contract).

Definition replay_leg_base (i : Z) : Transaction :=
  stored i "base" "0xreplay" "out-base" day1 wallet (Some "0xDex")
         (Some "USDC") (Some (dec 100 1)) (Some usdc_contract).

Definition replay_leg_in (i : Z) : Transaction :=
  stored i "ethereum" "0xreplay" "in" day1 (Some "0xDex") wallet
         (Some "TOKEN") (Some (dec 500 1)) (Some "0xToken").

Definition replay_store_a : list Transaction :=
  [ replay_leg_ethereum 1; replay_leg_base 2; replay_leg_in 3 ].

Definition replay_store_b : list Transaction :=
  [ replay_leg_base 1; replay_leg_ethereum 2; replay_leg_in 3 ].

(** Two clocks, and runs over the sample stores. *)
Definition sample_clock (h : string) : string := "now".

Definition later_clock (h : string) : string := "later".

(** Runs over the sample stores, and the [i]-th row a run leaves. *)
Definition sample_run : Outcome string :=
  analyze day_of sample_analyzer sample_clock sample_store.

Definition foreign_leg_run : Outcome string :=
  analyze day_of sample_analyzer sample_clock store_with_foreign_leg.

Definition unpriced_run : Outcome string :=
  analyze day_of sample_analyzer sample_clock store_with_unpriced_group.

Definition no_row : Transaction :=
  stored 0 "" "" "" None None None None None None.

Definition row_at (i : nat) (o : Outcome string) : Transaction :=
  nth i (store_after o) no_row.

(** The figures of a summary and of a stored row, as plain fractions. *)
Definition summary_figures (r : exn + Summary) : option (Q * Q * Q * Q) :=
  match r with
  | inr s => Some (this (swaps_detected s), this (btc_amount s),
                   this (btc_value_usd s), this (btc_price_current s))
  | inl _ => None
  end.

Definition row_figures (t : Transaction)
  : Z * option string * option Q * option Q * option Q * option Q * option Q * option Q :=
  (is_swap t, swap_spent_asset t,
   option_map this (swap_spent_amount t), option_map this (swap_spent_usd t),
   option_map this (swap_btc_price_at_purchase t),
   option_map this (swap_btc_amount t),
   option_map this (swap_btc_price_current t),
   option_map this (swap_btc_value_usd t)).

Definition components_or_nil (r : exn + list SpentComponent)
  : list SpentComponent :=
  match r with inr comps => comps | inl _ => [] end.

(** An EVM address, as [ADDRESS_RE] of src/fetch_and_store.py reads it:
    [0x] followed by forty hexadecimal digits. *)
Definition is_hex_digit (c : ascii) : bool :=
  let n := nat_of_ascii c in
  ((48 <=? n) && (n <=? 57) || (65 <=? n) && (n <=? 70) ||
   (97 <=? n) && (n <=? 102))%nat.

Definition well_formed_address (s : string) : bool :=
  match s with
  | String "0" (String "x" rest) =>
      (String.length rest =? 40)%nat &&
      forallb is_hex_digit (list_ascii_of_string rest)
  | _ => false
  end.

(** ** Sample data for the rest of the pipeline *)

(** A leg of no value, and a store that holds only the gift of the tests. *)
Definition zero_leg : Row :=
  select_row (stored 9 "ethereum" "0xswap9" "out-0" day1 wallet (Some "0xDex")
                     (Some "USDC") (Some (dec 0 1)) (Some usdc_contract)).

Definition gift_store : list Transaction :=
  [ stored 6 "ethereum" "0xnoswap" "gift" day3 (Some "0xFriend") wallet
           (Some "ETH") (Some (dec 1 2)) None ].

(** [int(s, 16)] on plain hexadecimal texts, with or without [0x]. *)
Definition hex_digit_value (c : ascii) : option Z :=
  let n := Z.of_nat (nat_of_ascii c) in
  if ((48 <=? n) && (n <=? 57))%Z then Some (n - 48)%Z
  else if ((97 <=? n) && (n <=? 102))%Z then Some (n - 87)%Z
  else if ((65 <=? n) && (n <=? 70))%Z then Some (n - 55)%Z
  else None.

Fixpoint hex_digits (acc : Z) (s : string) : option Z :=
  match s with
  | EmptyString => Some acc
  | String c s' =>
      match hex_digit_value c with
      | Some d => hex_digits (16 * acc + d)%Z s'
      | None => None
      end
  end.

Definition sample_int16 (s : string) : option Z :=
  match s with
  | String "0" (String "x" rest) =>
      if rest =? "" then None else hex_digits 0 rest
  | _ => if s =? "" then None else hex_digits 0 s
  end.

Definition sample_next_rowid (ids : list Z) : Z :=
  (1 + fold_right Z.max 0 ids)%Z.

Definition sample_env : DbEnv :=
  mkDbEnv sample_int16 sample_next_rowid "2024-01-04 00:00:00".

Definition later_env : DbEnv :=
  mkDbEnv sample_int16 (fun ids => (100 + fold_right Z.max 0 ids)%Z)
          "2024-01-05 00:00:00".

Definition transfer (hash uid from to asset : string) (v : float)
           (category : string) : AlchemyEvent :=
  mkEvent (Some "0x10")
          (Some (mkRawContract (Some "0x3e8") (Some usdc_contract)))
          (Some hash) (Some uid)
          (MetadataDict (Some "2024-01-04T00:00:00.000Z")) None
          (Some from) (Some to) (Some asset) (Some v) (Some category)
          None None "{}".

Definition bought : AlchemyEvent :=
  transfer "0xswap3" "log:2" "0xDex" "0xWallet" "TOKEN3" (dec 5 1) "erc20".

Definition to_self : AlchemyEvent :=
  transfer "0xself" "log:0" "0xWallet" "0xWallet" "ETH" (dec 1 1) "EXTERNAL".

Definition promoted : AlchemyEvent :=
  transfer "0xspam" "log:7" "0xScam" "0xWallet" "claim-now.xyz" (dec 1 1) "erc20".

Definition paid : AlchemyEvent :=
  transfer "0xswap3" "log:1" "0xWallet" "0xDex" "USDC" (dec 50 1) "erc20".

Definition known : AlchemyEvent :=
  transfer "0xswap1" "out-1" "0xWallet" "0xDex" "USDC" (dec 1000 1) "erc20".

Definition fetched_in : list AlchemyEvent := [bought; to_self; promoted].

Definition fetched_out : list AlchemyEvent := [paid; to_self; known].

Definition sample_url_like (a : string) : bool := contains ".xyz" a.

Definition sample_fetch : list AlchemyEvent :=
  fetch_all_for_chain sample_env sample_url_like fetched_in fetched_out "ethereum".

(** The fetched events written to the store that the sample run left. *)
Definition sample_upsert : db_exn + (nat * list Transaction) :=
  upsert_events sample_env "ethereum" sample_fetch (store_after sample_run).

Definition sample_table : list Transaction :=
  table_after (store_after sample_run) sample_upsert.

(** A service that knows USDC and has three samples of the bitcoin price
    around 2024-01-01T00:00:00Z, and a service that is down. *)
Definition new_year : Z := 1704067200.

Definition sample_prices : list (Z * float) :=
  [ (1704067000000%Z, dec 42000 1);
    (1704067260000%Z, dec 42100 1);
    (1704067140999%Z, dec 42050 1) ].

Definition sample_http : CoinGecko.Http :=
  CoinGecko.mkHttp
    (fun platform contract =>
       if lower contract =? usdc_contract then inr (Some "usd-coin")
       else inr None)
    (fun coin from to =>
       if coin =? "bitcoin" then inr (Some sample_prices) else inr (Some []))
    (fun coin => if coin =? "bitcoin" then inr (Some (dec 30000 1)) else inr None).

Definition outage_http : CoinGecko.Http :=
  CoinGecko.mkHttp
    (fun _ _ => inl "CoinGecko API error 503: ")
    (fun _ _ _ => inl "CoinGecko API error 503: ")
    (fun _ => inl "CoinGecko API error 503: ").

Definition sample_uses : list CoinGecko.Use :=
  [ CoinGecko.UsePriceAt "ethereum" new_year;
    CoinGecko.UseCoinId "ethereum" "0xToken";
    CoinGecko.UseCurrentPrice "bitcoin";
    CoinGecko.UsePriceAt "bitcoin" (new_year + 60) ].

(** ** Auxiliary results on lists *)

Unset Implicit Arguments.

Lemma opt_string_eqb_eq a b : opt_string_eqb a b = true <-> a = b.
Proof.
  destruct a as [x|], b as [y|]; simpl; try (split; congruence).
  rewrite String.eqb_eq. split; congruence.
Qed.

Lemma key_eqb_eq (a b : Key) : key_eqb a b = true <-> a = b.
Proof.
  destruct a as [a1 a2], b as [b1 b2]; unfold key_eqb; simpl.
  rewrite andb_true_iff, !opt_string_eqb_eq. split.
  - intros [-> ->]; reflexivity.
  - intros H; inversion H; auto.
Qed.

Lemma key_eqb_refl (a : Key) : key_eqb a a = true.
Proof. apply key_eqb_eq; reflexivity. Qed.

Lemma key_eqb_neq (a b : Key) : key_eqb a b = false <-> a <> b.
Proof.
  split.
  - intros H E. apply key_eqb_eq in E. congruence.
  - intros H. destruct (key_eqb a b) eqn:E; auto.
    apply key_eqb_eq in E. contradiction.
Qed.

Lemma fold_left_map_pointwise {A B : Type} (f : B -> A -> A) (xs : list B) :
  forall c : list A,
    fold_left (fun c x => map (f x) c) xs c =
    map (fun t => fold_left (fun t x => f x t) xs t) c.
Proof.
  induction xs as [|x xs IH]; intros c; simpl.
  - symmetry; apply map_id.
  - rewrite IH, map_map. reflexivity.
Qed.

Lemma NoDup_map_In_inj {A B : Type} (f : A -> B) (l : list A) :
  NoDup (map f l) ->
  forall a b, In a l -> In b l -> f a = f b -> a = b.
Proof.
  induction l as [|x l IH]; simpl; intros Hnd a b Ha Hb Hf; [contradiction|].
  inversion Hnd as [|? ? Hnotin Hnd']; subst.
  destruct Ha as [<-|Ha], Hb as [<-|Hb]; auto.
  - exfalso; apply Hnotin. rewrite Hf. apply in_map; assumption.
  - exfalso; apply Hnotin. rewrite <- Hf. apply in_map; assumption.
Qed.

Lemma is_nil_true {A : Type} (l : list A) : is_nil l = true <-> l = [].
Proof. destruct l; simpl; split; congruence. Qed.

Lemma is_nil_false {A : Type} (l : list A) : is_nil l = false <-> l <> [].
Proof. destruct l; simpl; split; congruence. Qed.

(** ** The two batched writes, row by row *)

Lemma set_is_swap_idem t : set_is_swap (set_is_swap t) = set_is_swap t.
Proof. reflexivity. Qed.

Lemma set_enrichment_idem p t : set_enrichment p (set_enrichment p t) = set_enrichment p t.
Proof. reflexivity. Qed.

Lemma enrichment_of_set p t : enrichment_of (set_enrichment p t) = p.
Proof. destruct p; reflexivity. Qed.

Lemma select_row_set_is_swap t : select_row (set_is_swap t) = select_row t.
Proof. reflexivity. Qed.

Lemma select_row_set_enrichment p t : select_row (set_enrichment p t) = select_row t.
Proof. reflexivity. Qed.

Lemma has_id_map rid rows :
  has_id rid rows = existsb (Z.eqb rid) (map r_id rows).
Proof.
  unfold has_id. induction rows as [|r rows IH]; simpl; [reflexivity|].
  rewrite IH; reflexivity.
Qed.

Lemma executemany_by_id (f : Transaction -> Transaction) :
  (forall t, id (f t) = id t) ->
  (forall t, f (f t) = f t) ->
  forall ids conn,
    fold_left (fun c rid => update_where_id rid f c) ids conn =
    map (fun t => if existsb (Z.eqb (id t)) ids then f t else t) conn.
Proof.
  intros Hid Hidem ids. induction ids as [|rid ids IH]; intros conn; simpl.
  - symmetry; apply map_id.
  - rewrite IH. unfold update_where_id. rewrite map_map.
    apply map_ext. intros t.
    destruct (id t =? rid)%Z eqn:E; simpl.
    + rewrite Hid, Hidem. destruct (existsb (Z.eqb (id t)) ids); reflexivity.
    + reflexivity.
Qed.

Lemma mark_outgoing_rows conn outgoing :
  _mark_outgoing conn outgoing =
  map (fun t => if has_id (id t) outgoing then set_is_swap t else t) conn.
Proof.
  unfold _mark_outgoing.
  destruct (map r_id outgoing) as [|i ids] eqn:E.
  - destruct outgoing; [|discriminate]. simpl. symmetry; apply map_id.
  - rewrite executemany_by_id by reflexivity.
    apply map_ext. intros t. rewrite has_id_map, E. reflexivity.
Qed.

Lemma enrich_incoming_rows conn incoming sc usd price amt cur :
  _enrich_incoming conn incoming sc usd price amt cur =
  map (fun t => if has_id (id t) incoming
                then set_enrichment (enrichment_params sc usd price amt cur) t
                else t) conn.
Proof.
  unfold _enrich_incoming.
  set (p := enrichment_params sc usd price amt cur).
  destruct incoming as [|r incoming]; simpl map at 1.
  - simpl. symmetry; apply map_id.
  - transitivity
      (fold_left (fun c rid => update_where_id rid (set_enrichment p) c)
                 (map r_id (r :: incoming)) conn).
    + generalize (r :: incoming) as l. intros l. revert conn.
      induction l as [|x l IH]; intros conn; simpl; [reflexivity|].
      apply IH.
    + rewrite executemany_by_id by reflexivity.
      apply map_ext. intros t. rewrite has_id_map. reflexivity.
Qed.

(** ** Loading and grouping *)

Lemma insert_by_timestamp_perm r l :
  Permutation (insert_by_timestamp r l) (r :: l).
Proof.
  induction l as [|x l IH]; simpl; [reflexivity|].
  destruct (timestamp_leb (r_block_timestamp x) (r_block_timestamp r)).
  - rewrite IH. apply perm_swap.
  - reflexivity.
Qed.

Lemma order_by_timestamp_acc_perm l : forall acc,
  Permutation (fold_left (fun acc r => insert_by_timestamp r acc) l acc) (acc ++ l).
Proof.
  induction l as [|x l IH]; intros acc; simpl.
  - rewrite app_nil_r; reflexivity.
  - rewrite IH, insert_by_timestamp_perm.
    apply (Permutation_middle acc l x).
Qed.

Lemma order_by_timestamp_perm l : Permutation (order_by_timestamp l) l.
Proof. unfold order_by_timestamp. apply (order_by_timestamp_acc_perm l []). Qed.

Lemma fetchall_In conn r :
  In r (fetchall conn) <-> In r (map select_row conn).
Proof.
  unfold fetchall. split; apply Permutation_in.
  - apply order_by_timestamp_perm.
  - symmetry; apply order_by_timestamp_perm.
Qed.

Lemma group_get_append h' h r d :
  group_get h' (group_append h r d) =
  if h' =? h
  then Some (match group_get h d with Some rows => rows ++ [r] | None => [r] end)
  else group_get h' d.
Proof.
  induction d as [|[k rows] d IH]; simpl.
  - rewrite (String.eqb_sym h h'). destruct (h' =? h); reflexivity.
  - destruct (k =? h) eqn:Ekh; simpl.
    + apply String.eqb_eq in Ekh; subst k.
      destruct (h =? h') eqn:E1.
      * apply String.eqb_eq in E1; subst h'. rewrite String.eqb_refl. reflexivity.
      * rewrite (String.eqb_sym h' h), E1. reflexivity.
    + destruct (k =? h') eqn:E1.
      * apply String.eqb_eq in E1; subst h'.
        rewrite Ekh. reflexivity.
      * apply IH.
Qed.

Lemma group_append_keys h r d :
  map fst (group_append h r d) =
  if existsb (String.eqb h) (map fst d) then map fst d else map fst d ++ [h].
Proof.
  induction d as [|[k rows] d IH]; simpl; [reflexivity|].
  rewrite (String.eqb_sym h k).
  destruct (k =? h); simpl; [reflexivity|].
  rewrite IH. destruct (existsb (String.eqb h) (map fst d)); reflexivity.
Qed.

Lemma group_append_NoDup h r d :
  NoDup (map fst d) -> NoDup (map fst (group_append h r d)).
Proof.
  intros Hnd. rewrite group_append_keys.
  destruct (existsb (String.eqb h) (map fst d)) eqn:E; [assumption|].
  apply (Permutation_NoDup (Permutation_cons_append (map fst d) h)).
  constructor; [|assumption].
  intros Hin.
  assert (existsb (String.eqb h) (map fst d) = true); [|congruence].
  apply existsb_exists. exists h; split; [assumption|apply String.eqb_refl].
Qed.

Lemma group_append_members l r d :
  (forall k rows x, In (k, rows) d -> In x rows -> r_tx_hash x = k /\ In x l) ->
  forall k rows x, In (k, rows) (group_append (r_tx_hash r) r d) -> In x rows ->
    r_tx_hash x = k /\ In x (l ++ [r]).
Proof.
  intros Hd. induction d as [|[k0 rows0] d IH]; intros k rows x Hin Hx.
  - simpl in Hin. destruct Hin as [Heq|Hin]; [|contradiction].
    inversion Heq; subst.
    destruct Hx as [<-|Hx]; [|contradiction]. split; [reflexivity|].
    apply in_or_app; right; left; reflexivity.
  - simpl in Hin. destruct (k0 =? r_tx_hash r) eqn:E.
    + apply String.eqb_eq in E; subst k0.
      destruct Hin as [Heq|Hin].
      * inversion Heq; subst. apply in_app_or in Hx. destruct Hx as [Hx|[<-|Hx]].
        -- destruct (Hd (r_tx_hash r) rows0 x (or_introl eq_refl) Hx) as [H1 H2].
           split; [assumption|apply in_or_app; left; assumption].
        -- split; [reflexivity|apply in_or_app; right; left; reflexivity].
        -- contradiction.
      * destruct (Hd k rows x (or_intror Hin) Hx) as [H1 H2].
        split; [assumption|apply in_or_app; left; assumption].
    + destruct Hin as [Heq|Hin].
      * inversion Heq; subst.
        destruct (Hd k rows x (or_introl eq_refl) Hx) as [H1 H2].
        split; [assumption|apply in_or_app; left; assumption].
      * apply IH with (rows := rows); auto.
        intros k' rows' x' Hin' Hx'. apply (Hd k' rows' x'); [right|]; assumption.
Qed.

(** The dictionary built from the rows [l], starting from [d]. *)
Lemma grouping_fold_get l : forall d h,
  group_get h (fold_left (fun g row => group_append (r_tx_hash row) row g) l d) =
  match group_get h d, rows_with h l with
  | None, [] => None
  | None, rs => Some rs
  | Some rows, rs => Some (rows ++ rs)
  end.
Proof.
  induction l as [|r l IH]; intros d h; simpl.
  - destruct (group_get h d); [rewrite app_nil_r|]; reflexivity.
  - rewrite IH, group_get_append. unfold rows_with at 2. simpl.
    rewrite (String.eqb_sym (r_tx_hash r) h).
    fold (rows_with h l).
    destruct (h =? r_tx_hash r) eqn:E.
    + apply String.eqb_eq in E; subst h.
      destruct (group_get (r_tx_hash r) d) as [rows|].
      * rewrite <- app_assoc. reflexivity.
      * reflexivity.
    + reflexivity.
Qed.

Lemma grouping_fold_NoDup l : forall d,
  NoDup (map fst d) ->
  NoDup (map fst (fold_left (fun g row => group_append (r_tx_hash row) row g) l d)).
Proof.
  induction l as [|r l IH]; intros d Hd; simpl; [assumption|].
  apply IH. apply group_append_NoDup; assumption.
Qed.

Lemma grouping_fold_members l : forall l0 d,
  (forall k rows x, In (k, rows) d -> In x rows -> r_tx_hash x = k /\ In x l0) ->
  forall k rows x,
    In (k, rows) (fold_left (fun g row => group_append (r_tx_hash row) row g) l d) ->
    In x rows -> r_tx_hash x = k /\ In x (l0 ++ l).
Proof.
  induction l as [|r l IH]; intros l0 d Hd k rows x Hin Hx; simpl in *.
  - rewrite app_nil_r. eapply Hd; eassumption.
  - change (r :: l) with ([r] ++ l). rewrite app_assoc.
    eapply IH; [|eassumption|eassumption].
    apply group_append_members; assumption.
Qed.

Lemma group_transactions_NoDup conn :
  NoDup (map fst (_group_transactions conn)).
Proof. apply grouping_fold_NoDup. constructor. Qed.

Lemma group_transactions_get conn h :
  group_get h (_group_transactions conn) =
  match rows_with h (fetchall conn) with
  | [] => None
  | rs => Some rs
  end.
Proof. unfold _group_transactions. rewrite grouping_fold_get. reflexivity. Qed.

Lemma group_rows_eq conn h : group_rows conn h = rows_with h (fetchall conn).
Proof.
  unfold group_rows. rewrite group_transactions_get.
  destruct (rows_with h (fetchall conn)); reflexivity.
Qed.

Lemma group_transactions_members conn k rows x :
  In (k, rows) (_group_transactions conn) -> In x rows ->
  r_tx_hash x = k /\ exists t, In t conn /\ select_row t = x.
Proof.
  intros Hin Hx.
  destruct (@grouping_fold_members (fetchall conn) [] [] (fun _ _ _ H => match H with end)
              k rows x Hin Hx) as [H1 H2].
  split; [assumption|].
  simpl in H2. apply fetchall_In in H2. apply in_map_iff in H2.
  destruct H2 as [t [Ht Hint]]. exists t; auto.
Qed.

Lemma group_transactions_nil conn :
  _group_transactions conn = [] <-> conn = [].
Proof.
  split.
  - intros H. destruct conn as [|t conn]; [reflexivity|exfalso].
    assert (Hin : In (select_row t) (fetchall (t :: conn))).
    { apply fetchall_In. left; reflexivity. }
    pose proof (group_transactions_get (t :: conn) (tx_hash t)) as G.
    rewrite H in G. simpl in G.
    destruct (rows_with (tx_hash t) (fetchall (t :: conn))) eqn:E; [|discriminate].
    assert (In (select_row t) (rows_with (tx_hash t) (fetchall (t :: conn)))).
    { apply filter_In. split; [assumption|]. simpl. apply String.eqb_refl. }
    rewrite E in H0. contradiction.
  - intros ->. reflexivity.
Qed.

(** ** The load is sorted, and sorting commutes with selection *)

Lemma string_leb_iff a b :
  String.leb a b = true <-> a = b \/ String_as_OT.lt a b.
Proof.
  unfold String.leb.
  destruct (String.compare a b) eqn:E.
  - apply String_as_OT.cmp_eq in E. tauto.
  - apply String_as_OT.cmp_lt in E. tauto.
  - split; [discriminate|]. intros [->|H].
    + assert (String.compare b b = Eq) by (apply String_as_OT.cmp_eq; reflexivity).
      congruence.
    + apply String_as_OT.cmp_lt in H. unfold String_as_OT.cmp in H. congruence.
Qed.

Lemma string_leb_trans a b c :
  String.leb a b = true -> String.leb b c = true -> String.leb a c = true.
Proof.
  rewrite !string_leb_iff. intros [->|H1] [->|H2]; auto.
  right. eapply String_as_OT.lt_trans; eassumption.
Qed.

Lemma ts_le_total a b : ts_le a b \/ ts_le b a.
Proof.
  unfold ts_le. destruct a as [x|], b as [y|]; simpl; auto.
  apply String.leb_total.
Qed.

Lemma ts_le_trans a b c : ts_le a b -> ts_le b c -> ts_le a c.
Proof.
  unfold ts_le. destruct a as [x|], b as [y|], c as [z|]; simpl; auto; try discriminate.
  apply string_leb_trans.
Qed.

Lemma ts_le_antisym a b : ts_le a b -> ts_le b a -> a = b.
Proof.
  unfold ts_le. destruct a as [x|], b as [y|]; simpl; auto; try discriminate.
  intros H1 H2. f_equal. apply String.leb_antisym; assumption.
Qed.

Lemma insert_by_timestamp_sorted r l :
  StronglySorted row_le l -> StronglySorted row_le (insert_by_timestamp r l).
Proof.
  induction l as [|x l IH]; intros Hs; simpl.
  - repeat constructor.
  - inversion Hs as [|? ? Hs' Hall]; subst.
    destruct (timestamp_leb (r_block_timestamp x) (r_block_timestamp r)) eqn:E.
    + constructor; [apply IH; assumption|].
      apply (Permutation_Forall (Permutation_sym (insert_by_timestamp_perm r l))).
      constructor; assumption.
    + assert (Hrx : row_le r x).
      { destruct (ts_le_total (r_block_timestamp r) (r_block_timestamp x)) as [H|H];
          [exact H|]. unfold ts_le in H. congruence. }
      constructor; [assumption|].
      constructor; [assumption|].
      eapply Forall_impl; [|exact Hall].
      intros y Hy. unfold row_le in *. eapply ts_le_trans; eassumption.
Qed.

Lemma order_by_timestamp_sorted l : StronglySorted row_le (order_by_timestamp l).
Proof.
  unfold order_by_timestamp.
  assert (G : forall l acc, StronglySorted row_le acc ->
                            StronglySorted row_le
                              (fold_left (fun acc r => insert_by_timestamp r acc) l acc)).
  { clear l. induction l as [|x l IH]; intros acc Hacc; simpl; [assumption|].
    apply IH. apply insert_by_timestamp_sorted; assumption. }
  apply G. constructor.
Qed.

Lemma StronglySorted_filter (A : Type) (R : A -> A -> Prop) (f : A -> bool) l :
  StronglySorted R l -> StronglySorted R (filter f l).
Proof.
  induction 1 as [|x l Hs IH Hall]; simpl; [constructor|].
  destruct (f x); [|assumption].
  constructor; [assumption|].
  rewrite Forall_forall in *. intros y Hy. apply filter_In in Hy. apply Hall, Hy.
Qed.

Lemma insert_before_all r l :
  Forall (fun x => timestamp_leb (r_block_timestamp x) (r_block_timestamp r) = false) l ->
  insert_by_timestamp r l = r :: l.
Proof.
  destruct l as [|x l]; simpl; [reflexivity|].
  intros H. inversion H as [|? ? Hx _]; subst. rewrite Hx. reflexivity.
Qed.

Lemma insert_filter_kept (f : Row -> bool) r l :
  f r = true -> StronglySorted row_le l ->
  filter f (insert_by_timestamp r l) = insert_by_timestamp r (filter f l).
Proof.
  intros Hr. induction l as [|x l IH]; intros Hs; simpl.
  - rewrite Hr. reflexivity.
  - inversion Hs as [|? ? Hs' Hall]; subst.
    destruct (timestamp_leb (r_block_timestamp x) (r_block_timestamp r)) eqn:E; simpl.
    + destruct (f x); simpl; rewrite ?E, IH by assumption; reflexivity.
    + rewrite Hr. destruct (f x); simpl; [rewrite E; reflexivity|].
      rewrite insert_before_all; [reflexivity|].
      rewrite Forall_forall in *. intros y Hy. apply filter_In in Hy.
      destruct Hy as [Hy _]. specialize (Hall y Hy).
      destruct (timestamp_leb (r_block_timestamp y) (r_block_timestamp r)) eqn:Ey;
        [|reflexivity].
      assert (ts_le (r_block_timestamp x) (r_block_timestamp r))
        by (eapply ts_le_trans; [exact Hall|exact Ey]).
      unfold ts_le in *. congruence.
Qed.

Lemma insert_filter_dropped (f : Row -> bool) r l :
  f r = false ->
  filter f (insert_by_timestamp r l) = filter f l.
Proof.
  intros Hr. induction l as [|x l IH]; simpl.
  - rewrite Hr. reflexivity.
  - destruct (timestamp_leb (r_block_timestamp x) (r_block_timestamp r)); simpl.
    + rewrite IH. reflexivity.
    + rewrite Hr. reflexivity.
Qed.

Lemma order_by_timestamp_filter (f : Row -> bool) l :
  order_by_timestamp (filter f l) = filter f (order_by_timestamp l).
Proof.
  unfold order_by_timestamp.
  assert (G : forall l acc, StronglySorted row_le acc ->
            fold_left (fun acc r => insert_by_timestamp r acc) (filter f l) (filter f acc) =
            filter f (fold_left (fun acc r => insert_by_timestamp r acc) l acc)).
  { clear l. induction l as [|x l IH]; intros acc Hacc; simpl; [reflexivity|].
    destruct (f x) eqn:Ex; simpl.
    - rewrite <- insert_filter_kept by assumption.
      apply IH. apply insert_by_timestamp_sorted; assumption.
    - rewrite <- (insert_filter_dropped f x acc Ex).
      apply IH. apply insert_by_timestamp_sorted; assumption. }
  apply (G l []). constructor.
Qed.

Lemma map_select_filter (f : Row -> bool) conn :
  map select_row (filter (fun t => f (select_row t)) conn) =
  filter f (map select_row conn).
Proof.
  induction conn as [|t conn IH]; simpl; [reflexivity|].
  destruct (f (select_row t)); simpl; rewrite IH; reflexivity.
Qed.

Lemma fetchall_filter (f : Row -> bool) conn :
  fetchall (filter (fun t => f (select_row t)) conn) = filter f (fetchall conn).
Proof.
  unfold fetchall. rewrite map_select_filter. apply order_by_timestamp_filter.
Qed.

Lemma fetchall_without_hash h conn :
  fetchall (without_hash h conn) =
  filter (fun r => negb (r_tx_hash r =? h)) (fetchall conn).
Proof. exact (fetchall_filter (fun r => negb (r_tx_hash r =? h)) conn). Qed.

Lemma group_rows_without_hash conn h k :
  k <> h -> group_rows (without_hash h conn) k = group_rows conn k.
Proof.
  intros Hne. rewrite !group_rows_eq, fetchall_without_hash.
  unfold rows_with.
  induction (fetchall conn) as [|r l IH]; simpl; [reflexivity|].
  destruct (r_tx_hash r =? k) eqn:E.
  - apply String.eqb_eq in E.
    assert (Hkh : (r_tx_hash r =? h) = false)
      by (apply String.eqb_neq; congruence).
    rewrite Hkh. simpl. rewrite IH.
    assert (Hkk : (r_tx_hash r =? k) = true) by (apply String.eqb_eq; assumption).
    rewrite Hkk. reflexivity.
  - destruct (negb (r_tx_hash r =? h)); simpl; rewrite ?E; exact IH.
Qed.

Section Properties.

Variable datetime : Type.
Variable fromisoformat : string -> option datetime.

(** ** Only [CoinGeckoError] leaves the valuation of a group *)

Lemma of_answer_raises A (ev : Event datetime) (a : string + A) :
  raises_only_CoinGeckoError (of_answer ev a).
Proof. destruct a; exact I. Qed.

Lemma resolve_coin_id_raises (self : SwapAnalyzer datetime) ch a c :
  raises_only_CoinGeckoError (_resolve_coin_id self ch a c).
Proof.
  unfold _resolve_coin_id.
  destruct (truthy_str c).
  - destruct (table_get (lower ch) COINGECKO_PLATFORMS_BY_CHAIN) as [pf|]; [|exact I].
    destruct (pf =? ""); [exact I|]. apply of_answer_raises.
  - destruct (table_get (upper (or_empty a)) SYMBOL_TO_COINGECKO_ID); exact I.
Qed.

Lemma bind_raises A B (m : T datetime A) (f : A -> T datetime B) :
  raises_only_CoinGeckoError m ->
  (forall a, raises_only_CoinGeckoError (f a)) ->
  raises_only_CoinGeckoError (bind m f).
Proof.
  unfold raises_only_CoinGeckoError, bind.
  destruct m as [[e|a] tr]; simpl; intros Hm Hf; [assumption|].
  specialize (Hf a). destruct (f a) as [r tr']; simpl in *. assumption.
Qed.

Lemma dict_add_keys k0 a g k :
  In k (map fst (dict_add k0 a g)) <-> k = k0 \/ In k (map fst g).
Proof.
  induction g as [|[k1 v] g IH]; simpl.
  - intuition congruence.
  - destruct (key_eqb k1 k0) eqn:E; simpl.
    + apply key_eqb_eq in E; subst. intuition congruence.
    + rewrite IH. intuition.
Qed.

Lemma dict_get_set k0 ch c k :
  dict_get k (dict_set k0 ch c) = if key_eqb k0 k then Some ch else dict_get k c.
Proof.
  induction c as [|[k1 v] c IH]; simpl.
  - reflexivity.
  - destruct (key_eqb k1 k0) eqn:E; simpl.
    + apply key_eqb_eq in E; subst k1.
      destruct (key_eqb k0 k); reflexivity.
    + destruct (key_eqb k1 k) eqn:E1.
      * apply key_eqb_eq in E1; subst k1. rewrite key_eqb_neq in E.
        destruct (key_eqb k0 k) eqn:E2; [|reflexivity].
        apply key_eqb_eq in E2. congruence.
      * apply IH.
Qed.

Lemma aggregate_step_cover acc row :
  chains_cover acc -> chains_cover (aggregate_step acc row).
Proof.
  unfold chains_cover, aggregate_step. intros H k.
  destruct (r_value row) as [v|]; [|apply H].
  destruct (Decimal_leb (Decimal_of_float v) Decimal_zero); [apply H|].
  simpl. rewrite dict_add_keys, dict_get_set.
  intros [->|Hin].
  - rewrite key_eqb_refl. discriminate.
  - destruct (key_eqb (row_key row) k); [discriminate|apply H; assumption].
Qed.

Lemma aggregate_cover outgoing : chains_cover (aggregate outgoing).
Proof.
  unfold aggregate.
  assert (G : forall l acc, chains_cover acc -> chains_cover (fold_left aggregate_step l acc)).
  { induction l as [|r l IH]; intros acc Hacc; simpl; [assumption|].
    apply IH. apply aggregate_step_cover; assumption. }
  apply G. intros k [].
Qed.

Lemma price_component_raises (self : SwapAnalyzer datetime) c ts k a :
  dict_get k c <> None ->
  raises_only_CoinGeckoError (price_component self c ts (k, a)).
Proof.
  intros Hk. unfold price_component.
  destruct (dict_get k c) as [ch|]; [|congruence].
  apply bind_raises; [exact I|]. intros ch'.
  apply bind_raises; [apply resolve_coin_id_raises|]. intros coin.
  apply bind_raises; [apply of_answer_raises|]. intros p. exact I.
Qed.

Lemma price_components_raises (self : SwapAnalyzer datetime) c ts items :
  (forall k, In k (map fst items) -> dict_get k c <> None) ->
  forall comps, raises_only_CoinGeckoError (price_components self c ts items comps).
Proof.
  induction items as [|[k a] items IH]; intros Hc comps; cbn [price_components].
  - exact I.
  - apply bind_raises.
    + apply price_component_raises. apply Hc. left; reflexivity.
    + intros comp. apply IH. intros k' Hk'. apply Hc. right; assumption.
Qed.

Lemma build_spent_components_raises (self : SwapAnalyzer datetime) outgoing ts :
  raises_only_CoinGeckoError (_build_spent_components self outgoing ts).
Proof.
  unfold _build_spent_components.
  pose proof (aggregate_cover outgoing) as H.
  destruct (aggregate outgoing) as [g c].
  apply price_components_raises. exact H.
Qed.

Lemma try_except_returns A (m : T datetime A) (h : string -> T datetime A) :
  raises_only_CoinGeckoError m ->
  (forall msg, exists a tr, h msg = (inr a, tr)) ->
  exists a tr, try_except_CoinGeckoError m h = (inr a, tr).
Proof.
  unfold raises_only_CoinGeckoError, try_except_CoinGeckoError.
  destruct m as [[e|a] tr]; simpl; intros Hm Hh.
  - destruct e; try contradiction.
    destruct (Hh msg) as [a [tr' ->]]. eauto.
  - eauto.
Qed.

Lemma group_valuation_returns (self : SwapAnalyzer datetime) now h rows outgoing :
  exists v tr, group_valuation fromisoformat self now h rows outgoing = (inr v, tr).
Proof.
  unfold group_valuation.
  destruct (try_except_returns _
              (_build_spent_components self outgoing (reference_time fromisoformat rows now))
              (fun exc => bind (print ("[swap-analysis] " ++ h ++ " skipped: " ++ exc))
                               (fun _ => ret [])))
    as [comps [tr1 E1]].
  { apply build_spent_components_raises. }
  { intros msg. simpl. eauto. }
  rewrite E1. unfold bind at 1.
  destruct (negb (is_nil comps)).
  - destruct (try_except_returns _
                (bind (call_get_price_at_timestamp (cg_client self) "bitcoin"
                         (reference_time fromisoformat rows now))
                      (fun p => ret (Some (Decimal_of_float p))))
                (fun exc => bind (print ("[swap-analysis] " ++ h ++
                                         " BTC price lookup failed: " ++ exc))
                                 (fun _ => ret None)))
      as [price [tr2 E2]].
    { apply bind_raises; [apply of_answer_raises|intros; exact I]. }
    { intros msg. simpl. eauto. }
    rewrite E2. simpl. eauto.
  - simpl. eauto.
Qed.

(** ** One pass of the loop body, and the loop *)

Lemma analyze_group_rows (self : SwapAnalyzer datetime) utcnow cur conn tot n g :
  exists tot' n',
    analyze_group fromisoformat self utcnow cur (conn, tot, n) g =
    (inr (map (row_after_group fromisoformat self utcnow cur g) conn, tot', n'),
     group_trace fromisoformat self utcnow g).
Proof.
  destruct g as [h rows]. unfold analyze_group, row_after_group, group_trace.
  destruct (is_nil (filter (_is_outgoing self) rows) ||
            is_nil (filter (_is_incoming self) rows)).
  - exists tot, n. rewrite map_id. reflexivity.
  - unfold valuation_of.
    destruct (group_valuation_returns self (utcnow h) h rows (filter (_is_outgoing self) rows))
      as [[[[sc usd] price] amt] [tr E]].
    rewrite E. simpl.
    rewrite enrich_incoming_rows, mark_outgoing_rows, map_map.
    do 2 eexists. rewrite app_nil_r. f_equal. f_equal. f_equal. f_equal.
    apply map_ext. intros t.
    destruct (has_id (id t) (filter (_is_outgoing self) rows)); reflexivity.
Qed.

Lemma analyze_loop_rows (self : SwapAnalyzer datetime) utcnow cur groups :
  forall conn tot n,
  exists tot' n',
    analyze_loop fromisoformat self utcnow cur groups (conn, tot, n) =
    (inr (fold_left (fun c g => map (row_after_group fromisoformat self utcnow cur g) c)
                    groups conn, tot', n'),
     flat_map (group_trace fromisoformat self utcnow) groups).
Proof.
  induction groups as [|g groups IH]; intros conn tot n;
    cbn [analyze_loop fold_left flat_map].
  - do 2 eexists. reflexivity.
  - destruct (analyze_group_rows self utcnow cur conn tot n g) as [tot1 [n1 E1]].
    rewrite E1. cbn [bind].
    destruct (IH (map (row_after_group fromisoformat self utcnow cur g) conn) tot1 n1)
      as [tot2 [n2 E2]].
    rewrite E2. do 2 eexists. reflexivity.
Qed.

(** ** Each stored row is touched by the pass over its own group only *)

Lemma select_row_after_group (self : SwapAnalyzer datetime) utcnow cur g t :
  select_row (row_after_group fromisoformat self utcnow cur g t) = select_row t.
Proof.
  destruct g as [h rows]. unfold row_after_group.
  destruct (is_nil _ || is_nil _); [reflexivity|].
  destruct (valuation_of fromisoformat self (utcnow h) h rows _) as [[[sc usd] price] amt].
  destruct (has_id (id t) (filter (_is_incoming self) rows));
    destruct (has_id (id t) (filter (_is_outgoing self) rows)); reflexivity.
Qed.

Lemma has_id_In rid rows :
  has_id rid rows = true <-> exists r, In r rows /\ r_id r = rid.
Proof.
  unfold has_id. rewrite existsb_exists. split; intros [r [H1 H2]]; exists r; split; auto.
  - apply Z.eqb_eq in H2. auto.
  - apply Z.eqb_eq. auto.
Qed.

Lemma group_get_absent h gs :
  ~ In h (map fst gs) -> group_get h gs = None.
Proof.
  induction gs as [|[k rows] gs IH]; simpl; intros H; [reflexivity|].
  destruct (k =? h) eqn:E.
  - apply String.eqb_eq in E. exfalso; apply H; left; assumption.
  - apply IH. intros Hin; apply H; right; assumption.
Qed.

Lemma fold_own_group (P : Transaction -> Prop)
      (R : string * list Row -> Transaction -> Transaction) (h : string) :
  (forall g t, P t -> P (R g t)) ->
  forall gs,
    NoDup (map fst gs) ->
    (forall g, In g gs -> fst g <> h -> forall t, P t -> R g t = t) ->
    forall t, P t ->
      fold_left (fun t g => R g t) gs t =
      match group_get h gs with
      | Some rows => R (h, rows) t
      | None => t
      end.
Proof.
  intros HP gs. induction gs as [|[k rows] gs IH]; intros Hnd Hframe t Ht; simpl.
  - reflexivity.
  - inversion Hnd as [|? ? Hnotin Hnd']; subst.
    assert (Htail : forall g, In g gs -> fst g <> h -> forall t, P t -> R g t = t).
    { intros g Hg. apply Hframe. right; assumption. }
    destruct (k =? h) eqn:E.
    + apply String.eqb_eq in E; subst k.
      rewrite (IH Hnd' Htail) by (apply HP; assumption).
      rewrite (group_get_absent h gs Hnotin). reflexivity.
    + rewrite (Hframe (k, rows)); [|left; reflexivity| |assumption].
      * apply IH; assumption.
      * simpl. intros ->. rewrite String.eqb_refl in E. discriminate.
Qed.

Lemma foreign_group_frame (self : SwapAnalyzer datetime) utcnow cur conn g t t' :
  NoDup (map id conn) ->
  In g (_group_transactions conn) ->
  In t conn ->
  fst g <> tx_hash t ->
  select_row t' = select_row t ->
  row_after_group fromisoformat self utcnow cur g t' = t'.
Proof.
  intros Hnd Hg Ht Hne Hsel. destruct g as [k rows]. simpl in Hne.
  assert (Hid : id t' = id t).
  { change (r_id (select_row t') = r_id (select_row t)). rewrite Hsel; reflexivity. }
  assert (Hno : forall f, has_id (id t') (filter f rows) = false).
  { intros f. destruct (has_id (id t') (filter f rows)) eqn:E; [|reflexivity].
    exfalso. apply has_id_In in E. destruct E as [r [Hr Hrid]].
    apply filter_In in Hr. destruct Hr as [Hr _].
    destruct (group_transactions_members conn _ _ _ Hg Hr) as [Hk [t0 [Ht0 Hs0]]].
    assert (t0 = t).
    { apply (NoDup_map_In_inj id conn Hnd); auto.
      rewrite <- Hid, <- Hrid, <- Hs0. reflexivity. }
    subst t0. apply Hne. rewrite <- Hk, <- Hs0. reflexivity. }
  unfold row_after_group.
  destruct (is_nil _ || is_nil _); [reflexivity|].
  destruct (valuation_of fromisoformat self (utcnow k) k rows _) as [[[sc usd] price] amt].
  rewrite !Hno. reflexivity.
Qed.

Lemma loop_rows_final (self : SwapAnalyzer datetime) utcnow cur conn :
  NoDup (map id conn) ->
  fold_left (fun c g => map (row_after_group fromisoformat self utcnow cur g) c)
            (_group_transactions conn) conn =
  map (final_row fromisoformat self utcnow cur conn) conn.
Proof.
  intros Hnd. rewrite fold_left_map_pointwise.
  apply map_ext_in. intros t Ht.
  rewrite (@fold_own_group (fun t' => select_row t' = select_row t)
             (row_after_group fromisoformat self utcnow cur) (tx_hash t)).
  - unfold final_row, group_rows.
    destruct (group_get (tx_hash t) (_group_transactions conn)); reflexivity.
  - intros g t' Ht'. rewrite select_row_after_group. assumption.
  - apply group_transactions_NoDup.
  - intros g Hg Hne t' Ht'. eapply foreign_group_frame; eassumption.
  - reflexivity.
Qed.

(** ** The three ways a run ends *)

Lemma analyze_empty (self : SwapAnalyzer datetime) utcnow :
  analyze fromisoformat self utcnow [] = (inr zero_summary, [], []).
Proof. reflexivity. Qed.

Lemma analyze_no_quote (self : SwapAnalyzer datetime) utcnow conn msg :
  conn <> [] ->
  get_current_price (cg_client self) "bitcoin" = inl msg ->
  analyze fromisoformat self utcnow conn =
  (inl (CoinGeckoError msg), conn, [CallCurrentPrice "bitcoin"]).
Proof.
  intros Hne Hq. unfold analyze.
  destruct (_group_transactions conn) eqn:E.
  - apply group_transactions_nil in E. contradiction.
  - cbn [is_nil]. unfold call_get_current_price. rewrite Hq. reflexivity.
Qed.

Lemma analyze_quote_loop (self : SwapAnalyzer datetime) utcnow conn p :
  conn <> [] ->
  get_current_price (cg_client self) "bitcoin" = inr p ->
  exists summary,
    analyze fromisoformat self utcnow conn =
    (inr summary,
     fold_left (fun c g => map (row_after_group fromisoformat self utcnow p g) c)
               (_group_transactions conn) conn,
     CallCurrentPrice "bitcoin" ::
     flat_map (group_trace fromisoformat self utcnow) (_group_transactions conn)).
Proof.
  intros Hne Hq. unfold analyze.
  destruct (_group_transactions conn) eqn:E.
  - apply group_transactions_nil in E. contradiction.
  - rewrite <- E. cbn [is_nil].
    assert (Hnil : is_nil (_group_transactions conn) = false) by (rewrite E; reflexivity).
    rewrite Hnil.
    unfold call_get_current_price. rewrite Hq. cbn [of_answer bind].
    destruct (analyze_loop_rows self utcnow (Decimal_of_float p) (_group_transactions conn)
                                conn Decimal_zero 0%Z) as [tot [n El]].
    rewrite El. cbn [bind ret].
    eexists. rewrite app_nil_r. reflexivity.
Qed.

Lemma analyze_quote (self : SwapAnalyzer datetime) utcnow conn p :
  NoDup (map id conn) ->
  conn <> [] ->
  get_current_price (cg_client self) "bitcoin" = inr p ->
  exists summary,
    analyze fromisoformat self utcnow conn =
    (inr summary, map (final_row fromisoformat self utcnow p conn) conn,
     CallCurrentPrice "bitcoin" ::
     flat_map (group_trace fromisoformat self utcnow) (_group_transactions conn)).
Proof.
  intros Hnd Hne Hq.
  destruct (analyze_quote_loop self utcnow conn p Hne Hq) as [s E].
  exists s. rewrite E, loop_rows_final by assumption. reflexivity.
Qed.

Lemma analyze_completes (self : SwapAnalyzer datetime) utcnow conn :
  NoDup (map id conn) ->
  completes (analyze fromisoformat self utcnow conn) = true ->
  exists cur,
    (conn = [] \/ get_current_price (cg_client self) "bitcoin" = inr cur) /\
    store_after (analyze fromisoformat self utcnow conn) =
    map (final_row fromisoformat self utcnow cur conn) conn.
Proof.
  intros Hnd Hc.
  destruct conn as [|t0 conn0] eqn:Econn.
  - exists Decimal_zero. split; [left; reflexivity|reflexivity].
  - rewrite <- Econn in *.
    assert (Hne : conn <> []) by (rewrite Econn; discriminate).
    destruct (get_current_price (cg_client self) "bitcoin") as [msg|p] eqn:Hq.
    + rewrite (analyze_no_quote self utcnow _ _ Hne Hq) in Hc. discriminate.
    + exists p. split; [right; reflexivity|].
      destruct (analyze_quote self utcnow _ _ Hnd Hne Hq) as [s ->]. reflexivity.
Qed.

Lemma analyze_aborts (self : SwapAnalyzer datetime) utcnow conn :
  completes (analyze fromisoformat self utcnow conn) = false ->
  store_after (analyze fromisoformat self utcnow conn) = conn.
Proof.
  unfold analyze, completes, store_after.
  destruct (is_nil (_group_transactions conn)); [discriminate|].
  match goal with |- context [bind ?m ?f] => destruct (bind m f) as [[e|[s c]] tr] end;
    simpl; [reflexivity|discriminate].
Qed.

(** ** The partitions of a stored row's own group *)

Lemma own_group_has_id (f : Row -> bool) conn t :
  NoDup (map id conn) -> In t conn ->
  has_id (id t) (filter f (group_rows conn (tx_hash t))) = f (select_row t).
Proof.
  intros Hnd Ht. rewrite group_rows_eq.
  destruct (f (select_row t)) eqn:Ef.
  - apply has_id_In. exists (select_row t). split; [|reflexivity].
    apply filter_In. split; [|assumption].
    apply filter_In. split.
    + apply fetchall_In. apply in_map; assumption.
    + simpl. apply String.eqb_refl.
  - destruct (has_id _ _) eqn:E; [|reflexivity]. exfalso.
    apply has_id_In in E. destruct E as [r [Hr Hrid]].
    apply filter_In in Hr. destruct Hr as [Hr Hfr].
    apply filter_In in Hr. destruct Hr as [Hr _].
    apply fetchall_In in Hr. apply in_map_iff in Hr. destruct Hr as [t0 [Hs0 Ht0]].
    assert (t0 = t).
    { apply (NoDup_map_In_inj id conn Hnd); auto. rewrite <- Hrid, <- Hs0. reflexivity. }
    subst. congruence.
Qed.

Lemma is_swap_group_test (self : SwapAnalyzer datetime) conn h :
  is_nil (filter (_is_outgoing self) (group_rows conn h)) ||
  is_nil (filter (_is_incoming self) (group_rows conn h)) =
  negb (is_swap_group self conn h).
Proof.
  unfold is_swap_group, outgoing_of, incoming_of.
  rewrite negb_andb, !negb_involutive. reflexivity.
Qed.

Lemma is_swap_group_true (self : SwapAnalyzer datetime) conn h :
  is_swap_group self conn h = true <->
  outgoing_of self conn h <> [] /\ incoming_of self conn h <> [].
Proof.
  unfold is_swap_group.
  rewrite andb_true_iff, !negb_true_iff, !is_nil_false. reflexivity.
Qed.

Lemma is_swap_group_false (self : SwapAnalyzer datetime) conn h :
  is_swap_group self conn h = false <->
  outgoing_of self conn h = [] \/ incoming_of self conn h = [].
Proof.
  unfold is_swap_group.
  rewrite andb_false_iff, !negb_false_iff, !is_nil_true. reflexivity.
Qed.

Lemma final_row_skipped (self : SwapAnalyzer datetime) utcnow cur conn t :
  is_swap_group self conn (tx_hash t) = false ->
  final_row fromisoformat self utcnow cur conn t = t.
Proof.
  intros H. unfold final_row, row_after_group.
  rewrite is_swap_group_test, H. reflexivity.
Qed.

Lemma final_row_swap (self : SwapAnalyzer datetime) utcnow cur conn t :
  NoDup (map id conn) -> In t conn ->
  is_swap_group self conn (tx_hash t) = true ->
  final_row fromisoformat self utcnow cur conn t =
  let '(sc, usd, price, amt) :=
    valuation_of fromisoformat self (utcnow (tx_hash t)) (tx_hash t)
                 (group_rows conn (tx_hash t))
                 (outgoing_of self conn (tx_hash t)) in
  let t1 := if _is_outgoing self (select_row t) then set_is_swap t else t in
  if _is_incoming self (select_row t)
  then set_enrichment (enrichment_params sc usd price amt cur) t1
  else t1.
Proof.
  intros Hnd Ht H. unfold final_row, row_after_group.
  rewrite is_swap_group_test, H. cbn [negb].
  rewrite !own_group_has_id by assumption. reflexivity.
Qed.

Lemma select_row_final (self : SwapAnalyzer datetime) utcnow cur conn t :
  select_row (final_row fromisoformat self utcnow cur conn t) = select_row t.
Proof. apply select_row_after_group. Qed.

Lemma tx_hash_final (self : SwapAnalyzer datetime) utcnow cur conn t :
  tx_hash (final_row fromisoformat self utcnow cur conn t) = tx_hash t.
Proof.
  change (r_tx_hash (select_row (final_row fromisoformat self utcnow cur conn t)) =
          r_tx_hash (select_row t)).
  rewrite select_row_final. reflexivity.
Qed.

(** Every row of the store a completed run leaves is the [final_row] of a
    row of the store it started from. *)
Lemma completed_run_rows (self : SwapAnalyzer datetime) utcnow conn t' :
  NoDup (map id conn) ->
  completes (analyze fromisoformat self utcnow conn) = true ->
  In t' (store_after (analyze fromisoformat self utcnow conn)) ->
  exists cur t,
    get_current_price (cg_client self) "bitcoin" = inr cur /\
    In t conn /\ t' = final_row fromisoformat self utcnow cur conn t.
Proof.
  intros Hnd Hc Hin.
  destruct (analyze_completes self utcnow conn Hnd Hc) as [cur [Hcur Hstore]].
  rewrite Hstore in Hin. apply in_map_iff in Hin. destruct Hin as [t [Ht Hint]].
  destruct Hcur as [->|Hcur]; [contradiction|].
  exists cur, t. auto.
Qed.

(** ** Detection *)

Lemma partition_leg_outcome
      (self : SwapAnalyzer datetime) utcnow conn h t' :
  NoDup (map id conn) ->
  completes (analyze fromisoformat self utcnow conn) = true ->
  outgoing_of self conn h <> [] ->
  incoming_of self conn h <> [] ->
  In t' (store_after (analyze fromisoformat self utcnow conn)) ->
  tx_hash t' = h ->
  (_is_outgoing self (select_row t') = true \/
   _is_incoming self (select_row t') = true -> is_swap t' = 1%Z) /\
  (_is_outgoing self (select_row t') = false ->
   _is_incoming self (select_row t') = false -> In t' conn).
Proof.
  intros Hnd Hc Hout Hinc Hin Hh.
  assert (Hg : is_swap_group self conn h = true)
    by (apply is_swap_group_true; split; assumption).
  destruct (completed_run_rows self utcnow conn t' Hnd Hc Hin) as [cur [t [_ [Ht ->]]]].
  rewrite tx_hash_final in Hh. subst h.
  rewrite select_row_final.
  rewrite (final_row_swap self utcnow cur conn t Hnd Ht Hg).
  destruct (valuation_of _ _ _ _ _ _) as [[[sc usd] price] amt].
  destruct (_is_outgoing self (select_row t)), (_is_incoming self (select_row t));
    split; try (intros [H|H]; try discriminate; reflexivity);
    try (intros; discriminate).
  intros _ _. assumption.
Qed.

(** C1, as amended: in a group whose outgoing and incoming partitions are
    both non-empty, after a completed run every leg that belongs to one of
    the two partitions has [is_swap = 1]; a leg of the group that is in
    neither partition is stored exactly as it was before the run. *)
Theorem swap_group_partition_legs_marked
        (self : SwapAnalyzer datetime) utcnow conn h t' :
  NoDup (map id conn) ->
  completes (analyze fromisoformat self utcnow conn) = true ->
  outgoing_of self conn h <> [] ->
  incoming_of self conn h <> [] ->
  In t' (store_after (analyze fromisoformat self utcnow conn)) ->
  tx_hash t' = h ->
  (_is_outgoing self (select_row t') = true \/
   _is_incoming self (select_row t') = true -> is_swap t' = 1%Z) /\
  (_is_outgoing self (select_row t') = false ->
   _is_incoming self (select_row t') = false -> In t' conn).
Proof. exact (partition_leg_outcome self utcnow conn h t'). Qed.

(** C3: a group whose outgoing or incoming partition is empty is left
    alone: whatever the run does, each of its rows is stored afterwards,
    at the same position, with every column unchanged. *)
Theorem non_swap_group_rows_unchanged
        (self : SwapAnalyzer datetime) utcnow conn i t :
  NoDup (map id conn) ->
  nth_error conn i = Some t ->
  outgoing_of self conn (tx_hash t) = [] \/ incoming_of self conn (tx_hash t) = [] ->
  nth_error (store_after (analyze fromisoformat self utcnow conn)) i = Some t.
Proof.
  intros Hnd Hi Hempty.
  assert (Hg : is_swap_group self conn (tx_hash t) = false)
    by (apply is_swap_group_false; assumption).
  destruct (completes (analyze fromisoformat self utcnow conn)) eqn:Hc.
  - destruct (analyze_completes self utcnow conn Hnd Hc) as [cur [_ ->]].
    rewrite nth_error_map, Hi. cbn [option_map].
    rewrite final_row_skipped by assumption. reflexivity.
  - rewrite analyze_aborts by assumption. assumption.
Qed.

(** ** Valuation of one group *)

Lemma valuation_abandoned (self : SwapAnalyzer datetime) now h rows outgoing e :
  fst (_build_spent_components self outgoing (reference_time fromisoformat rows now)) = inl e ->
  valuation_of fromisoformat self now h rows outgoing = ([], None, None, None).
Proof.
  intros H. unfold valuation_of, group_valuation.
  pose proof (build_spent_components_raises self outgoing
                (reference_time fromisoformat rows now)) as Hr.
  unfold raises_only_CoinGeckoError in Hr.
  destruct (_build_spent_components self outgoing (reference_time fromisoformat rows now))
    as [[e'|comps] tr]; simpl in H; [|discriminate].
  simpl in Hr. destruct e'; try contradiction. reflexivity.
Qed.

Lemma valuation_built (self : SwapAnalyzer datetime) now h rows outgoing comps :
  fst (_build_spent_components self outgoing (reference_time fromisoformat rows now)) = inr comps ->
  valuation_of fromisoformat self now h rows outgoing =
  match comps with
  | [] => ([], None, None, None)
  | _ =>
      let usd := sum_usd_value comps in
      let price :=
        match get_price_at_timestamp (cg_client self) "bitcoin"
                                     (reference_time fromisoformat rows now) with
        | inr p => Some (Decimal_of_float p)
        | inl _ => None
        end in
      (comps, Some usd, price,
       match price with
       | Some p => if truthy_dec (Some p) && Decimal_ltb Decimal_zero p
                   then Some (Qcdiv usd p) else None
       | None => None
       end)
  end.
Proof.
  intros H. unfold valuation_of, group_valuation.
  destruct (_build_spent_components self outgoing (reference_time fromisoformat rows now))
    as [[e'|comps'] tr]; simpl in H; [discriminate|].
  injection H as ->.
  cbn [try_except_CoinGeckoError bind].
  destruct comps as [|c comps]; [reflexivity|].
  cbn [is_nil negb]. unfold call_get_price_at_timestamp.
  destruct (get_price_at_timestamp (cg_client self) "bitcoin"
                                   (reference_time fromisoformat rows now)) as [msg|p];
    reflexivity.
Qed.

Lemma Decimal_ltb_lt (a b : Decimal) : Decimal_ltb a b = true <-> (a < b)%Qc.
Proof.
  unfold Decimal_ltb. rewrite negb_true_iff. split.
  - intros H. apply Qnot_le_lt. intros Hle.
    apply Qle_bool_iff in Hle. congruence.
  - intros H. destruct (Qle_bool b a) eqn:E; [|reflexivity].
    apply Qle_bool_iff in E. exfalso. apply (Qlt_not_le _ _ H E).
Qed.

Lemma truthy_dec_nonzero (p : Decimal) : truthy_dec (Some p) = true <-> p <> Decimal_zero.
Proof.
  unfold truthy_dec, Qc_eq_bool.
  destruct (Qc_eq_dec p Decimal_zero); simpl; split; congruence.
Qed.

Lemma positive_price_test (p : Decimal) :
  truthy_dec (Some p) && Decimal_ltb Decimal_zero p = true <-> (0 < p)%Qc.
Proof.
  rewrite andb_true_iff, truthy_dec_nonzero, Decimal_ltb_lt. split.
  - intros [_ H]; exact H.
  - intros H. split; [|exact H].
    intros ->. apply (Qclt_not_eq _ _ H). reflexivity.
Qed.

(** The incoming legs of a qualifying group after a completed run. *)
Lemma incoming_leg_enrichment (self : SwapAnalyzer datetime) utcnow conn h t' :
  NoDup (map id conn) ->
  completes (analyze fromisoformat self utcnow conn) = true ->
  outgoing_of self conn h <> [] ->
  incoming_of self conn h <> [] ->
  In t' (store_after (analyze fromisoformat self utcnow conn)) ->
  tx_hash t' = h ->
  _is_incoming self (select_row t') = true ->
  exists cur,
    get_current_price (cg_client self) "bitcoin" = inr cur /\
    is_swap t' = 1%Z /\
    enrichment_of t' =
    let '(sc, usd, price, amt) :=
      valuation_of fromisoformat self (utcnow h) h (group_rows conn h)
                   (outgoing_of self conn h) in
    enrichment_params sc usd price amt (Decimal_of_float cur).
Proof.
  intros Hnd Hc Hout Hinc Hin Hh Hi.
  assert (Hg : is_swap_group self conn h = true)
    by (apply is_swap_group_true; split; assumption).
  destruct (completed_run_rows self utcnow conn t' Hnd Hc Hin) as [cur [t [Hcur [Ht ->]]]].
  rewrite tx_hash_final in Hh. subst h.
  rewrite select_row_final in Hi.
  exists cur. split; [assumption|].
  rewrite (final_row_swap self utcnow cur conn t Hnd Ht Hg).
  destruct (valuation_of _ _ _ _ _ _) as [[[sc usd] price] amt].
  rewrite Hi. cbv zeta. rewrite enrichment_of_set. split; reflexivity.
Qed.

(** ** What the two loops of [_build_spent_components] compute *)

Ltac qc_ring := unfold Decimal_zero; ring.

Lemma dict_add_total k a g :
  dict_total (dict_add k a g) = Qcplus (dict_total g) a.
Proof.
  induction g as [|[k1 v] g IH]; simpl.
  - qc_ring.
  - destruct (key_eqb k1 k); simpl.
    + qc_ring.
    + rewrite IH. qc_ring.
Qed.

Lemma aggregate_step_total acc row :
  dict_total (fst (aggregate_step acc row)) =
  Qcplus (dict_total (fst acc)) (amount_of row).
Proof.
  unfold aggregate_step, amount_of.
  destruct (r_value row) as [v|].
  - destruct (Decimal_leb (Decimal_of_float v) Decimal_zero); simpl.
    + qc_ring.
    + apply dict_add_total.
  - qc_ring.
Qed.

Lemma aggregate_fold_total l : forall acc,
  dict_total (fst (fold_left aggregate_step l acc)) =
  Qcplus (dict_total (fst acc)) (sum_amounts l).
Proof.
  induction l as [|r l IH]; intros acc; simpl.
  - qc_ring.
  - rewrite IH, aggregate_step_total. qc_ring.
Qed.

Lemma aggregate_total outgoing :
  dict_total (fst (aggregate outgoing)) = sum_amounts outgoing.
Proof.
  unfold aggregate. rewrite aggregate_fold_total. simpl.
  qc_ring.
Qed.

Lemma aggregate_step_keys acc row k :
  In k (map fst (fst (aggregate_step acc row))) <->
  In k (map fst (fst acc)) \/ (counted row = true /\ k = row_key row).
Proof.
  unfold aggregate_step, counted.
  destruct (r_value row) as [v|].
  - destruct (Decimal_leb (Decimal_of_float v) Decimal_zero); simpl.
    + intuition discriminate.
    + rewrite dict_add_keys. intuition.
  - intuition discriminate.
Qed.

Lemma aggregate_fold_keys l : forall acc k,
  In k (map fst (fst (fold_left aggregate_step l acc))) <->
  In k (map fst (fst acc)) \/ exists r, In r l /\ counted r = true /\ row_key r = k.
Proof.
  induction l as [|r l IH]; intros acc k; simpl.
  - split; [auto|]. intros [H|[r [[] _]]]; assumption.
  - rewrite IH, aggregate_step_keys. split.
    + intros [[H|[H1 H2]]|[r' [H1 H2]]].
      * left; assumption.
      * right. exists r. auto.
      * right. exists r'. tauto.
    + intros [H|[r' [[<-|H1] [H2 H3]]]].
      * left; left; assumption.
      * left; right. auto.
      * right. exists r'. auto.
Qed.

Lemma aggregate_keys outgoing k :
  In k (map fst (fst (aggregate outgoing))) <->
  exists r, In r outgoing /\ counted r = true /\ row_key r = k.
Proof.
  unfold aggregate. rewrite aggregate_fold_keys. simpl. tauto.
Qed.

Lemma fst_bind A B (m : T datetime A) (f : A -> T datetime B) :
  fst (bind m f) = match fst m with inl e => inl e | inr a => fst (f a) end.
Proof.
  unfold bind. destruct m as [[e|a] tr]; simpl; [reflexivity|].
  destruct (f a); reflexivity.
Qed.

Lemma price_component_shape (self : SwapAnalyzer datetime) c ts k a comp :
  fst (price_component self c ts (k, a)) = inr comp ->
  sc_amount comp = a /\ sc_asset comp = or_empty (fst k).
Proof.
  unfold price_component. rewrite fst_bind.
  destruct (dict_get k c) as [ch|]; [|discriminate].
  cbn [ret fst]. rewrite fst_bind.
  destruct (fst (_resolve_coin_id self ch (fst k) (snd k))) as [e|coin]; [discriminate|].
  rewrite fst_bind.
  destruct (fst (call_get_price_at_timestamp (cg_client self) coin ts)) as [e|p];
    [discriminate|].
  cbn [ret fst]. intros H. injection H as <-. split; reflexivity.
Qed.

Lemma price_components_shape (self : SwapAnalyzer datetime) c ts items :
  forall comps0 comps,
    fst (price_components self c ts items comps0) = inr comps ->
    exists comps1,
      comps = comps0 ++ comps1 /\
      map sc_amount comps1 = map snd items /\
      map sc_asset comps1 = map (fun kv => or_empty (fst (fst kv))) items.
Proof.
  induction items as [|[k a] items IH]; intros comps0 comps H.
  - simpl in H. injection H as <-. exists []. rewrite app_nil_r. auto.
  - cbn [price_components] in H. rewrite fst_bind in H.
    destruct (fst (price_component self c ts (k, a))) as [e|comp] eqn:Ec; [discriminate|].
    destruct (price_component_shape self c ts k a comp Ec) as [Ha Hs].
    destruct (IH _ _ H) as [comps1 [H1 [H2 H3]]].
    exists (comp :: comps1).
    rewrite H1, <- app_assoc. simpl. rewrite H2, H3, Ha, Hs. auto.
Qed.

Lemma build_spent_components_shape (self : SwapAnalyzer datetime) outgoing ts comps :
  fst (_build_spent_components self outgoing ts) = inr comps ->
  map sc_amount comps = map snd (fst (aggregate outgoing)) /\
  map sc_asset comps = map (fun kv => or_empty (fst (fst kv))) (fst (aggregate outgoing)).
Proof.
  unfold _build_spent_components.
  destruct (aggregate outgoing) as [g c]. intros H.
  destruct (price_components_shape self c ts g [] _ H) as [comps1 [H1 H2]].
  simpl in H1. subst comps1. exact H2.
Qed.

(** A single component carries the whole counted spend of the group. *)
Lemma single_component_amount (self : SwapAnalyzer datetime) outgoing ts c :
  fst (_build_spent_components self outgoing ts) = inr [c] ->
  sc_amount c = sum_amounts outgoing /\
  forall r, In r outgoing -> counted r = true -> sc_asset c = or_empty (r_asset r).
Proof.
  intros H. destruct (build_spent_components_shape self outgoing ts _ H) as [H1 H2].
  pose proof (aggregate_total outgoing) as Ht.
  pose proof (aggregate_keys outgoing) as Hk.
  destruct (fst (aggregate outgoing)) as [|[k a] [|kv g]]; simpl in H1, H2; try discriminate.
  injection H1 as H1. injection H2 as H2. split.
  - rewrite H1, <- Ht. simpl. qc_ring.
  - intros r Hr Hc. rewrite H2.
    assert (Hin : In (row_key r) (map fst [(k, a)])).
    { apply Hk. exists r. auto. }
    simpl in Hin. destruct Hin as [Hk'|[]]. subst k. reflexivity.
Qed.

(** ** Valuation written to the incoming legs *)

(** C6: in a qualifying group whose spent components were built, after a
    completed run every incoming leg records, when there is exactly one
    component, that component's asset symbol and its amount, which is the
    sum of the counted (non-null, positive) values of the group's outgoing
    legs; when there are several components it records the asset "MULTI"
    and no amount. *)
Theorem spent_asset_and_amount_recorded
        (self : SwapAnalyzer datetime) utcnow conn h t' comps :
  NoDup (map id conn) ->
  completes (analyze fromisoformat self utcnow conn) = true ->
  outgoing_of self conn h <> [] ->
  incoming_of self conn h <> [] ->
  fst (spent_components_of fromisoformat self utcnow conn h) = inr comps ->
  comps <> [] ->
  In t' (store_after (analyze fromisoformat self utcnow conn)) ->
  tx_hash t' = h ->
  _is_incoming self (select_row t') = true ->
  match comps with
  | [c] =>
      swap_spent_asset t' = Some (sc_asset c) /\
      swap_spent_amount t' = Some (sc_amount c) /\
      sc_amount c = sum_amounts (outgoing_of self conn h) /\
      (forall r, In r (outgoing_of self conn h) -> counted r = true ->
                 sc_asset c = or_empty (r_asset r))
  | _ =>
      swap_spent_asset t' = Some "MULTI" /\ swap_spent_amount t' = None
  end.
Proof.
  intros Hnd Hc Hout Hinc Hb Hne Hin Hh Hi.
  destruct (incoming_leg_enrichment self utcnow conn h t' Hnd Hc Hout Hinc Hin Hh Hi)
    as [cur [_ [_ He]]].
  unfold spent_components_of in Hb.
  rewrite (valuation_built self (utcnow h) h _ _ _ Hb) in He.
  destruct comps as [|c [|c2 comps]]; [congruence| |].
  - cbv zeta in He.
    destruct (single_component_amount self _ _ _ Hb) as [Ha Hs].
    assert (E1 : p_spent_asset (enrichment_of t') = Some (sc_asset c))
      by (rewrite He; reflexivity).
    assert (E2 : p_spent_amount (enrichment_of t') = Some (sc_amount c))
      by (rewrite He; reflexivity).
    simpl in E1, E2. auto.
  - cbv zeta in He.
    assert (E1 : p_spent_asset (enrichment_of t') = Some "MULTI")
      by (rewrite He; reflexivity).
    assert (E2 : p_spent_amount (enrichment_of t') = None)
      by (rewrite He; reflexivity).
    simpl in E1, E2. auto.
Qed.


(** ** Isolation of a failed valuation *)

Lemma NoDup_ids_filter (f : Transaction -> bool) conn :
  NoDup (map id conn) -> NoDup (map id (filter f conn)).
Proof.
  induction conn as [|t conn IH]; simpl; intros H; [constructor|].
  inversion H as [|? ? Hnotin Hnd]; subst.
  destruct (f t); simpl; [|apply IH; assumption].
  constructor; [|apply IH; assumption].
  intros Hin. apply Hnotin. apply in_map_iff in Hin. destruct Hin as [t0 [E Ht0]].
  apply filter_In in Ht0. rewrite <- E. apply in_map. apply Ht0.
Qed.

Lemma without_hash_final (self : SwapAnalyzer datetime) utcnow cur conn h l :
  without_hash h (map (final_row fromisoformat self utcnow cur conn) l) =
  map (final_row fromisoformat self utcnow cur (without_hash h conn)) (without_hash h l).
Proof.
  induction l as [|t l IH]; simpl; [reflexivity|].
  rewrite tx_hash_final.
  destruct (tx_hash t =? h) eqn:E; simpl; [exact IH|].
  rewrite IH. f_equal.
  unfold final_row. rewrite group_rows_without_hash; [reflexivity|].
  apply String.eqb_neq; assumption.
Qed.

(** A completed run treats the rows of the other groups as a run over the
    store without group [h] treats them. *)
Lemma run_without_hash (self : SwapAnalyzer datetime) utcnow conn h :
  NoDup (map id conn) ->
  completes (analyze fromisoformat self utcnow conn) = true ->
  completes (analyze fromisoformat self utcnow (without_hash h conn)) = true /\
  without_hash h (store_after (analyze fromisoformat self utcnow conn)) =
  store_after (analyze fromisoformat self utcnow (without_hash h conn)).
Proof.
  intros Hnd Hc.
  destruct (analyze_completes self utcnow conn Hnd Hc) as [cur [Hcur ->]].
  rewrite without_hash_final.
  destruct (without_hash h conn) as [|t0 l0] eqn:Ew.
  - split; reflexivity.
  - rewrite <- Ew.
    assert (Hne : without_hash h conn <> []) by (rewrite Ew; discriminate).
    destruct Hcur as [->|Hcur]; [exfalso; apply Hne; reflexivity|].
    destruct (analyze_quote self utcnow (without_hash h conn) cur
                (NoDup_ids_filter _ conn Hnd) Hne Hcur) as [s ->].
    split; reflexivity.
Qed.


(** ** Running twice *)

Lemma fst_of_answer A (ev : Event datetime) (a : string + A) :
  fst (of_answer ev a) =
  match a with inl msg => inl (CoinGeckoError msg) | inr v => inr v end.
Proof. destruct a; reflexivity. Qed.

Lemma price_component_same_answers (self : SwapAnalyzer datetime) c ts1 ts2 item :
  same_answers (cg_client self) ts1 ts2 ->
  fst (price_component self c ts1 item) = fst (price_component self c ts2 item).
Proof.
  intros Hs. destruct item as [k a]. unfold price_component. rewrite !fst_bind.
  destruct (dict_get k c) as [ch|]; [|reflexivity].
  cbn [ret fst]. rewrite !fst_bind.
  destruct (fst (_resolve_coin_id self ch (fst k) (snd k))) as [e|coin]; [reflexivity|].
  rewrite !fst_bind. unfold call_get_price_at_timestamp.
  rewrite !fst_of_answer, (Hs coin). reflexivity.
Qed.

Lemma price_components_same_answers (self : SwapAnalyzer datetime) c ts1 ts2 items :
  same_answers (cg_client self) ts1 ts2 ->
  forall comps,
    fst (price_components self c ts1 items comps) =
    fst (price_components self c ts2 items comps).
Proof.
  intros Hs. induction items as [|item items IH]; intros comps; [reflexivity|].
  cbn [price_components]. rewrite !fst_bind.
  rewrite (price_component_same_answers self c ts1 ts2 item Hs).
  destruct (fst (price_component self c ts2 item)); [reflexivity|]. apply IH.
Qed.

Lemma build_same_answers (self : SwapAnalyzer datetime) outgoing ts1 ts2 :
  same_answers (cg_client self) ts1 ts2 ->
  fst (_build_spent_components self outgoing ts1) =
  fst (_build_spent_components self outgoing ts2).
Proof.
  intros Hs. unfold _build_spent_components.
  destruct (aggregate outgoing) as [g c].
  apply price_components_same_answers; assumption.
Qed.

Lemma valuation_same_answers (self : SwapAnalyzer datetime) now1 now2 h rows outgoing :
  (_tx_timestamp fromisoformat rows = None -> same_answers (cg_client self) now1 now2) ->
  valuation_of fromisoformat self now1 h rows outgoing =
  valuation_of fromisoformat self now2 h rows outgoing.
Proof.
  intros Hs.
  assert (Hts : same_answers (cg_client self)
                  (reference_time fromisoformat rows now1)
                  (reference_time fromisoformat rows now2)).
  { unfold reference_time.
    destruct (_tx_timestamp fromisoformat rows); [intros c; reflexivity|].
    apply Hs; reflexivity. }
  pose proof (build_same_answers self outgoing _ _ Hts) as Hb.
  destruct (fst (_build_spent_components self outgoing
                   (reference_time fromisoformat rows now2))) as [e|comps] eqn:E2.
  - rewrite (valuation_abandoned self now1 h rows outgoing e Hb).
    rewrite (valuation_abandoned self now2 h rows outgoing e E2). reflexivity.
  - rewrite (valuation_built self now1 h rows outgoing comps Hb).
    rewrite (valuation_built self now2 h rows outgoing comps E2).
    rewrite (Hts "bitcoin"). reflexivity.
Qed.

Lemma row_after_group_twice (self : SwapAnalyzer datetime) utcnow1 utcnow2 cur h rows t :
  (is_nil (filter (_is_outgoing self) rows) ||
   is_nil (filter (_is_incoming self) rows) = false ->
   valuation_of fromisoformat self (utcnow1 h) h rows (filter (_is_outgoing self) rows) =
   valuation_of fromisoformat self (utcnow2 h) h rows (filter (_is_outgoing self) rows)) ->
  row_after_group fromisoformat self utcnow2 cur (h, rows)
    (row_after_group fromisoformat self utcnow1 cur (h, rows) t) =
  row_after_group fromisoformat self utcnow1 cur (h, rows) t.
Proof.
  intros Hv. unfold row_after_group.
  destruct (is_nil _ || is_nil _); [reflexivity|].
  rewrite <- Hv by reflexivity.
  destruct (valuation_of fromisoformat self (utcnow1 h) h rows _)
    as [[[sc usd] price] amt].
  destruct (has_id (id t) (filter (_is_incoming self) rows)) eqn:Ei;
    destruct (has_id (id t) (filter (_is_outgoing self) rows)) eqn:Eo;
    cbn [id set_enrichment set_is_swap]; rewrite ?Ei, ?Eo; reflexivity.
Qed.

Lemma fetchall_final (self : SwapAnalyzer datetime) utcnow cur conn :
  fetchall (map (final_row fromisoformat self utcnow cur conn) conn) = fetchall conn.
Proof.
  unfold fetchall. rewrite map_map. f_equal.
  apply map_ext. intros t. apply select_row_final.
Qed.

Lemma ids_final (self : SwapAnalyzer datetime) utcnow cur conn :
  map id (map (final_row fromisoformat self utcnow cur conn) conn) = map id conn.
Proof.
  rewrite map_map. apply map_ext. intros t.
  change (r_id (select_row (final_row fromisoformat self utcnow cur conn t)) =
          r_id (select_row t)).
  rewrite select_row_final. reflexivity.
Qed.

Lemma completes_iff (self : SwapAnalyzer datetime) utcnow conn :
  completes (analyze fromisoformat self utcnow conn) = true <->
  conn = [] \/ exists p, get_current_price (cg_client self) "bitcoin" = inr p.
Proof.
  destruct conn as [|t0 l0] eqn:Ec.
  - split; [left; reflexivity|reflexivity].
  - rewrite <- Ec. assert (Hne : conn <> []) by (rewrite Ec; discriminate).
    destruct (get_current_price (cg_client self) "bitcoin") as [msg|p] eqn:Hq.
    + rewrite (analyze_no_quote self utcnow conn msg Hne Hq). split; [discriminate|].
      intros [H|[p H]]; [contradiction|discriminate].
    + split; [intros _; right; exists p; reflexivity|]. intros _.
      destruct (analyze_quote_loop self utcnow conn p Hne Hq) as [s ->]. reflexivity.
Qed.

(** C4: a second run over the store a first run left, with an oracle that
    answers as before (the same oracle; where a qualifying group has no
    parseable timestamp, the same historical prices at the two clock
    readings), ends as the first did and leaves every row, and so every
    enrichment column, exactly as the first run left it. *)
Theorem second_run_reproduces_enrichment
        (self : SwapAnalyzer datetime) utcnow1 utcnow2 conn :
  NoDup (map id conn) ->
  (forall h, is_swap_group self conn h = true ->
             _tx_timestamp fromisoformat (group_rows conn h) = None ->
             same_answers (cg_client self) (utcnow1 h) (utcnow2 h)) ->
  completes (analyze fromisoformat self utcnow2
               (store_after (analyze fromisoformat self utcnow1 conn))) =
  completes (analyze fromisoformat self utcnow1 conn) /\
  store_after (analyze fromisoformat self utcnow2
                 (store_after (analyze fromisoformat self utcnow1 conn))) =
  store_after (analyze fromisoformat self utcnow1 conn).
Proof.
  intros Hnd Hs.
  destruct (completes (analyze fromisoformat self utcnow1 conn)) eqn:Hc.
  - destruct conn as [|t0 l0] eqn:Ec; [split; reflexivity|]. rewrite <- Ec in *.
    assert (Hne : conn <> []) by (rewrite Ec; discriminate).
    apply completes_iff in Hc. destruct Hc as [Hnil|[cur Hcur]]; [contradiction|].
    destruct (analyze_quote self utcnow1 conn cur Hnd Hne Hcur) as [s1 ->].
    unfold store_after at 1 2 3. cbn [fst snd].
    set (conn1 := map (final_row fromisoformat self utcnow1 cur conn) conn).
    assert (Hnd1 : NoDup (map id conn1)) by (unfold conn1; rewrite ids_final; assumption).
    assert (Hne1 : conn1 <> []).
    { unfold conn1. rewrite Ec. discriminate. }
    destruct (analyze_quote self utcnow2 conn1 cur Hnd1 Hne1 Hcur) as [s2 ->].
    split; [reflexivity|].
    unfold store_after. cbn [fst snd]. unfold conn1 at 2 3. rewrite map_map.
    apply map_ext_in. intros t Ht.
    unfold final_row at 1. rewrite tx_hash_final.
    assert (Hrows : group_rows conn1 (tx_hash t) = group_rows conn (tx_hash t)).
    { rewrite !group_rows_eq. unfold conn1. rewrite fetchall_final. reflexivity. }
    rewrite Hrows. unfold final_row.
    apply row_after_group_twice. intros Hq.
    apply valuation_same_answers. intros Hts. apply (Hs (tx_hash t)); [|assumption].
    rewrite is_swap_group_test in Hq. apply negb_false_iff in Hq. assumption.
  - rewrite (analyze_aborts self utcnow1 conn Hc).
    assert (Hc2 : completes (analyze fromisoformat self utcnow2 conn) = false).
    { destruct (completes (analyze fromisoformat self utcnow2 conn)) eqn:E; [|reflexivity].
      apply completes_iff in E. apply (completes_iff self utcnow1) in E. congruence. }
    split; [assumption|]. apply analyze_aborts; assumption.
Qed.

(** ** How a run ends *)

Lemma group_get_In h gs rows : group_get h gs = Some rows -> In (h, rows) gs.
Proof.
  induction gs as [|[k r] gs IH]; simpl; [discriminate|].
  destruct (k =? h) eqn:E.
  - apply String.eqb_eq in E. intros H; injection H as ->. left; congruence.
  - intros H. right. apply IH; assumption.
Qed.

Lemma swap_group_listed (self : SwapAnalyzer datetime) conn h :
  is_swap_group self conn h = true ->
  In (h, group_rows conn h) (_group_transactions conn).
Proof.
  intros Hg. apply group_get_In. unfold group_rows.
  destruct (group_get h (_group_transactions conn)) as [rows|] eqn:E; [reflexivity|].
  exfalso. apply (is_swap_group_true self) in Hg. destruct Hg as [Ho _].
  apply Ho. unfold outgoing_of, group_rows. rewrite E. reflexivity.
Qed.

Lemma skipped_warning_printed (self : SwapAnalyzer datetime) now h rows outgoing msg :
  fst (_build_spent_components self outgoing (reference_time fromisoformat rows now)) =
  inl (CoinGeckoError msg) ->
  In (Print ("[swap-analysis] " ++ h ++ " skipped: " ++ msg))
     (snd (group_valuation fromisoformat self now h rows outgoing)).
Proof.
  intros H. unfold group_valuation.
  destruct (_build_spent_components self outgoing (reference_time fromisoformat rows now))
    as [[e|comps] tr]; simpl in H; [|discriminate].
  injection H as ->. simpl.
  apply in_or_app. left. apply in_or_app. right. left. reflexivity.
Qed.

Lemma swap_group_trace (self : SwapAnalyzer datetime) utcnow conn h p ev :
  conn <> [] ->
  get_current_price (cg_client self) "bitcoin" = inr p ->
  is_swap_group self conn h = true ->
  In ev (snd (group_valuation fromisoformat self (utcnow h) h (group_rows conn h)
                              (outgoing_of self conn h))) ->
  In ev (trace_of (analyze fromisoformat self utcnow conn)).
Proof.
  intros Hne Hq Hg Hev.
  destruct (analyze_quote_loop self utcnow conn p Hne Hq) as [s ->].
  unfold trace_of. cbn [snd]. right.
  apply in_flat_map. exists (h, group_rows conn h). split.
  - apply (swap_group_listed self); assumption.
  - unfold group_trace.
    pose proof (is_swap_group_test self conn h) as Ht. rewrite Hg in Ht.
    cbn [negb] in Ht. rewrite Ht. exact Hev.
Qed.

Lemma main_nonempty_wallet wallet path (cg : CoinGeckoClient datetime) utcnow conn :
  wallet <> "" ->
  main fromisoformat wallet path cg utcnow conn =
  analyze fromisoformat (mkSwapAnalyzer (lower wallet) path cg) utcnow conn.
Proof.
  intros Hw. unfold main, SwapAnalyzer_init.
  destruct (wallet =? "") eqn:E; [|reflexivity].
  apply String.eqb_eq in E. contradiction.
Qed.


(** C9, as amended: an empty wallet argument raises [ValueError] in the
    constructor, before the store is read: no row changes, no oracle call
    is made and nothing is printed.  Any non-empty wallet string, whatever
    its shape, is accepted and lower-cased. *)
Theorem empty_wallet_rejected_before_any_work
        path (cg : CoinGeckoClient datetime) utcnow conn :
  main fromisoformat "" path cg utcnow conn =
  (inl (ValueError "wallet_address is required"), conn, []) /\
  (forall wallet, wallet <> "" ->
     SwapAnalyzer_init wallet path cg =
     inr (mkSwapAnalyzer (lower wallet) path cg)).
Proof.
  split; [reflexivity|].
  intros wallet Hw. unfold SwapAnalyzer_init.
  destruct (String.eqb_spec wallet ""); [contradiction|reflexivity].
Qed.

(** C10: on an empty store [analyze] returns the summary whose four
    figures are zero, leaves the store empty, and its trace is empty: no
    call to the price oracle, nothing printed. *)
Theorem empty_store_zero_summary (self : SwapAnalyzer datetime) utcnow :
  analyze fromisoformat self utcnow [] =
  (inr (mkSummary 0 0 0 0)%Qc, [], []).
Proof. reflexivity. Qed.

(** ** The first loop does not depend on the order of the legs *)

Lemma amount_get_add k0 a g k :
  amount_get k (dict_add k0 a g) =
  if key_eqb k0 k
  then Some (Qcplus (match amount_get k0 g with Some v => v | None => Decimal_zero end) a)
  else amount_get k g.
Proof.
  induction g as [|[k1 v] g IH]; simpl.
  - reflexivity.
  - destruct (key_eqb k1 k0) eqn:E10.
    + apply key_eqb_eq in E10; subst k1. simpl.
      destruct (key_eqb k0 k); reflexivity.
    + simpl. rewrite IH.
      destruct (key_eqb k1 k) eqn:E1; [|reflexivity].
      apply key_eqb_eq in E1; subst k1. rewrite key_eqb_neq in E10.
      destruct (key_eqb k0 k) eqn:E0; [|reflexivity].
      apply key_eqb_eq in E0. congruence.
Qed.

Lemma acc_equiv_refl a : acc_equiv a a.
Proof. split; reflexivity. Qed.

Lemma acc_equiv_trans a b c : acc_equiv a b -> acc_equiv b c -> acc_equiv a c.
Proof.
  intros [H1 H2] [H3 H4]. split; intros k.
  - rewrite H1; apply H3.
  - rewrite H2; apply H4.
Qed.

Lemma aggregate_step_equiv a b r :
  acc_equiv a b -> acc_equiv (aggregate_step a r) (aggregate_step b r).
Proof.
  intros [H1 H2]. unfold aggregate_step.
  destruct (r_value r) as [v|]; [|split; assumption].
  destruct (Decimal_leb (Decimal_of_float v) Decimal_zero); [split; assumption|].
  split; intros k; simpl.
  - rewrite !amount_get_add, H1, (H1 k). reflexivity.
  - rewrite !dict_get_set, H2. reflexivity.
Qed.

Lemma aggregate_fold_equiv l : forall a b,
  acc_equiv a b ->
  acc_equiv (fold_left aggregate_step l a) (fold_left aggregate_step l b).
Proof.
  induction l as [|r l IH]; intros a b H; simpl; [assumption|].
  apply IH. apply aggregate_step_equiv; assumption.
Qed.

Lemma key_eqb_sym (a b : Key) : key_eqb a b = key_eqb b a.
Proof.
  destruct (key_eqb a b) eqn:E1, (key_eqb b a) eqn:E2; try reflexivity.
  - apply key_eqb_eq in E1. subst. rewrite key_eqb_refl in E2. discriminate.
  - apply key_eqb_eq in E2. subst. rewrite key_eqb_refl in E1. discriminate.
Qed.

Lemma dict_add_swap kx vx ky vy g k :
  amount_get k (dict_add ky vy (dict_add kx vx g)) =
  amount_get k (dict_add kx vx (dict_add ky vy g)).
Proof.
  rewrite !amount_get_add.
  destruct (key_eqb kx ky) eqn:Exy.
  - apply key_eqb_eq in Exy. subst ky. rewrite !key_eqb_refl.
    destruct (key_eqb kx k); [|reflexivity].
    f_equal. destruct (amount_get kx g); qc_ring.
  - rewrite (key_eqb_sym ky kx), Exy.
    destruct (key_eqb ky k) eqn:Eyk, (key_eqb kx k) eqn:Exk; try reflexivity.
    apply key_eqb_eq in Eyk, Exk. subst. rewrite key_eqb_refl in Exy. discriminate.
Qed.

Lemma dict_set_swap kx cx ky cy c k :
  (kx = ky -> cx = cy) ->
  dict_get k (dict_set ky cy (dict_set kx cx c)) =
  dict_get k (dict_set kx cx (dict_set ky cy c)).
Proof.
  intros H. rewrite !dict_get_set.
  destruct (key_eqb ky k) eqn:Eyk, (key_eqb kx k) eqn:Exk; try reflexivity.
  apply key_eqb_eq in Eyk, Exk. subst. rewrite H; reflexivity.
Qed.

Lemma aggregate_step_swap a x y :
  compatible_rows x y ->
  acc_equiv (aggregate_step (aggregate_step a x) y)
            (aggregate_step (aggregate_step a y) x).
Proof.
  intros Hc. unfold compatible_rows, counted in Hc. unfold aggregate_step.
  destruct (r_value x) as [vx|]; [|apply acc_equiv_refl].
  destruct (Decimal_leb (Decimal_of_float vx) Decimal_zero) eqn:Ex;
    [apply acc_equiv_refl|].
  destruct (r_value y) as [vy|]; [|apply acc_equiv_refl].
  destruct (Decimal_leb (Decimal_of_float vy) Decimal_zero) eqn:Ey;
    [apply acc_equiv_refl|].
  cbn [negb] in Hc. unfold Decimal_of_float.
  split; intros k; cbn [fst snd].
  - apply dict_add_swap.
  - apply dict_set_swap. intros E. apply Hc; auto.
Qed.

Lemma aggregate_fold_perm l l' :
  Permutation l l' ->
  compatible_chains l ->
  forall a b, acc_equiv a b ->
    acc_equiv (fold_left aggregate_step l a) (fold_left aggregate_step l' b).
Proof.
  induction 1 as [|x l l' Hp IH|x y l|l l' l'' Hp1 IH1 Hp2 IH2]; intros Hc a b Hab.
  - assumption.
  - simpl. apply IH.
    + intros u v Hu Hv. apply Hc; right; assumption.
    + apply aggregate_step_equiv; assumption.
  - simpl. apply aggregate_fold_equiv.
    eapply acc_equiv_trans.
    + apply aggregate_step_swap. apply Hc; [left; reflexivity|right; left; reflexivity].
    + apply aggregate_step_equiv, aggregate_step_equiv; assumption.
  - eapply acc_equiv_trans.
    + apply IH1; [assumption|apply acc_equiv_refl].
    + apply IH2; [|assumption].
      intros u v Hu Hv. apply Hc; eapply Permutation_in; try eassumption;
        apply Permutation_sym; assumption.
Qed.

Lemma dict_add_NoDup k a g :
  NoDup (map fst g) -> NoDup (map fst (dict_add k a g)).
Proof.
  induction g as [|[k1 v] g IH]; simpl; intros H.
  - constructor; [intros []|constructor].
  - inversion H as [|? ? Hnotin Hnd]; subst.
    destruct (key_eqb k1 k) eqn:E; simpl.
    + constructor; assumption.
    + constructor; [|apply IH; assumption].
      rewrite dict_add_keys. intros [->|Hin]; [|contradiction].
      rewrite key_eqb_refl in E. discriminate.
Qed.

Lemma aggregate_NoDup outgoing : NoDup (map fst (fst (aggregate outgoing))).
Proof.
  unfold aggregate.
  assert (G : forall l acc, NoDup (map fst (fst acc)) ->
                            NoDup (map fst (fst (fold_left aggregate_step l acc)))).
  { induction l as [|r l IH]; intros acc Hacc; simpl; [assumption|].
    apply IH. unfold aggregate_step.
    destruct (r_value r) as [v|]; [|assumption].
    destruct (Decimal_leb (Decimal_of_float v) Decimal_zero); [assumption|].
    simpl. apply dict_add_NoDup; assumption. }
  apply G. constructor.
Qed.

Lemma amount_get_In g :
  NoDup (map fst g) ->
  forall k a, In (k, a) g <-> amount_get k g = Some a.
Proof.
  induction g as [|[k1 v] g IH]; simpl; intros Hnd k a.
  - split; [intros []|discriminate].
  - inversion Hnd as [|? ? Hnotin Hnd']; subst.
    destruct (key_eqb k1 k) eqn:E.
    + apply key_eqb_eq in E; subst k1. split.
      * intros [H|H]; [congruence|].
        exfalso. apply Hnotin. apply (in_map fst) in H. exact H.
      * intros H. left. congruence.
    + rewrite <- (IH Hnd' k a). split.
      * intros [H|H]; [|assumption]. injection H as -> ->.
        rewrite key_eqb_refl in E. discriminate.
      * intros H; right; assumption.
Qed.

Lemma same_lookups_perm (g g' : list (Key * Qc)) :
  NoDup (map fst g) -> NoDup (map fst g') ->
  (forall k, amount_get k g = amount_get k g') ->
  Permutation g g'.
Proof.
  intros H1 H2 Hl. apply NoDup_Permutation.
  - eapply NoDup_map_inv; eassumption.
  - eapply NoDup_map_inv; eassumption.
  - intros [k a]. rewrite (amount_get_In g H1), (amount_get_In g' H2), Hl. reflexivity.
Qed.

(** ** The second loop, up to the order of the items *)

Lemma price_components_collect (self : SwapAnalyzer datetime) c ts items :
  forall comps0,
    fst (price_components self c ts items comps0) =
    match collect (map (fun it => fst (price_component self c ts it)) items) with
    | inl e => inl e
    | inr cs => inr (comps0 ++ cs)
    end.
Proof.
  induction items as [|it items IH]; intros comps0; cbn [price_components map collect].
  - simpl. rewrite app_nil_r. reflexivity.
  - rewrite fst_bind.
    destruct (fst (price_component self c ts it)) as [e|comp]; [reflexivity|].
    rewrite IH.
    destruct (collect (map (fun it0 => fst (price_component self c ts it0)) items));
      [reflexivity|].
    rewrite <- app_assoc. reflexivity.
Qed.

Lemma collect_perm l l' :
  Permutation l l' ->
  match collect l, collect l' with
  | inr a, inr b => Permutation a b
  | inl _, inl _ => True
  | _, _ => False
  end.
Proof.
  induction 1 as [|x l l' Hp IH|x y l|l l' l'' Hp1 IH1 Hp2 IH2]; simpl.
  - constructor.
  - destruct x as [e|c]; [exact I|].
    destruct (collect l), (collect l'); try contradiction; try exact I.
    constructor; assumption.
  - destruct x as [e|c], y as [e'|c']; try exact I;
      destruct (collect l); try exact I.
    apply perm_swap.
  - destruct (collect l), (collect l'), (collect l''); try contradiction; try exact I.
    eapply Permutation_trans; eassumption.
Qed.

Lemma sum_usd_from_perm l l' :
  Permutation l l' ->
  forall a : Qc,
    fold_left (fun acc c => Qcplus acc (usd_value c)) l a =
    fold_left (fun acc c => Qcplus acc (usd_value c)) l' a.
Proof.
  induction 1 as [|x l l' Hp IH|x y l|l l' l'' Hp1 IH1 Hp2 IH2]; intros a; simpl.
  - reflexivity.
  - apply IH.
  - f_equal. ring.
  - rewrite IH1. apply IH2.
Qed.

Lemma spent_usd_of_perm a b :
  Permutation a b -> spent_usd_of (inr a) = spent_usd_of (inr b).
Proof.
  intros Hp. unfold spent_usd_of.
  destruct a as [|x a], b as [|y b]; try reflexivity.
  - apply Permutation_nil in Hp. discriminate.
  - apply Permutation_sym, Permutation_nil in Hp. discriminate.
  - f_equal. unfold sum_usd_value. apply sum_usd_from_perm; assumption.
Qed.

Lemma price_component_lookup (self : SwapAnalyzer datetime) c c' ts it :
  dict_get (fst it) c = dict_get (fst it) c' ->
  price_component self c ts it = price_component self c' ts it.
Proof.
  destruct it as [k a]. simpl. intros H. unfold price_component. rewrite H. reflexivity.
Qed.

(** With one reference time, the total spent in USD does not depend on
    the order of the outgoing legs, as long as legs that share a key
    share a chain. *)
Lemma build_spent_usd_perm (self : SwapAnalyzer datetime) ts outgoing outgoing' :
  Permutation outgoing outgoing' ->
  compatible_chains outgoing ->
  spent_usd_of (fst (_build_spent_components self outgoing ts)) =
  spent_usd_of (fst (_build_spent_components self outgoing' ts)).
Proof.
  intros Hp Hc. unfold _build_spent_components.
  pose proof (aggregate_fold_perm outgoing outgoing' Hp Hc ([], []) ([], [])
                (acc_equiv_refl _)) as [Hg Hch].
  pose proof (aggregate_NoDup outgoing) as Hn.
  pose proof (aggregate_NoDup outgoing') as Hn'.
  unfold aggregate in *.
  destruct (fold_left aggregate_step outgoing ([], [])) as [g c].
  destruct (fold_left aggregate_step outgoing' ([], [])) as [g' c'].
  cbn [fst snd] in *.
  rewrite !price_components_collect. cbn [app].
  assert (Hperm : Permutation
                    (map (fun it => fst (price_component self c ts it)) g)
                    (map (fun it => fst (price_component self c' ts it)) g')).
  { rewrite (map_ext (fun it => fst (price_component self c ts it))
                     (fun it => fst (price_component self c' ts it))).
    - apply Permutation_map. apply same_lookups_perm; assumption.
    - intros it. f_equal. apply price_component_lookup. apply Hch. }
  pose proof (collect_perm _ _ Hperm) as Hcol.
  destruct (collect (map (fun it => fst (price_component self c ts it)) g)) as [e|cs],
           (collect (map (fun it => fst (price_component self c' ts it)) g')) as [e'|cs'];
    try contradiction.
  - reflexivity.
  - apply spent_usd_of_perm; assumption.
Qed.

(** ** What the first loop stores under each key *)

Lemma aggregate_fold_amount l : forall acc k,
  amount_get k (fst (fold_left aggregate_step l acc)) =
  match amount_get k (fst acc), key_rows k l with
  | None, [] => None
  | o, rs => Some (Qcplus (match o with Some v => v | None => Decimal_zero end)
                          (sum_amounts rs))
  end.
Proof.
  induction l as [|r l IH]; intros acc k.
  - simpl. destruct (amount_get k (fst acc)); [f_equal; qc_ring|reflexivity].
  - cbn [fold_left]. rewrite IH. unfold key_rows. cbn [filter].
    fold (key_rows k l).
    unfold aggregate_step, counted.
    destruct (r_value r) as [v|] eqn:Erv; [|reflexivity].
    destruct (Decimal_leb (Decimal_of_float v) Decimal_zero) eqn:Ev; [reflexivity|].
    cbn [fst negb andb]. rewrite amount_get_add.
    destruct (key_eqb (row_key r) k) eqn:Ek; [|reflexivity].
    apply key_eqb_eq in Ek. rewrite Ek.
    assert (Ha : sum_amounts (r :: key_rows k l) =
                 Qcplus v (sum_amounts (key_rows k l))).
    { unfold sum_amounts. cbn [fold_right]. unfold amount_of.
      rewrite Erv, Ev. reflexivity. }
    rewrite Ha. unfold Decimal_of_float.
    destruct (amount_get k (fst acc)); f_equal; qc_ring.
Qed.

Lemma aggregate_amount outgoing k :
  amount_get k (fst (aggregate outgoing)) =
  match key_rows k outgoing with
  | [] => None
  | rs => Some (sum_amounts rs)
  end.
Proof.
  unfold aggregate. rewrite aggregate_fold_amount. cbn [fst amount_get].
  destruct (key_rows k outgoing); [reflexivity|]. f_equal. qc_ring.
Qed.

(** ** Row ids play no part in the valuation *)

Lemma aggregate_forget l : aggregate (map forget_id l) = aggregate l.
Proof.
  unfold aggregate. generalize (@nil (Key * Qc), @nil (Key * string)).
  induction l as [|r l IH]; intros acc; simpl; [reflexivity|].
  rewrite <- IH. reflexivity.
Qed.

Lemma build_forget (self : SwapAnalyzer datetime) l ts :
  _build_spent_components self (map forget_id l) ts =
  _build_spent_components self l ts.
Proof. unfold _build_spent_components. rewrite aggregate_forget. reflexivity. Qed.

Lemma filter_map_forget (f : Row -> bool) l :
  (forall r, f (forget_id r) = f r) ->
  filter f (map forget_id l) = map forget_id (filter f l).
Proof.
  intros Hf. induction l as [|r l IH]; simpl; [reflexivity|].
  rewrite Hf. destruct (f r); simpl; rewrite IH; reflexivity.
Qed.

Lemma insert_forget r l :
  insert_by_timestamp (forget_id r) (map forget_id l) =
  map forget_id (insert_by_timestamp r l).
Proof.
  induction l as [|x l IH]; simpl; [reflexivity|].
  destruct (timestamp_leb (r_block_timestamp x) (r_block_timestamp r)); simpl.
  - rewrite IH. reflexivity.
  - reflexivity.
Qed.

Lemma order_forget l :
  order_by_timestamp (map forget_id l) = map forget_id (order_by_timestamp l).
Proof.
  unfold order_by_timestamp.
  change (@nil Row) with (map forget_id []) at 1.
  generalize (@nil Row).
  induction l as [|r l IH]; intros acc; simpl; [reflexivity|].
  rewrite insert_forget. apply IH.
Qed.

Lemma fetchall_forget conn :
  map forget_id (fetchall conn) = order_by_timestamp (map row_data conn).
Proof.
  unfold fetchall, row_data. rewrite <- order_forget, map_map. reflexivity.
Qed.

Lemma group_rows_forget conn h :
  map forget_id (group_rows conn h) =
  rows_with h (order_by_timestamp (map row_data conn)).
Proof.
  rewrite group_rows_eq, <- fetchall_forget. unfold rows_with.
  symmetry. apply filter_map_forget. reflexivity.
Qed.

Lemma outgoing_forget (self : SwapAnalyzer datetime) conn h :
  map forget_id (outgoing_of self conn h) =
  filter (_is_outgoing self) (rows_with h (order_by_timestamp (map row_data conn))).
Proof.
  unfold outgoing_of. rewrite <- group_rows_forget.
  symmetry. apply filter_map_forget. reflexivity.
Qed.

Lemma filter_perm (A : Type) (f : A -> bool) l l' :
  Permutation l l' -> Permutation (filter f l) (filter f l').
Proof.
  induction 1 as [|x l l' Hp IH|x y l|l l' l'' Hp1 IH1 Hp2 IH2]; simpl.
  - constructor.
  - destruct (f x); [constructor|]; assumption.
  - destruct (f x), (f y); try reflexivity. apply perm_swap.
  - eapply Permutation_trans; eassumption.
Qed.

Lemma rows_with_order_perm h l l' :
  Permutation l l' ->
  Permutation (rows_with h (order_by_timestamp l)) (rows_with h (order_by_timestamp l')).
Proof.
  intros Hp. apply filter_perm.
  rewrite (order_by_timestamp_perm l), (order_by_timestamp_perm l'). assumption.
Qed.

Lemma compatible_chains_forget l :
  compatible_chains l -> compatible_chains (map forget_id l).
Proof.
  intros Hc x y Hx Hy. apply in_map_iff in Hx, Hy.
  destruct Hx as [x0 [<- Hx0]], Hy as [y0 [<- Hy0]].
  exact (Hc x0 y0 Hx0 Hy0).
Qed.

(** ** The reference time of a group is fixed by the load order *)

Lemma sorted_timestamps l :
  StronglySorted row_le l -> StronglySorted ts_le (map r_block_timestamp l).
Proof.
  induction 1 as [|x l Hs IH Hall]; simpl; constructor; [assumption|].
  rewrite Forall_map. exact Hall.
Qed.

Lemma sorted_perm_eq (l l' : list (option string)) :
  StronglySorted ts_le l -> StronglySorted ts_le l' ->
  Permutation l l' -> l = l'.
Proof.
  revert l'. induction l as [|x l IH]; intros l' Hs Hs' Hp.
  - apply Permutation_nil in Hp. congruence.
  - destruct l' as [|y l'].
    + apply Permutation_sym, Permutation_nil in Hp. discriminate.
    + inversion Hs as [|? ? Hsl Hall]; subst.
      inversion Hs' as [|? ? Hsl' Hall']; subst.
      assert (x = y).
      { assert (Hy : In y (x :: l))
          by (eapply Permutation_in; [apply Permutation_sym; eassumption|left; reflexivity]).
        assert (Hx : In x (y :: l'))
          by (eapply Permutation_in; [eassumption|left; reflexivity]).
        rewrite Forall_forall in Hall, Hall'.
        destruct Hy as [Hy|Hy]; [assumption|].
        destruct Hx as [Hx|Hx]; [congruence|].
        apply ts_le_antisym; [apply Hall|apply Hall']; assumption. }
      subst y. f_equal. apply IH; try assumption.
      eapply Permutation_cons_inv; eassumption.
Qed.

Lemma tx_timestamp_of_timestamps l l' :
  map r_block_timestamp l = map r_block_timestamp l' ->
  _tx_timestamp fromisoformat l = _tx_timestamp fromisoformat l'.
Proof.
  revert l'. induction l as [|r l IH]; intros [|r' l'] H; try discriminate.
  - reflexivity.
  - simpl in *. injection H as H1 H2. rewrite H1, (IH l' H2). reflexivity.
Qed.

Lemma group_rows_sorted conn h : StronglySorted row_le (group_rows conn h).
Proof.
  rewrite group_rows_eq. apply StronglySorted_filter.
  apply order_by_timestamp_sorted.
Qed.

Lemma group_timestamps_perm conn conn' h :
  Permutation (map row_data conn) (map row_data conn') ->
  map r_block_timestamp (group_rows conn h) =
  map r_block_timestamp (group_rows conn' h).
Proof.
  intros Hp. apply sorted_perm_eq.
  - apply sorted_timestamps, group_rows_sorted.
  - apply sorted_timestamps, group_rows_sorted.
  - assert (E : forall c, map r_block_timestamp (group_rows c h) =
                          map r_block_timestamp (map forget_id (group_rows c h))).
    { intros c. rewrite map_map. reflexivity. }
    rewrite (E conn), (E conn'), !group_rows_forget.
    apply Permutation_map. apply rows_with_order_perm. assumption.
Qed.

Lemma group_spent_usd_eq (self : SwapAnalyzer datetime) utcnow conn h :
  group_spent_usd fromisoformat self utcnow conn h =
  spent_usd_of (fst (spent_components_of fromisoformat self utcnow conn h)).
Proof.
  unfold group_spent_usd, spent_components_of.
  destruct (fst (_build_spent_components self (outgoing_of self conn h)
                   (reference_time fromisoformat (group_rows conn h) (utcnow h))))
    as [e|comps] eqn:E.
  - rewrite (valuation_abandoned self (utcnow h) h _ _ e E). reflexivity.
  - rewrite (valuation_built self (utcnow h) h _ _ comps E).
    destruct comps; reflexivity.
Qed.

(** ** Order of the records *)


(** * Further properties of the analyzer *)

(** ** Grouping *)

Lemma group_append_concat h r d :
  Permutation (List.concat (map snd (group_append h r d))) (r :: List.concat (map snd d)).
Proof.
  induction d as [|[k rows] d IH]; simpl.
  - reflexivity.
  - destruct (k =? h); simpl.
    + rewrite <- app_assoc. simpl.
      symmetry. apply Permutation_middle.
    + rewrite IH. symmetry. apply Permutation_middle.
Qed.

Lemma grouping_fold_concat l : forall d,
  Permutation
    (List.concat (map snd (fold_left (fun g row => group_append (r_tx_hash row) row g) l d)))
    (List.concat (map snd d) ++ l).
Proof.
  induction l as [|r l IH]; intros d; simpl.
  - rewrite app_nil_r. reflexivity.
  - rewrite IH, group_append_concat. simpl. apply Permutation_middle.
Qed.

Lemma group_In_get gs h rows :
  NoDup (map fst gs) -> In (h, rows) gs -> group_get h gs = Some rows.
Proof.
  induction gs as [|[k r] gs IH]; simpl; intros Hnd Hin; [contradiction|].
  inversion Hnd as [|? ? Hnotin Hnd']; subst.
  destruct Hin as [Heq|Hin].
  - injection Heq as -> ->. rewrite String.eqb_refl. reflexivity.
  - destruct (k =? h) eqn:E; [|apply IH; assumption].
    apply String.eqb_eq in E. subst k. exfalso. apply Hnotin.
    apply (in_map fst) in Hin. exact Hin.
Qed.

(** X1: [_group_transactions] partitions the loaded rows by transaction
    hash: no hash is listed twice, the entry of a hash holds exactly the
    loaded rows carrying it, in load order, and is never empty, and the
    groups together hold every stored row once. *)
Theorem group_transactions_partition conn :
  NoDup (map fst (_group_transactions conn)) /\
  (forall h rows,
     In (h, rows) (_group_transactions conn) <->
     rows = rows_with h (fetchall conn) /\ rows <> []) /\
  Permutation (List.concat (map snd (_group_transactions conn))) (map select_row conn).
Proof.
  split; [apply group_transactions_NoDup|]. split.
  - intros h rows. split.
    + intros Hin.
      apply (group_In_get _ _ _ (group_transactions_NoDup conn)) in Hin.
      rewrite group_transactions_get in Hin.
      destruct (rows_with h (fetchall conn)) as [|r l]; [discriminate|].
      injection Hin as <-. split; [reflexivity|discriminate].
    + intros [-> Hne]. apply group_get_In. rewrite group_transactions_get.
      destruct (rows_with h (fetchall conn)); [contradiction|reflexivity].
  - unfold _group_transactions. rewrite grouping_fold_concat. simpl.
    unfold fetchall. apply order_by_timestamp_perm.
Qed.

(** ** Classification *)

Lemma lower_empty s : lower s = "" <-> s = "".
Proof. destruct s; simpl; split; congruence. Qed.

(** X2: for an analyzer that the constructor built from wallet [w], a row
    whose from (to) address is NULL is never outgoing (incoming), and a row
    with an address is outgoing (incoming) exactly when the address equals
    the wallet once both are lower-cased. *)
Theorem wallet_match_is_case_insensitive w path (cg : CoinGeckoClient datetime) self row :
  SwapAnalyzer_init w path cg = inr self ->
  (r_from_address row = None -> _is_outgoing self row = false) /\
  (r_to_address row = None -> _is_incoming self row = false) /\
  (forall a, r_from_address row = Some a ->
             (_is_outgoing self row = true <-> lower a = lower w)) /\
  (forall a, r_to_address row = Some a ->
             (_is_incoming self row = true <-> lower a = lower w)).
Proof.
  unfold SwapAnalyzer_init. destruct (String.eqb_spec w "") as [->|Hw]; [discriminate|].
  intros H. injection H as <-.
  assert (Hl : lower w <> "") by (rewrite lower_empty; assumption).
  unfold _is_outgoing, _is_incoming. cbn [wallet_address].
  repeat split.
  - intros ->. cbn [or_empty lower]. apply String.eqb_neq. congruence.
  - intros ->. cbn [or_empty lower]. apply String.eqb_neq. congruence.
  - rewrite H. cbn [or_empty]. apply String.eqb_eq.
  - rewrite H. cbn [or_empty]. intros E. apply String.eqb_eq. assumption.
  - rewrite H. cbn [or_empty]. apply String.eqb_eq.
  - rewrite H. cbn [or_empty]. intros E. apply String.eqb_eq. assumption.
Qed.

(** ** Timestamps *)

Lemma endswith_Z_app s : endswith_Z (s ++ "Z") = true.
Proof.
  induction s as [|c s IH]; [reflexivity|].
  simpl. destruct (s ++ "Z")%string eqn:E; [|exact IH].
  destruct s; discriminate.
Qed.

Lemma drop_last_app s c : drop_last (s ++ String c "") = s.
Proof.
  induction s as [|d s IH]; [reflexivity|].
  simpl. destruct (s ++ String c "")%string eqn:E.
  - destruct s; discriminate.
  - rewrite IH. reflexivity.
Qed.

(** X3: a timestamp text ending in [Z] is parsed as the same text with
    the [Z] replaced by [+00:00]; any other non-empty text is parsed as it
    stands. *)
Theorem parse_timestamp_zulu_suffix (s : string) :
  _parse_timestamp fromisoformat (Some (s ++ "Z")%string) =
  fromisoformat (s ++ "+00:00")%string /\
  (s <> "" -> endswith_Z s = false ->
   _parse_timestamp fromisoformat (Some s) = fromisoformat s).
Proof.
  split.
  - unfold _parse_timestamp.
    destruct (String.eqb_spec (s ++ "Z")%string "") as [E|_].
    + destruct s; discriminate.
    + rewrite endswith_Z_app, drop_last_app. reflexivity.
  - intros Hne Hz. unfold _parse_timestamp.
    destruct (String.eqb_spec s ""); [contradiction|]. rewrite Hz. reflexivity.
Qed.

(** X4: [_tx_timestamp] answers with the parse of the first row, in the
    order given, whose timestamp parses, and with [None] exactly when no
    row has a timestamp that parses. *)
Theorem tx_timestamp_is_first_parseable rows :
  (forall ts,
     _tx_timestamp fromisoformat rows = Some ts <->
     exists pre row post,
       rows = pre ++ row :: post /\
       Forall (unparseable fromisoformat) pre /\
       _parse_timestamp fromisoformat (r_block_timestamp row) = Some ts) /\
  (_tx_timestamp fromisoformat rows = None <->
   Forall (unparseable fromisoformat) rows).
Proof.
  induction rows as [|r rows [IH1 IH2]]; simpl.
  - split.
    + intros ts. split; [discriminate|].
      intros [pre [row [post [E _]]]]. destruct pre; discriminate.
    + split; constructor.
  - destruct (_parse_timestamp fromisoformat (r_block_timestamp r)) as [t|] eqn:E.
    + split.
      * intros ts. split.
        -- intros H. injection H as <-. exists [], r, rows. repeat split; auto.
        -- intros [pre [row [post [Hr [Hpre Hrow]]]]].
           destruct pre as [|x pre]; simpl in Hr; injection Hr as <- _.
           ++ congruence.
           ++ inversion Hpre as [|? ? Hx _]; subst. unfold unparseable in Hx. congruence.
      * split; [discriminate|]. intros H. inversion H as [|? ? Hx _]; subst.
        unfold unparseable in Hx. congruence.
    + split.
      * intros ts. rewrite IH1. split.
        -- intros [pre [row [post [Hr [Hpre Hrow]]]]].
           exists (r :: pre), row, post. subst rows. repeat split; auto.
        -- intros [pre [row [post [Hr [Hpre Hrow]]]]].
           destruct pre as [|x pre]; simpl in Hr; injection Hr as <- Hr.
           ++ congruence.
           ++ inversion Hpre; subst. exists pre, row, post. auto.
      * rewrite IH2. split.
        -- intros H. constructor; assumption.
        -- intros H. inversion H; assumption.
Qed.

(** ** Resolving a coin id *)

(** X5: with a contract address the symbol plays no part in
    [_resolve_coin_id]: the outcome is the same for every asset text, a
    chain outside the platform table raises without any call to the
    oracle (there is no fall-back to the symbol table), and a chain of the
    table costs exactly one contract lookup; without a contract address no
    call is made at all. *)
Theorem resolve_coin_id_contract_takes_precedence
        (self : SwapAnalyzer datetime) chain asset contract :
  (truthy_str contract = true ->
   (forall asset', _resolve_coin_id self chain asset' contract =
                   _resolve_coin_id self chain asset contract) /\
   (table_get (lower chain) COINGECKO_PLATFORMS_BY_CHAIN = None ->
    _resolve_coin_id self chain asset contract =
    (inl (CoinGeckoError ("Unsupported chain for CoinGecko mapping: " ++ chain)), [])) /\
   (forall platform,
      table_get (lower chain) COINGECKO_PLATFORMS_BY_CHAIN = Some platform ->
      snd (_resolve_coin_id self chain asset contract) =
      [CallCoinIdByContract platform (or_empty contract)])) /\
  (truthy_str contract = false ->
   snd (_resolve_coin_id self chain asset contract) = []).
Proof.
  unfold _resolve_coin_id. split; intros Hc; rewrite Hc.
  - split; [reflexivity|]. split.
    + intros ->. reflexivity.
    + intros platform Hp. rewrite Hp.
      assert (Hne : (platform =? "") = false).
      { simpl in Hp.
        repeat match type of Hp with
               | (if ?b then _ else _) = _ => destruct b
               end; try discriminate; injection Hp as <-; reflexivity. }
      rewrite Hne. unfold call_get_coin_id_by_contract, of_answer.
      destruct (get_coin_id_by_contract (cg_client self) platform (or_empty contract));
        reflexivity.
  - destruct (table_get (upper (or_empty asset)) SYMBOL_TO_COINGECKO_ID); reflexivity.
Qed.

(** ** The spent components *)

Lemma counted_false_step acc row :
  counted row = false -> aggregate_step acc row = acc.
Proof.
  unfold counted, aggregate_step. destruct (r_value row) as [v|]; [|reflexivity].
  destruct (Decimal_leb (Decimal_of_float v) Decimal_zero); [reflexivity|discriminate].
Qed.

(** X6: when no outgoing leg has a positive, non-null value,
    [_build_spent_components] returns no component and never calls the
    oracle. *)
Theorem no_counted_leg_no_component (self : SwapAnalyzer datetime) outgoing ts :
  (forall r, In r outgoing -> counted r = false) ->
  _build_spent_components self outgoing ts = (inr [], []).
Proof.
  intros H. unfold _build_spent_components.
  assert (E : aggregate outgoing = ([], [])).
  { unfold aggregate. generalize (@nil (Key * Qc), @nil (Key * string)).
    induction outgoing as [|r l IH]; intros acc; simpl.
    - reflexivity.
    - rewrite counted_false_step by (apply H; left; reflexivity).
      apply IH. intros r' Hr'. apply H. right; assumption. }
  rewrite E. reflexivity.
Qed.

Lemma Qc_pos_add (v a : Qc) : (0 <= v)%Qc -> (0 < a)%Qc -> (0 < v + a)%Qc.
Proof.
  intros Hv Ha. apply Qcle_lt_trans with v; [assumption|].
  apply Qclt_minus_iff. replace (v + a + - v)%Qc with a by ring. assumption.
Qed.

Lemma dict_add_positive k a g :
  (0 < a)%Qc ->
  Forall (fun kv => (0 < snd kv)%Qc) g ->
  Forall (fun kv => (0 < snd kv)%Qc) (dict_add k a g).
Proof.
  intros Ha. induction g as [|[k1 v] g IH]; intros Hg; simpl.
  - constructor; [|constructor]. simpl. apply Qc_pos_add; [apply Qcle_refl|assumption].
  - inversion Hg as [|? ? Hv Hg']; subst. simpl in Hv.
    destruct (key_eqb k1 k); constructor; auto.
    simpl. apply Qc_pos_add; [apply Qclt_le_weak|]; assumption.
Qed.

Lemma aggregate_positive outgoing :
  Forall (fun kv => (0 < snd kv)%Qc) (fst (aggregate outgoing)).
Proof.
  unfold aggregate.
  assert (G : forall l acc, Forall (fun kv => (0 < snd kv)%Qc) (fst acc) ->
                Forall (fun kv => (0 < snd kv)%Qc) (fst (fold_left aggregate_step l acc))).
  { induction l as [|r l IH]; intros acc Hacc; simpl; [assumption|].
    apply IH. unfold aggregate_step.
    destruct (r_value r) as [v|]; [|assumption].
    destruct (Decimal_leb (Decimal_of_float v) Decimal_zero) eqn:E; [assumption|].
    simpl. apply dict_add_positive; [|assumption].
    apply (Decimal_ltb_lt Decimal_zero v).
    unfold Decimal_ltb, Decimal_leb, Decimal_of_float in *.
    rewrite E. reflexivity. }
  apply G. constructor.
Qed.

Lemma snd_bind A B (m : T datetime A) (f : A -> T datetime B) :
  snd (bind m f) =
  snd m ++ match fst m with inl _ => [] | inr a => snd (f a) end.
Proof.
  unfold bind. destruct m as [[e|a] tr]; simpl.
  - rewrite app_nil_r. reflexivity.
  - destruct (f a); reflexivity.
Qed.

Lemma resolve_coin_id_no_price_call (self : SwapAnalyzer datetime) ch a c :
  filter is_price_at_call (snd (_resolve_coin_id self ch a c)) = [].
Proof.
  unfold _resolve_coin_id. destruct (truthy_str c).
  - destruct (table_get (lower ch) COINGECKO_PLATFORMS_BY_CHAIN) as [pf|]; [|reflexivity].
    destruct (pf =? ""); [reflexivity|].
    unfold call_get_coin_id_by_contract, of_answer.
    destruct (get_coin_id_by_contract (cg_client self) pf (or_empty c)); reflexivity.
  - destruct (table_get (upper (or_empty a)) SYMBOL_TO_COINGECKO_ID); reflexivity.
Qed.

Lemma price_component_one_call (self : SwapAnalyzer datetime) c ts it comp :
  fst (price_component self c ts it) = inr comp ->
  List.length (filter is_price_at_call (snd (price_component self c ts it))) = 1%nat.
Proof.
  destruct it as [k a]. unfold price_component.
  rewrite fst_bind, snd_bind.
  destruct (dict_get k c) as [ch|]; [|discriminate].
  cbn [ret fst snd app]. rewrite fst_bind, snd_bind.
  pose proof (resolve_coin_id_no_price_call self ch (fst k) (snd k)) as Hr.
  destruct (_resolve_coin_id self ch (fst k) (snd k)) as [[e|coin] tr];
    cbn [fst snd] in *; [discriminate|].
  rewrite fst_bind, snd_bind. unfold call_get_price_at_timestamp, of_answer.
  destruct (get_price_at_timestamp (cg_client self) coin ts) as [msg|p];
    cbn [fst snd]; [discriminate|].
  intros _. rewrite filter_app, Hr. reflexivity.
Qed.

Lemma price_components_calls (self : SwapAnalyzer datetime) c ts items :
  forall comps0 comps,
    fst (price_components self c ts items comps0) = inr comps ->
    List.length (filter is_price_at_call (snd (price_components self c ts items comps0))) =
    List.length items.
Proof.
  induction items as [|it items IH]; intros comps0 comps H; [reflexivity|].
  cbn [price_components] in *. rewrite fst_bind in H. rewrite snd_bind.
  destruct (fst (price_component self c ts it)) as [e|comp] eqn:Ec; [discriminate|].
  rewrite filter_app, length_app, (price_component_one_call self c ts it comp Ec).
  rewrite (IH _ _ H). reflexivity.
Qed.


(** ** The figures of the summary *)

Lemma analyze_group_totals (self : SwapAnalyzer datetime) utcnow cur conn tot n g :
  exists conn' tr,
    analyze_group fromisoformat self utcnow cur (conn, tot, n) g =
    (inr (conn', Qcplus tot (group_btc_amount fromisoformat self utcnow g),
          (n + (if qualifies self g then 1 else 0))%Z), tr).
Proof.
  destruct g as [h rows]. unfold analyze_group, group_btc_amount, qualifies.
  cbn [fst snd].
  destruct (is_nil (filter (_is_outgoing self) rows) ||
            is_nil (filter (_is_incoming self) rows)).
  - exists conn, []. cbn [negb ret]. rewrite Z.add_0_r.
    replace (Qcplus tot Decimal_zero) with tot by qc_ring. reflexivity.
  - cbn [negb]. unfold valuation_of.
    destruct (group_valuation_returns self (utcnow h) h rows
                (filter (_is_outgoing self) rows))
      as [[[[sc usd] price] amt] [tr E]].
    rewrite E. cbn [bind ret fst snd].
    assert (Ht : (if truthy_dec amt
                  then match amt with Some a => Qcplus tot a | None => tot end
                  else tot) =
                 Qcplus tot match amt with
                            | Some a => if truthy_dec (Some a) then a else Decimal_zero
                            | None => Decimal_zero
                            end).
    { destruct amt as [a|]; cbn [truthy_dec].
      - destruct (negb (Qc_eq_bool a Decimal_zero)); [reflexivity|qc_ring].
      - qc_ring. }
    rewrite Ht. do 2 eexists. reflexivity.
Qed.

Lemma analyze_loop_totals (self : SwapAnalyzer datetime) utcnow cur groups :
  forall conn tot n,
  exists conn' tr,
    analyze_loop fromisoformat self utcnow cur groups (conn, tot, n) =
    (inr (conn',
          Qcplus tot (fold_right (fun g acc =>
                                    Qcplus (group_btc_amount fromisoformat self utcnow g) acc)
                                 Decimal_zero groups),
          (n + Z.of_nat (List.length (filter (qualifies self) groups)))%Z), tr).
Proof.
  induction groups as [|g groups IH]; intros conn tot n;
    cbn [analyze_loop fold_right filter].
  - exists conn, []. cbn [List.length Z.of_nat]. rewrite Z.add_0_r.
    replace (Qcplus tot Decimal_zero) with tot by qc_ring. reflexivity.
  - destruct (analyze_group_totals self utcnow cur conn tot n g) as [conn1 [tr1 E1]].
    rewrite E1. cbn [bind].
    destruct (IH conn1 (Qcplus tot (group_btc_amount fromisoformat self utcnow g))
                 (n + (if qualifies self g then 1 else 0))%Z) as [conn2 [tr2 E2]].
    rewrite E2. do 2 eexists.
    assert (Ha : forall a b c : Qc, Qcplus (Qcplus a b) c = Qcplus a (Qcplus b c))
      by (intros; ring).
    assert (Hn : (n + (if qualifies self g then 1 else 0) +
                  Z.of_nat (List.length (filter (qualifies self) groups)) =
                  n + Z.of_nat (List.length (if qualifies self g
                                             then g :: filter (qualifies self) groups
                                             else filter (qualifies self) groups)))%Z).
    { destruct (qualifies self g); cbn [List.length]; lia. }
    rewrite Ha, Hn. reflexivity.
Qed.

Lemma summary_of_run (self : SwapAnalyzer datetime) utcnow conn p :
  conn <> [] ->
  get_current_price (cg_client self) "bitcoin" = inr p ->
  exists summary,
    fst (fst (analyze fromisoformat self utcnow conn)) = inr summary /\
    swaps_detected summary =
    Q2Qc (inject_Z (Z.of_nat (List.length (filter (qualifies self)
                                              (_group_transactions conn))))) /\
    btc_amount summary =
    fold_right (fun g acc => Qcplus (group_btc_amount fromisoformat self utcnow g) acc)
               Decimal_zero (_group_transactions conn) /\
    btc_price_current summary = p /\
    btc_value_usd summary = Qcmult (btc_amount summary) p.
Proof.
  intros Hne Hq. unfold analyze.
  destruct (_group_transactions conn) eqn:E.
  - apply group_transactions_nil in E. contradiction.
  - rewrite <- E. cbn [is_nil].
    assert (Hnil : is_nil (_group_transactions conn) = false) by (rewrite E; reflexivity).
    rewrite Hnil. unfold call_get_current_price. rewrite Hq. cbn [of_answer bind].
    destruct (analyze_loop_totals self utcnow (Decimal_of_float p)
                (_group_transactions conn) conn Decimal_zero 0%Z) as [conn' [tr El]].
    rewrite El. cbn [bind ret fst snd]. eexists. split; [reflexivity|].
    cbn [swaps_detected btc_amount btc_price_current btc_value_usd].
    repeat split. qc_ring.
Qed.

(** X8: the summary of a run over a non-empty store whose current-price
    lookup answered [p] counts in [swaps_detected] exactly the groups with
    an outgoing and an incoming leg, adds up in [btc_amount] the non-zero
    bitcoin amounts of those groups, reports [p] as [btc_price_current],
    and [btc_value_usd] is [btc_amount] times [p]. *)
Theorem summary_counts_qualifying_groups (self : SwapAnalyzer datetime) utcnow conn p :
  conn <> [] ->
  get_current_price (cg_client self) "bitcoin" = inr p ->
  exists summary,
    fst (fst (analyze fromisoformat self utcnow conn)) = inr summary /\
    swaps_detected summary =
    Q2Qc (inject_Z (Z.of_nat (List.length (filter (qualifies self)
                                              (_group_transactions conn))))) /\
    btc_amount summary =
    fold_right (fun g acc => Qcplus (group_btc_amount fromisoformat self utcnow g) acc)
               Decimal_zero (_group_transactions conn) /\
    btc_price_current summary = p /\
    btc_value_usd summary = Qcmult (btc_amount summary) p.
Proof. exact (summary_of_run self utcnow conn p). Qed.

(** ** What a run leaves alone *)

Lemma other_columns_after_group (self : SwapAnalyzer datetime) utcnow cur g t :
  other_columns (row_after_group fromisoformat self utcnow cur g t) = other_columns t /\
  (is_swap t = 1%Z -> is_swap (row_after_group fromisoformat self utcnow cur g t) = 1%Z).
Proof.
  destruct g as [h rows]. unfold row_after_group.
  destruct (is_nil _ || is_nil _); [split; auto|].
  destruct (valuation_of fromisoformat self (utcnow h) h rows _) as [[[sc usd] price] amt].
  destruct (has_id (id t) (filter (_is_incoming self) rows));
    destruct (has_id (id t) (filter (_is_outgoing self) rows)); split; auto.
Qed.

Lemma other_columns_after_groups (self : SwapAnalyzer datetime) utcnow cur groups :
  forall t,
    other_columns (fold_left (fun t g => row_after_group fromisoformat self utcnow cur g t)
                             groups t) = other_columns t /\
    (is_swap t = 1%Z ->
     is_swap (fold_left (fun t g => row_after_group fromisoformat self utcnow cur g t)
                        groups t) = 1%Z).
Proof.
  induction groups as [|g groups IH]; intros t; simpl; [split; auto|].
  destruct (other_columns_after_group self utcnow cur g t) as [H1 H2].
  destruct (IH (row_after_group fromisoformat self utcnow cur g t)) as [H3 H4].
  split; [congruence|auto].
Qed.

Lemma store_after_cases (self : SwapAnalyzer datetime) utcnow conn :
  store_after (analyze fromisoformat self utcnow conn) = conn \/
  exists cur,
    store_after (analyze fromisoformat self utcnow conn) =
    map (fun t => fold_left (fun t g => row_after_group fromisoformat self utcnow cur g t)
                            (_group_transactions conn) t) conn.
Proof.
  destruct (completes (analyze fromisoformat self utcnow conn)) eqn:Hc.
  - apply completes_iff in Hc. destruct Hc as [->|[p Hq]]; [left; reflexivity|].
    destruct conn as [|t0 l0] eqn:Ec; [left; reflexivity|]. rewrite <- Ec.
    assert (Hne : conn <> []) by (rewrite Ec; discriminate).
    destruct (analyze_quote_loop self utcnow conn p Hne Hq) as [s ->].
    right. exists p. unfold store_after. cbn [fst snd].
    apply fold_left_map_pointwise.
  - left. apply analyze_aborts; assumption.
Qed.

(** X9: whatever the store holds and however the run ends, [analyze]
    inserts and deletes no row and writes none of the columns outside the
    eight enrichment columns; [is_swap] is never cleared: a row marked
    before the run is marked after it. *)
Theorem analyze_writes_enrichment_columns_only
        (self : SwapAnalyzer datetime) utcnow conn :
  map other_columns (store_after (analyze fromisoformat self utcnow conn)) =
  map other_columns conn /\
  forall i t t',
    nth_error conn i = Some t ->
    nth_error (store_after (analyze fromisoformat self utcnow conn)) i = Some t' ->
    is_swap t = 1%Z -> is_swap t' = 1%Z.
Proof.
  destruct (store_after_cases self utcnow conn) as [->|[cur ->]].
  - split; [reflexivity|]. intros i t t' H1 H2. congruence.
  - split.
    + rewrite map_map. apply map_ext. intros t.
      apply (other_columns_after_groups self utcnow cur).
    + intros i t t' H1 H2 Hs. rewrite nth_error_map, H1 in H2.
      injection H2 as <-. apply (other_columns_after_groups self utcnow cur); assumption.
Qed.

(** X10: a row that is not an incoming leg never receives valuation: its
    seven valuation columns after the run are those it had before, in a
    swap group or not (row ids distinct). *)
Theorem non_incoming_rows_keep_valuation
        (self : SwapAnalyzer datetime) utcnow conn i t :
  NoDup (map id conn) ->
  nth_error conn i = Some t ->
  _is_incoming self (select_row t) = false ->
  exists t',
    nth_error (store_after (analyze fromisoformat self utcnow conn)) i = Some t' /\
    enrichment_of t' = enrichment_of t.
Proof.
  intros Hnd Hi Hinc.
  destruct (completes (analyze fromisoformat self utcnow conn)) eqn:Hc.
  - destruct (analyze_completes self utcnow conn Hnd Hc) as [cur [_ ->]].
    rewrite nth_error_map, Hi. cbn [option_map]. eexists. split; [reflexivity|].
    destruct (is_swap_group self conn (tx_hash t)) eqn:Hg.
    + rewrite (final_row_swap self utcnow cur conn t Hnd (nth_error_In _ _ Hi) Hg).
      destruct (valuation_of _ _ _ _ _ _) as [[[sc usd] price] amt].
      rewrite Hinc. destruct (_is_outgoing self (select_row t)); reflexivity.
    + rewrite final_row_skipped by assumption. reflexivity.
  - rewrite analyze_aborts by assumption. exists t. auto.
Qed.

(** ** The trace of a run *)

Lemma group_trace_skipped (self : SwapAnalyzer datetime) utcnow g :
  qualifies self g = false -> group_trace fromisoformat self utcnow g = [].
Proof.
  destruct g as [h rows]. unfold qualifies, group_trace. cbn [snd].
  intros H. apply negb_false_iff in H. rewrite H. reflexivity.
Qed.

Lemma row_after_group_skipped (self : SwapAnalyzer datetime) utcnow cur g t :
  qualifies self g = false -> row_after_group fromisoformat self utcnow cur g t = t.
Proof.
  destruct g as [h rows]. unfold qualifies, row_after_group. cbn [snd].
  intros H. apply negb_false_iff in H. rewrite H. reflexivity.
Qed.

Lemma listed_group_qualifies (self : SwapAnalyzer datetime) conn g :
  In g (_group_transactions conn) ->
  qualifies self g = is_swap_group self conn (fst g).
Proof.
  destruct g as [h rows]. intros Hin.
  apply (group_In_get _ _ _ (group_transactions_NoDup conn)) in Hin.
  unfold qualifies, is_swap_group, outgoing_of, incoming_of, group_rows.
  cbn [fst snd]. rewrite Hin. rewrite negb_orb. reflexivity.
Qed.

(** X11: when no transaction hash has both an outgoing and an incoming
    leg, a run over a non-empty store leaves the store as it is, reports
    zero swaps and zero bitcoin, and its only contact with the oracle is
    the lookup of the current price. *)
Theorem run_without_swap_group (self : SwapAnalyzer datetime) utcnow conn p :
  conn <> [] ->
  get_current_price (cg_client self) "bitcoin" = inr p ->
  (forall h, is_swap_group self conn h = false) ->
  analyze fromisoformat self utcnow conn =
  (inr (mkSummary 0 0 0 p)%Qc, conn, [CallCurrentPrice "bitcoin"]).
Proof.
  intros Hne Hq Hno.
  assert (Hall : forall g, In g (_group_transactions conn) -> qualifies self g = false).
  { intros g Hg. rewrite (listed_group_qualifies self conn g Hg). apply Hno. }
  destruct (summary_of_run self utcnow conn p Hne Hq)
    as [s [Hs [Hn [Ha [Hp Hv]]]]].
  destruct (analyze_quote_loop self utcnow conn p Hne Hq) as [s' E].
  rewrite E in Hs. cbn [fst] in Hs. injection Hs as ->.
  assert (Hsum : s = mkSummary 0 0 0 p).
  { assert (Hf : filter (qualifies self) (_group_transactions conn) = []).
    { revert Hall. generalize (_group_transactions conn).
      induction l as [|g l IH]; intros Hall; simpl; [reflexivity|].
      rewrite (Hall g (or_introl eq_refl)). apply IH.
      intros g' Hg'. apply Hall. right; assumption. }
    assert (Hz : fold_right
                   (fun g acc => Qcplus (group_btc_amount fromisoformat self utcnow g) acc)
                   Decimal_zero (_group_transactions conn) = Decimal_zero).
    { revert Hall. generalize (_group_transactions conn).
      induction l as [|g l IH]; intros Hall; simpl; [reflexivity|].
      rewrite IH by (intros g' Hg'; apply Hall; right; assumption).
      unfold group_btc_amount. rewrite (Hall g (or_introl eq_refl)). qc_ring. }
    destruct s as [sd ba bv bp]. cbn in Hn, Ha, Hp, Hv. subst.
    rewrite Hf, Hz. f_equal. unfold Decimal_zero. ring. }
  assert (Hstore : forall l c,
             (forall g, In g l -> qualifies self g = false) ->
             fold_left (fun c g => map (row_after_group fromisoformat self utcnow p g) c)
                       l c = c).
  { induction l as [|g l IH]; intros c Hl; simpl; [reflexivity|].
    rewrite (map_ext _ (fun t => t)), map_id.
    - apply IH. intros g' Hg'. apply Hl. right; assumption.
    - intros t. apply row_after_group_skipped. apply Hl. left; reflexivity. }
  assert (Htr : forall l,
             (forall g, In g l -> qualifies self g = false) ->
             flat_map (group_trace fromisoformat self utcnow) l = []).
  { induction l as [|g l IH]; intros Hl; simpl; [reflexivity|].
    rewrite group_trace_skipped by (apply Hl; left; reflexivity). simpl.
    apply IH. intros g' Hg'. apply Hl. right; assumption. }
  rewrite E, Hsum, (Hstore _ conn Hall), (Htr _ Hall). reflexivity.
Qed.

Lemma snd_try_except A (m : T datetime A) (h : string -> T datetime A) :
  snd (try_except_CoinGeckoError m h) =
  snd m ++ match fst m with
           | inl (CoinGeckoError msg) => snd (h msg)
           | _ => []
           end.
Proof.
  unfold try_except_CoinGeckoError. destruct m as [[e|a] tr]; simpl.
  - destruct e; try (rewrite app_nil_r; reflexivity).
    destruct (h msg); reflexivity.
  - rewrite app_nil_r. reflexivity.
Qed.

Lemma of_answer_not_current A (ev : Event datetime) (a : string + A) :
  is_current_price_call ev = false ->
  filter is_current_price_call (snd (of_answer ev a)) = [].
Proof. intros H. destruct a; simpl; rewrite H; reflexivity. Qed.

Lemma resolve_coin_id_not_current (self : SwapAnalyzer datetime) ch a c :
  filter is_current_price_call (snd (_resolve_coin_id self ch a c)) = [].
Proof.
  unfold _resolve_coin_id. destruct (truthy_str c).
  - destruct (table_get (lower ch) COINGECKO_PLATFORMS_BY_CHAIN) as [pf|]; [|reflexivity].
    destruct (pf =? ""); [reflexivity|].
    apply of_answer_not_current. reflexivity.
  - destruct (table_get (upper (or_empty a)) SYMBOL_TO_COINGECKO_ID); reflexivity.
Qed.

Lemma price_component_not_current (self : SwapAnalyzer datetime) c ts it :
  filter is_current_price_call (snd (price_component self c ts it)) = [].
Proof.
  destruct it as [k a]. unfold price_component. rewrite snd_bind, filter_app.
  destruct (dict_get k c) as [ch|]; [|reflexivity].
  cbn [ret fst snd filter app]. rewrite snd_bind, filter_app, resolve_coin_id_not_current.
  destruct (fst (_resolve_coin_id self ch (fst k) (snd k))) as [e|coin]; [reflexivity|].
  rewrite snd_bind, filter_app. unfold call_get_price_at_timestamp.
  rewrite of_answer_not_current by reflexivity.
  destruct (fst (of_answer _ _)); reflexivity.
Qed.

Lemma price_components_not_current (self : SwapAnalyzer datetime) c ts items :
  forall comps,
    filter is_current_price_call (snd (price_components self c ts items comps)) = [].
Proof.
  induction items as [|it items IH]; intros comps; [reflexivity|].
  cbn [price_components]. rewrite snd_bind, filter_app, price_component_not_current.
  destruct (fst (price_component self c ts it)); [reflexivity|]. apply IH.
Qed.

Lemma bind_not_current A B (m : T datetime A) (f : A -> T datetime B) :
  filter is_current_price_call (snd m) = [] ->
  (forall a, filter is_current_price_call (snd (f a)) = []) ->
  filter is_current_price_call (snd (bind m f)) = [].
Proof.
  intros Hm Hf. rewrite snd_bind, filter_app, Hm.
  destruct (fst m); [reflexivity|apply Hf].
Qed.

Lemma try_except_not_current A (m : T datetime A) (h : string -> T datetime A) :
  filter is_current_price_call (snd m) = [] ->
  (forall msg, filter is_current_price_call (snd (h msg)) = []) ->
  filter is_current_price_call (snd (try_except_CoinGeckoError m h)) = [].
Proof.
  intros Hm Hh. rewrite snd_try_except, filter_app, Hm.
  destruct (fst m) as [[msg|msg|msg]|a]; try reflexivity. apply Hh.
Qed.

Lemma group_valuation_not_current (self : SwapAnalyzer datetime) now h rows outgoing :
  filter is_current_price_call
         (snd (group_valuation fromisoformat self now h rows outgoing)) = [].
Proof.
  unfold group_valuation. apply bind_not_current.
  - apply try_except_not_current.
    + unfold _build_spent_components. destruct (aggregate outgoing) as [g c].
      apply price_components_not_current.
    + intros msg. reflexivity.
  - intros comps. destruct (negb (is_nil comps)); [|reflexivity].
    apply bind_not_current; [|intros; reflexivity].
    apply try_except_not_current; [|intros; reflexivity].
    apply bind_not_current; [|intros; reflexivity].
    apply of_answer_not_current. reflexivity.
Qed.

Lemma group_trace_not_current (self : SwapAnalyzer datetime) utcnow g :
  filter is_current_price_call (group_trace fromisoformat self utcnow g) = [].
Proof.
  destruct g as [h rows]. unfold group_trace.
  destruct (is_nil _ || is_nil _); [reflexivity|].
  apply group_valuation_not_current.
Qed.

(** X12: a run looks up the current price at most once, and only that of
    bitcoin: never on an empty store, exactly once otherwise, however many
    groups qualify. *)
Theorem current_price_looked_up_once (self : SwapAnalyzer datetime) utcnow conn :
  filter is_current_price_call (trace_of (analyze fromisoformat self utcnow conn)) =
  if is_nil conn then [] else [CallCurrentPrice "bitcoin"].
Proof.
  destruct conn as [|t0 l0] eqn:Ec; [reflexivity|]. rewrite <- Ec.
  assert (Hne : conn <> []) by (rewrite Ec; discriminate).
  assert (Hn : is_nil conn = false) by (rewrite Ec; reflexivity).
  rewrite Hn.
  destruct (get_current_price (cg_client self) "bitcoin") as [msg|p] eqn:Hq.
  - rewrite (analyze_no_quote self utcnow conn msg Hne Hq). reflexivity.
  - destruct (analyze_quote_loop self utcnow conn p Hne Hq) as [s ->].
    unfold trace_of. cbn [snd filter is_current_price_call]. f_equal.
    induction (_group_transactions conn) as [|g l IH]; simpl; [reflexivity|].
    rewrite filter_app, group_trace_not_current, IH. reflexivity.
Qed.

End Properties.

(** * The store writer (src/src/db.py) *)

Lemma NoDup_map_injective {A B : Type} (f : A -> B) (l : list A) :
  (forall x y, f x = f y -> x = y) -> NoDup l -> NoDup (map f l).
Proof.
  intros Hf Hl. induction Hl as [|x l Hx _ IH]; simpl; constructor; auto.
  rewrite in_map_iff. intros [y [Hy Hin]]. apply Hf in Hy. subst. auto.
Qed.

Lemma unique_key_eqb_eq a b : unique_key_eqb a b = true <-> a = b.
Proof.
  destruct a as [[a1 a2] a3], b as [[b1 b2] b3]. unfold unique_key_eqb. simpl.
  rewrite !andb_true_iff, !String.eqb_eq. split.
  - intros [[-> ->] ->]. reflexivity.
  - intros H. inversion H. auto.
Qed.

Lemma key_present_In table k :
  existsb (fun t => unique_key_eqb (unique_key t) k) table = true <->
  In k (map unique_key table).
Proof.
  rewrite existsb_exists, in_map_iff. split.
  - intros [t [Hin He]]. apply unique_key_eqb_eq in He. eauto.
  - intros [t [He Hin]]. exists t. split; [exact Hin|]. now apply unique_key_eqb_eq.
Qed.

Lemma insert_or_ignore_cases env table v :
  insert_or_ignore env table v = table \/
  exists h, iv_tx_hash v = Some h /\
    ~ In (iv_chain v, h, iv_unique_id v) (map unique_key table) /\
    insert_or_ignore env table v =
    table ++ [new_row (next_rowid env (map id table)) (current_timestamp env) h v].
Proof.
  unfold insert_or_ignore. destruct (iv_tx_hash v) as [h|]; [|left; reflexivity].
  destruct (existsb _ table) eqn:E; [left; reflexivity|].
  right. exists h. repeat split.
  intros Hin. apply key_present_In in Hin. congruence.
Qed.

Lemma insert_or_ignore_present env table v h :
  iv_tx_hash v = Some h ->
  In (iv_chain v, h, iv_unique_id v)
     (map unique_key (insert_or_ignore env table v)).
Proof.
  intros Hh. unfold insert_or_ignore. rewrite Hh.
  destruct (existsb _ table) eqn:E.
  - now apply key_present_In.
  - rewrite map_app, in_app_iff. right. left. reflexivity.
Qed.

Lemma upsert_fold_appends env rows : forall table,
  exists news,
    fold_left (insert_or_ignore env) rows table = table ++ news /\
    Forall unanalysed news /\
    Forall (fun t => exists v, In v rows /\ chain t = iv_chain v) news.
Proof.
  induction rows as [|v rows IH]; intros table; simpl.
  - exists []. rewrite app_nil_r. repeat split; constructor.
  - destruct (IH (insert_or_ignore env table v)) as [news [E [Hu Hc]]].
    assert (Hc' : Forall (fun t => exists v0, (v = v0 \/ In v0 rows) /\
                                   chain t = iv_chain v0) news).
    { eapply Forall_impl; [|exact Hc]. intros t [v0 [Hin Ht]]. eauto. }
    destruct (insert_or_ignore_cases env table v) as [Hs|[h [_ [_ Hs]]]];
      rewrite Hs in *.
    + exists news. auto.
    + exists (new_row (next_rowid env (map id table)) (current_timestamp env) h v
              :: news).
      rewrite E, <- app_assoc. repeat split.
      * constructor; [split; reflexivity | exact Hu].
      * constructor; [exists v; split; [left|]; reflexivity | exact Hc'].
Qed.

Lemma events_values_spec env ch events : forall rows,
  events_values env ch events = inr rows ->
  Forall2 (fun e v => event_values env ch e = inr v) events rows.
Proof.
  induction events as [|e events IH]; simpl; intros rows H.
  - injection H as <-. constructor.
  - destruct (event_values env ch e) as [err|v] eqn:Ev; [discriminate|].
    destruct (events_values env ch events) as [err|vs]; [discriminate|].
    injection H as <-. constructor; auto.
Qed.

Lemma event_values_key env ch e v :
  event_values env ch e = inr v ->
  values_key v = (ch, ev_hash e, or_empty (ev_uniqueId e)).
Proof.
  unfold event_values. intros H.
  destruct (if truthy_str (ev_blockNum e) then _ else _) as [err|bn];
    [discriminate|].
  destruct (ev_metadata e); try discriminate; injection H as <-; reflexivity.
Qed.

Lemma events_values_ext env env' ch events :
  (forall s, int16 env' s = int16 env s) ->
  events_values env' ch events = events_values env ch events.
Proof.
  intros Hi. induction events as [|e events IH]; simpl; [reflexivity|].
  rewrite IH. unfold event_values. rewrite Hi. reflexivity.
Qed.

(** X13: [upsert_events] returns the number of events it was given, not
    the number of rows written; the rows already stored stay where they
    are, with every column (the valuation of an earlier analysis included),
    and what is added comes after them, on the chain given, not marked as a
    swap and without valuation. *)
Theorem upsert_keeps_stored_rows env ch events table n table' :
  upsert_events env ch events table = inr (n, table') ->
  n = List.length events /\
  exists news,
    table' = table ++ news /\
    (List.length news <= n)%nat /\
    Forall unanalysed news /\
    Forall (fun t => chain t = ch) news.
Proof.
  unfold upsert_events. intros H.
  destruct events as [|e events].
  - injection H as <- <-. split; [reflexivity|]. exists [].
    rewrite app_nil_r. repeat split; auto.
  - destruct (events_values env ch (e :: events)) as [err|rows] eqn:Er;
      [discriminate|].
    injection H as <- <-.
    pose proof (events_values_spec _ _ _ _ Er) as F2.
    split; [symmetry; exact (Forall2_length F2)|].
    destruct (upsert_fold_appends env rows table) as [news [E [Hu Hc]]].
    exists news. repeat split; auto.
    + clear -E. revert table news E.
      induction rows as [|v rows IH]; simpl; intros table news E.
      * assert (news = []) by
          (apply (app_inv_head table); rewrite app_nil_r; auto).
        subst. simpl. lia.
      * destruct (insert_or_ignore_cases env table v) as [Hs|[h [_ [_ Hs]]]];
          rewrite Hs in E.
        -- specialize (IH _ _ E). lia.
        -- destruct (upsert_fold_appends env rows
                       (table ++ [new_row (next_rowid env (map id table))
                                          (current_timestamp env) h v]))
             as [news' [E' _]].
           rewrite E' in E. rewrite <- app_assoc in E.
           apply app_inv_head in E. subst news. simpl.
           specialize (IH _ _ E'). lia.
    + eapply Forall_impl; [|exact Hc]. intros t [v [Hin Ht]]. rewrite Ht.
      clear -F2 Hin. induction F2 as [|e0 v0 es vs Hv _ IH]; [destruct Hin|].
      destruct Hin as [<-|Hin]; [|auto].
      apply event_values_key in Hv. unfold values_key in Hv. congruence.
Qed.

Lemma insert_or_ignore_distinct env table v :
  rowid_is_fresh env ->
  NoDup (map id table) -> NoDup (map unique_key table) ->
  NoDup (map id (insert_or_ignore env table v)) /\
  NoDup (map unique_key (insert_or_ignore env table v)).
Proof.
  intros Hf Hi Hk.
  destruct (insert_or_ignore_cases env table v) as [Hs|[h [_ [Hn Hs]]]];
    rewrite Hs; [auto|].
  rewrite !map_app. simpl. split.
  - apply NoDup_app_remove_l with (l := []). simpl.
    apply Permutation_NoDup with (l := next_rowid env (map id table) :: map id table).
    + apply Permutation_cons_append.
    + constructor; [|exact Hi]. intros Hin. apply Hf in Hin. lia.
  - apply Permutation_NoDup
      with (l := (iv_chain v, h, iv_unique_id v) :: map unique_key table).
    + apply Permutation_cons_append.
    + constructor; assumption.
Qed.


Lemma upsert_fold_keys_present env rows : forall table v h,
  In v rows -> iv_tx_hash v = Some h ->
  In (iv_chain v, h, iv_unique_id v)
     (map unique_key (fold_left (insert_or_ignore env) rows table)).
Proof.
  induction rows as [|v0 rows IH]; simpl; intros table v h Hin Hh;
    [destruct Hin|].
  destruct Hin as [->|Hin]; [|eauto].
  destruct (upsert_fold_appends env rows (insert_or_ignore env table v))
    as [news [E _]].
  rewrite E, map_app, in_app_iff. left.
  now apply insert_or_ignore_present.
Qed.

Lemma upsert_fold_all_present env rows : forall table,
  (forall v h, In v rows -> iv_tx_hash v = Some h ->
     In (iv_chain v, h, iv_unique_id v) (map unique_key table)) ->
  fold_left (insert_or_ignore env) rows table = table.
Proof.
  induction rows as [|v rows IH]; simpl; intros table H; [reflexivity|].
  assert (Hs : insert_or_ignore env table v = table).
  { unfold insert_or_ignore. destruct (iv_tx_hash v) as [h|] eqn:Eh;
      [|reflexivity].
    assert (Hp : In (iv_chain v, h, iv_unique_id v) (map unique_key table))
      by (apply H; auto).
    apply key_present_In in Hp. rewrite Hp. reflexivity. }
  rewrite Hs. apply IH. intros v' h Hin Hh. apply H; auto.
Qed.

(** X15: writing the same events a second time adds nothing: the table
    is left as the first call left it, and the same count is returned.  The
    second call may happen at another time and draw other rowids. *)
Theorem upsert_twice_adds_nothing env env' ch events table n table' :
  (forall s, int16 env' s = int16 env s) ->
  upsert_events env ch events table = inr (n, table') ->
  upsert_events env' ch events table' = inr (n, table').
Proof.
  unfold upsert_events. intros Hi H.
  destruct events as [|e events].
  - injection H as <- <-. reflexivity.
  - rewrite (events_values_ext env env' ch (e :: events) Hi).
    destruct (events_values env ch (e :: events)) as [err|rows];
      [discriminate|].
    injection H as <- <-.
    rewrite upsert_fold_all_present; [reflexivity|].
    intros v h Hin Hh. now apply upsert_fold_keys_present.
Qed.

Lemma upsert_fold_stores env rows : forall table v h,
  NoDup (map values_key rows) ->
  In v rows -> iv_tx_hash v = Some h ->
  ~ In (iv_chain v, h, iv_unique_id v) (map unique_key table) ->
  exists rowid,
    In (new_row rowid (current_timestamp env) h v)
       (fold_left (insert_or_ignore env) rows table).
Proof.
  induction rows as [|v0 rows IH]; simpl; intros table v h Hnd Hin Hh Hn;
    [destruct Hin|].
  inversion Hnd as [|k ks Hk0 Hnd']. subst.
  destruct Hin as [->|Hin].
  - destruct (upsert_fold_appends env rows (insert_or_ignore env table v))
      as [news [E _]].
    exists (next_rowid env (map id table)). rewrite E, in_app_iff. left.
    unfold insert_or_ignore. rewrite Hh.
    destruct (existsb _ table) eqn:Ex.
    + apply key_present_In in Ex. contradiction.
    + rewrite in_app_iff. right. left. reflexivity.
  - apply IH; auto.
    destruct (insert_or_ignore_cases env table v0) as [Hs|[h0 [Hh0 [_ Hs]]]];
      rewrite Hs; [exact Hn|].
    rewrite map_app, in_app_iff. intros [Hp|[Hp|[]]]; [contradiction|].
    apply Hk0. unfold new_row, unique_key in Hp. simpl in Hp.
    injection Hp as Hc Hhh Hu.
    replace (values_key v0) with (values_key v);
      [apply in_map; exact Hin|].
    unfold values_key. rewrite Hh, Hh0. congruence.
Qed.


(** * The fetch filters (src/fetch_and_store.py) *)

Lemma event_key_eqb_eq a b : event_key_eqb a b = true <-> a = b.
Proof.
  destruct a as [a1 a2], b as [b1 b2]. unfold event_key_eqb. simpl.
  rewrite andb_true_iff, opt_string_eqb_eq, String.eqb_eq. split.
  - intros [-> ->]. reflexivity.
  - intros H. inversion H. auto.
Qed.

Lemma seen_In k seen : existsb (event_key_eqb k) seen = true <-> In k seen.
Proof.
  rewrite existsb_exists. split.
  - intros [x [Hin He]]. apply event_key_eqb_eq in He. subst. exact Hin.
  - intros Hin. exists k. split; [exact Hin|]. now apply event_key_eqb_eq.
Qed.

Lemma seen_ext k seen1 seen2 :
  (forall k', In k' seen1 <-> In k' seen2) ->
  existsb (event_key_eqb k) seen1 = existsb (event_key_eqb k) seen2.
Proof.
  intros H. apply eq_true_iff_eq. rewrite !seen_In. apply H.
Qed.

Lemma unique_from_ext events : forall seen1 seen2,
  (forall k, In k seen1 <-> In k seen2) ->
  unique_from seen1 events = unique_from seen2 events.
Proof.
  induction events as [|e events IH]; simpl; intros seen1 seen2 H;
    [reflexivity|].
  rewrite (seen_ext _ _ _ H). destruct (existsb _ seen2); [auto|].
  f_equal. apply IH. intros k. simpl. rewrite H. reflexivity.
Qed.

Lemma unique_from_app l1 : forall seen l2,
  unique_from seen (l1 ++ l2) =
  unique_from seen l1 ++ unique_from (map event_key l1 ++ seen) l2.
Proof.
  induction l1 as [|e l1 IH]; simpl; intros seen l2; [reflexivity|].
  destruct (existsb (event_key_eqb (event_key e)) seen) eqn:E.
  - rewrite IH. f_equal. apply unique_from_ext. intros k. simpl.
    rewrite !in_app_iff. apply seen_In in E. split; [auto|].
    intros [<-|H]; auto.
  - simpl. f_equal. rewrite IH. f_equal. apply unique_from_ext.
    intros k. simpl. rewrite !in_app_iff. simpl. tauto.
Qed.

Lemma unique_from_sound events : forall seen,
  NoDup (map event_key (unique_from seen events)) /\
  forall e, In e (unique_from seen events) ->
            In e events /\ ~ In (event_key e) seen.
Proof.
  induction events as [|e events IH]; simpl; intros seen.
  - split; [constructor | intros e []].
  - destruct (existsb (event_key_eqb (event_key e)) seen) eqn:E.
    + destruct (IH seen) as [Hn Hi]. split; [exact Hn|].
      intros e' He'. destruct (Hi e' He'). auto.
    + destruct (IH (event_key e :: seen)) as [Hn Hi]. split.
      * simpl. constructor; [|exact Hn].
        rewrite in_map_iff. intros [e' [Hk He']].
        destruct (Hi e' He') as [_ Hns]. apply Hns. left. auto.
      * intros e' [<-|He'].
        -- split; [auto|]. intros Hs. apply seen_In in Hs. congruence.
        -- destruct (Hi e' He') as [? Hns]. split; [auto|].
           intros Hs. apply Hns. right. exact Hs.
Qed.

Lemma unique_from_complete events : forall seen e,
  In e events ->
  In (event_key e) seen \/
  exists e', In e' (unique_from seen events) /\ event_key e' = event_key e.
Proof.
  induction events as [|e0 events IH]; simpl; intros seen e Hin;
    [destruct Hin|].
  destruct (existsb (event_key_eqb (event_key e0)) seen) eqn:E.
  - destruct Hin as [<-|Hin]; [left; now apply seen_In | auto].
  - destruct Hin as [<-|Hin].
    + right. exists e0. split; [left|]; reflexivity.
    + destruct (IH (event_key e0 :: seen) e Hin) as [[Hk|Hs]|[e' [He' Hk]]].
      * right. exists e0. split; [left; reflexivity | exact Hk].
      * left. exact Hs.
      * right. exists e'. split; [right|]; assumption.
Qed.

Lemma unique_from_fixed events : forall seen,
  NoDup (map event_key events) ->
  (forall e, In e events -> ~ In (event_key e) seen) ->
  unique_from seen events = events.
Proof.
  induction events as [|e events IH]; simpl; intros seen Hn Hs;
    [reflexivity|].
  inversion Hn as [|k ks Hk Hn']. subst.
  destruct (existsb (event_key_eqb (event_key e)) seen) eqn:E.
  - apply seen_In in E. exfalso. apply (Hs e); auto.
  - f_equal. apply IH; [exact Hn'|].
    intros e' He' [Hk'|Hs']; [|apply (Hs e'); auto].
    apply Hk. rewrite Hk'. now apply in_map.
Qed.

(** X17: [_unique_by_tx_and_unique_id] returns events of the input with
    pairwise distinct (hash, uniqueId or the empty string) keys, one for
    each key of the input, and the one it keeps is the first with that key,
    in the order of the input; applied to its own result it changes
    nothing. *)
Theorem unique_by_tx_and_unique_id_keeps_first events :
  NoDup (map event_key (_unique_by_tx_and_unique_id events)) /\
  (forall e, In e (_unique_by_tx_and_unique_id events) -> In e events) /\
  (forall e, In e events ->
     exists e', In e' (_unique_by_tx_and_unique_id events) /\
                event_key e' = event_key e) /\
  (forall l1 e l2,
     events = l1 ++ e :: l2 ->
     ~ In (event_key e) (map event_key l1) ->
     exists rest, _unique_by_tx_and_unique_id events =
                  _unique_by_tx_and_unique_id l1 ++ e :: rest) /\
  _unique_by_tx_and_unique_id (_unique_by_tx_and_unique_id events) =
  _unique_by_tx_and_unique_id events.
Proof.
  unfold _unique_by_tx_and_unique_id.
  destruct (unique_from_sound events []) as [Hn Hi].
  split; [exact Hn|]. split; [intros e He; now destruct (Hi e He)|].
  split; [|split].
  - intros e He. destruct (unique_from_complete events [] e He) as [[]|H].
    exact H.
  - intros l1 e l2 -> Hk. rewrite unique_from_app. simpl.
    rewrite app_nil_r.
    destruct (existsb (event_key_eqb (event_key e)) (map event_key l1)) eqn:E.
    + apply seen_In in E. contradiction.
    + eauto.
  - apply unique_from_fixed; [exact Hn | intros e _ []].
Qed.

Lemma filter_keeps_keys_distinct (keep : AlchemyEvent -> bool) events :
  NoDup (map event_key events) ->
  NoDup (map event_key (filter keep events)).
Proof.
  induction events as [|e events IH]; simpl; intros Hkeys; [constructor|].
  inversion Hkeys as [|k ks Hfresh Hrest]. subst.
  destruct (keep e); simpl; [|auto]. constructor; [|auto].
  intros Hin. apply in_map_iff in Hin. destruct Hin as [e' [Hk He']].
  apply filter_In in He'. apply Hfresh. rewrite <- Hk.
  apply in_map. tauto.
Qed.

Lemma category_allowed_iff e :
  category_allowed e = true <->
  lower (or_empty (ev_category e)) = "external" \/
  lower (or_empty (ev_category e)) = "erc20".
Proof.
  unfold category_allowed, ALLOWED_CATEGORIES. simpl.
  rewrite !orb_true_iff, !String.eqb_eq. intuition congruence.
Qed.

(** X18: what [fetch_all_for_chain] returns from the transfers fetched in
    the two directions: events with pairwise distinct (hash, uniqueId)
    keys, so a transfer reported in both directions is returned once; each
    is one of the fetched transfers, of category external or erc20 in any
    letter case, and not spam; and a fetched transfer is returned exactly
    when it is the first with its key and passes the two filters. *)
Theorem fetch_all_for_chain_distinct_allowed env url_like incoming outgoing ch :
  let merged := fetch_all_for_chain env url_like incoming outgoing ch in
  NoDup (map event_key merged) /\
  (forall e, In e merged ->
     (In e incoming \/ In e outgoing) /\
     (lower (or_empty (ev_category e)) = "external" \/
      lower (or_empty (ev_category e)) = "erc20") /\
     is_spam_event env url_like e ch = false) /\
  (forall e, In e merged <->
     In e (_unique_by_tx_and_unique_id (incoming ++ outgoing)) /\
     category_allowed e = true /\
     is_spam_event env url_like e ch = false).
Proof.
  unfold fetch_all_for_chain, _apply_spam_filters, _filter_allowed_categories.
  cbv zeta.
  assert (Hiff : forall e,
    In e (filter (fun e => negb (is_spam_event env url_like e ch))
            (filter category_allowed
               (_unique_by_tx_and_unique_id (incoming ++ outgoing)))) <->
    In e (_unique_by_tx_and_unique_id (incoming ++ outgoing)) /\
    category_allowed e = true /\ is_spam_event env url_like e ch = false).
  { intros e. rewrite !filter_In, negb_true_iff. tauto. }
  split; [|split].
  - apply filter_keeps_keys_distinct, filter_keeps_keys_distinct.
    unfold _unique_by_tx_and_unique_id.
    now destruct (unique_from_sound (incoming ++ outgoing) []).
  - intros e He. apply Hiff in He. destruct He as [Hu [Hc Hs]].
    unfold _unique_by_tx_and_unique_id in Hu.
    destruct (unique_from_sound (incoming ++ outgoing) []) as [_ Hi].
    destruct (Hi e Hu) as [Hin _]. apply in_app_iff in Hin.
    split; [exact Hin|]. split; [now apply category_allowed_iff | exact Hs].
  - exact Hiff.
Qed.

(** * The spam rules (src/src/spam_filters.py) *)

Lemma under_dust_never env e ch : _under_dust env e ch = false.
Proof.
  unfold _under_dust, DUST_WEI_THRESHOLDS. cbn [dust_get].
  destruct ("ethereum" =? ch); [reflexivity|].
  destruct ("base" =? ch); [reflexivity|].
  destruct ("arbitrum" =? ch); reflexivity.
Qed.

Lemma value_is_zero_iff e :
  _value_is_zero e = true <-> ev_value e = Some Decimal_zero.
Proof.
  unfold _value_is_zero. destruct (ev_value e) as [v|].
  - split.
    + intros H. f_equal. now apply Qc_eq_bool_correct.
    + intros H. injection H as ->. reflexivity.
  - split; discriminate.
Qed.

Lemma keyword_found_iff a :
  existsb (fun k => contains (lower k) a) SPAM_KEYWORDS = false <->
  forall k, In k SPAM_KEYWORDS -> contains k a = false.
Proof.
  assert (Hl : forall k, In k SPAM_KEYWORDS -> lower k = k).
  { intros k Hk. unfold SPAM_KEYWORDS in Hk. simpl in Hk.
    repeat (destruct Hk as [<-|Hk]; [reflexivity|]). destruct Hk. }
  split.
  - intros H k Hk. rewrite <- (Hl k Hk).
    destruct (contains (lower k) a) eqn:E; [|reflexivity].
    rewrite <- H. symmetry. apply existsb_exists. eauto.
  - intros H. apply not_true_is_false. intros Hx.
    apply existsb_exists in Hx. destruct Hx as [k [Hk Hc]].
    rewrite (Hl k Hk), (H k Hk) in Hc. discriminate.
Qed.

(** X19: with the thresholds of src/src/config.py the dust rule never
    fires, so the verdict of [is_spam_event] depends neither on the chain
    nor on the raw value of the event. *)
Theorem spam_verdict_ignores_chain env env' url_like e ch ch' raw :
  _under_dust env e ch = false /\
  is_spam_event env url_like e ch =
  is_spam_event env' url_like
    (mkEvent (ev_blockNum e) raw (ev_hash e) (ev_uniqueId e) (ev_metadata e)
             (ev_blockTimestamp e) (ev_from e) (ev_to e) (ev_asset e)
             (ev_value e) (ev_category e) (ev_erc721TokenId e)
             (ev_erc1155Metadata e) (ev_json e)) ch'.
Proof.
  split; [apply under_dust_never|].
  unfold is_spam_event. rewrite !under_dust_never. reflexivity.
Qed.

(** X20: an event is kept by [is_spam_event] exactly when its value is
    not zero and its asset is either missing or empty, or else matches the
    allowlist pattern, contains none of the keywords once lower-cased, and
    does not look like a URL. *)
Theorem is_spam_event_characterised env url_like e ch :
  is_spam_event env url_like e ch = false <->
  ev_value e <> Some Decimal_zero /\
  (or_empty (ev_asset e) = "" \/
   (asset_allowed_match (or_empty (ev_asset e)) = true /\
    (forall k, In k SPAM_KEYWORDS ->
       contains k (lower (or_empty (ev_asset e))) = false) /\
    url_like (lower (or_empty (ev_asset e))) = false)).
Proof.
  unfold is_spam_event, EXCLUDE_ZERO_VALUE. rewrite under_dust_never.
  cbv zeta. simpl andb.
  unfold _asset_has_url_or_keywords, _asset_is_weird. cbv zeta.
  set (asset := or_empty (ev_asset e)).
  destruct (_value_is_zero e) eqn:Ez.
  - apply value_is_zero_iff in Ez. split; [discriminate|]. intros [H _].
    contradiction.
  - assert (Hz : ev_value e <> Some Decimal_zero).
    { intros H. apply value_is_zero_iff in H. congruence. }
    destruct (asset =? "") eqn:Ea.
    + apply String.eqb_eq in Ea. rewrite Ea. simpl. split; auto.
    + assert (Hne : asset <> "") by now apply String.eqb_neq.
      assert (Hl : (lower asset =? "") = false).
      { apply String.eqb_neq. intros H. apply Hne. now apply lower_empty. }
      rewrite Hl.
      destruct (existsb _ SPAM_KEYWORDS) eqn:Ek.
      * split; [discriminate|]. intros [_ [H|[_ [H _]]]]; [contradiction|].
        apply (proj2 (keyword_found_iff (lower asset))) in H. congruence.
      * pose proof (proj1 (keyword_found_iff (lower asset)) Ek) as Hk.
        destruct (url_like (lower asset)) eqn:Eu.
        -- split; [discriminate|].
           intros [_ [H|[_ [_ H]]]]; [contradiction | discriminate].
        -- destruct (asset_allowed_match asset) eqn:Em; simpl.
           ++ split; auto.
           ++ split; [discriminate|].
              intros [_ [H|[H _]]]; [contradiction | discriminate].
Qed.

Lemma endswith_newline_app s :
  endswith_newline (s ++ String "010" "") = true.
Proof.
  induction s as [|c s IH]; [reflexivity|].
  simpl. destruct (s ++ String "010" "")%string eqn:E; [|exact IH].
  destruct s; discriminate.
Qed.

Lemma allowed_body_no_newline s :
  allowed_body s = true -> endswith_newline s = false.
Proof.
  unfold allowed_body. rewrite !andb_true_iff. intros [_ H].
  induction s as [|c s IH]; [reflexivity|].
  simpl in H. apply andb_true_iff in H. destruct H as [Hc Hs].
  simpl. destruct s as [|d s]; [|auto].
  destruct (Ascii.eqb c (ascii_of_nat 10)) eqn:E; [|reflexivity].
  apply Ascii.eqb_eq in E. subst c. discriminate.
Qed.

(** X21: the allowlist pattern is anchored with [$], which also matches
    before a final line feed: a symbol of one to sixteen allowed characters
    passes [_asset_is_weird] with or without one line feed after it, and
    does not pass with two. *)
Theorem asset_allowlist_tolerates_final_newline (s : string) :
  allowed_body s = true ->
  _asset_is_weird s = false /\
  _asset_is_weird (s ++ String "010" "") = false /\
  _asset_is_weird (s ++ String "010" (String "010" "")) = true.
Proof.
  intros H.
  assert (Hne : forall t, ((s ++ t)%string =? "") = false).
  { intros t. apply String.eqb_neq. destruct s; [discriminate H|discriminate]. }
  unfold _asset_is_weird, asset_allowed_match. split; [|split].
  - destruct (s =? "") eqn:E; [reflexivity|]. rewrite H. reflexivity.
  - rewrite Hne, endswith_newline_app, drop_last_app, H.
    rewrite orb_true_r. reflexivity.
  - rewrite Hne.
    assert (Happ : forall t : string,
              (t ++ String "010" (String "010" ""))%string =
              ((t ++ String "010" "") ++ String "010" "")%string)
      by (induction t as [|c t IH]; simpl; [|rewrite IH]; reflexivity).
    rewrite Happ.
    rewrite endswith_newline_app, drop_last_app.
    assert (Hb : forall t, allowed_body (t ++ String "010" "") = false).
    { intros t. unfold allowed_body. apply andb_false_iff. right.
      induction t as [|c t IH]; [reflexivity|].
      simpl. rewrite IH. apply andb_false_r. }
    rewrite !Hb. reflexivity.
Qed.

(** * The CoinGecko client (src/src/coingecko.py) *)

Lemma price_key_eqb_refl k : CoinGecko.price_key_eqb k k = true.
Proof.
  unfold CoinGecko.price_key_eqb. now rewrite String.eqb_refl, Z.eqb_refl.
Qed.

Lemma contract_key_eqb_refl k : CoinGecko.contract_key_eqb k k = true.
Proof.
  unfold CoinGecko.contract_key_eqb. now rewrite !String.eqb_refl.
Qed.

Lemma cache_get_set_same {K V : Type} (eqb : K -> K -> bool) k (v : V) d :
  eqb k k = true ->
  CoinGecko.cache_get eqb k (CoinGecko.cache_set eqb k v d) = Some v.
Proof.
  intros Hr. induction d as [|[k' v'] d IH]; simpl.
  - rewrite Hr. reflexivity.
  - destruct (eqb k' k) eqn:E; simpl; rewrite E; auto.
Qed.

Lemma cache_get_set_other {K V : Type} (eqb : K -> K -> bool) k k' (v v' : V) d :
  CoinGecko.cache_get eqb k d = Some v ->
  CoinGecko.cache_get eqb k' d = None ->
  CoinGecko.cache_get eqb k (CoinGecko.cache_set eqb k' v' d) = Some v.
Proof.
  induction d as [|[k0 v0] d IH]; simpl; [discriminate|].
  intros Hk Hk'. destruct (eqb k0 k') eqn:E'; [discriminate|].
  simpl. destruct (eqb k0 k); auto.
Qed.

Lemma price_cache_grows http self u k v :
  CoinGecko.cache_get CoinGecko.price_key_eqb k (CoinGecko._price_cache self)
  = Some v ->
  CoinGecko.cache_get CoinGecko.price_key_eqb k
    (CoinGecko._price_cache (CoinGecko.client_after http self u)) = Some v.
Proof.
  intros H. destruct u as [p c|c ts|c]; simpl.
  - unfold CoinGecko.get_coin_id_by_contract.
    destruct (CoinGecko.cache_get _ _ (CoinGecko._contract_cache self));
      [exact H|].
    destruct (CoinGecko.contract_response http p c) as [m|o]; [exact H|].
    destruct (truthy_str o); exact H.
  - unfold CoinGecko.get_price_at_timestamp.
    destruct (CoinGecko.cache_get _ (c, ts) (CoinGecko._price_cache self))
      eqn:E; [exact H|].
    destruct (CoinGecko.range_response http c (ts - 900) (ts + 900))
      as [m|[[|s0 l]|]]; simpl; try exact H.
    now apply cache_get_set_other.
  - unfold CoinGecko.get_current_price.
    destruct (CoinGecko.simple_price_response http c) as [m|[x|]]; exact H.
Qed.

Lemma contract_cache_grows http self u k v :
  CoinGecko.cache_get CoinGecko.contract_key_eqb k
    (CoinGecko._contract_cache self) = Some v ->
  CoinGecko.cache_get CoinGecko.contract_key_eqb k
    (CoinGecko._contract_cache (CoinGecko.client_after http self u)) = Some v.
Proof.
  intros H. destruct u as [p c|c ts|c]; simpl.
  - unfold CoinGecko.get_coin_id_by_contract.
    destruct (CoinGecko.cache_get _ (p, lower c)
                (CoinGecko._contract_cache self)) eqn:E; [exact H|].
    destruct (CoinGecko.contract_response http p c) as [m|o]; [exact H|].
    destruct (truthy_str o); simpl; [|exact H].
    now apply cache_get_set_other.
  - unfold CoinGecko.get_price_at_timestamp.
    destruct (CoinGecko.cache_get _ _ (CoinGecko._price_cache self));
      [exact H|].
    destruct (CoinGecko.range_response http c (ts - 900) (ts + 900))
      as [m|[[|s0 l]|]]; exact H.
  - unfold CoinGecko.get_current_price.
    destruct (CoinGecko.simple_price_response http c) as [m|[x|]]; exact H.
Qed.

Lemma min_from_split unix_ts rest : forall best pre post,
  (forall s, In s pre ->
     (CoinGecko.distance unix_ts best < CoinGecko.distance unix_ts s)%Z) ->
  (forall s, In s post ->
     (CoinGecko.distance unix_ts best <= CoinGecko.distance unix_ts s)%Z) ->
  exists before after,
    pre ++ best :: post ++ rest =
    before ++ CoinGecko.min_from unix_ts best rest :: after /\
    (forall s, In s before ->
       (CoinGecko.distance unix_ts (CoinGecko.min_from unix_ts best rest)
        < CoinGecko.distance unix_ts s)%Z) /\
    (forall s, In s after ->
       (CoinGecko.distance unix_ts (CoinGecko.min_from unix_ts best rest)
        <= CoinGecko.distance unix_ts s)%Z).
Proof.
  induction rest as [|x rest IH]; simpl; intros best pre post Hpre Hpost.
  - exists pre, post. rewrite app_nil_r. auto.
  - destruct (CoinGecko.distance unix_ts x <? CoinGecko.distance unix_ts best)%Z
      eqn:E.
    + apply Z.ltb_lt in E.
      destruct (IH x (pre ++ best :: post) []) as [before [after [Eq H]]].
      * intros s Hs. apply in_app_iff in Hs.
        destruct Hs as [Hs|[<-|Hs]]; [apply Hpre in Hs|..|apply Hpost in Hs];
          lia.
      * intros s [].
      * exists before, after. split; [|exact H].
        rewrite <- Eq. simpl. rewrite <- app_assoc. reflexivity.
    + apply Z.ltb_ge in E.
      destruct (IH best pre (post ++ [x])) as [before [after [Eq H]]].
      * exact Hpre.
      * intros s Hs. apply in_app_iff in Hs.
        destruct Hs as [Hs|[<-|[]]]; [now apply Hpost | exact E].
      * exists before, after. split; [|exact H].
        rewrite <- Eq, <- app_assoc. reflexivity.
Qed.

(** X22: when the price of a coin at a time is not cached and the range
    request returns samples, [get_price_at_timestamp] sends that one
    request, for the quarter of an hour before and after the time, and
    answers the price of the sample whose time in whole seconds is closest
    to it, the first of them when several are equally close; the answer
    is then cached under the coin and the time. *)
Theorem price_at_timestamp_is_closest_sample http self coin_id unix_ts prices :
  CoinGecko.cache_get CoinGecko.price_key_eqb (coin_id, unix_ts)
    (CoinGecko._price_cache self) = None ->
  CoinGecko.range_response http coin_id (unix_ts - 900) (unix_ts + 900)
  = inr (Some prices) ->
  prices <> [] ->
  exists before sample after self',
    prices = before ++ sample :: after /\
    (forall s, In s before ->
       (CoinGecko.distance unix_ts sample < CoinGecko.distance unix_ts s)%Z) /\
    (forall s, In s after ->
       (CoinGecko.distance unix_ts sample <= CoinGecko.distance unix_ts s)%Z) /\
    CoinGecko.get_price_at_timestamp http self coin_id unix_ts =
    (inr (snd sample), self',
     [CoinGecko.GetMarketChartRange coin_id (unix_ts - 900) (unix_ts + 900)]) /\
    CoinGecko.cache_get CoinGecko.price_key_eqb (coin_id, unix_ts)
      (CoinGecko._price_cache self') = Some (snd sample) /\
    CoinGecko._contract_cache self' = CoinGecko._contract_cache self.
Proof.
  intros Hmiss Hresp Hne.
  destruct prices as [|first prices]; [contradiction|].
  destruct (min_from_split unix_ts prices first [] [])
    as [before [after [Eq [Hb Ha]]]]; try (intros s []).
  simpl in Eq.
  exists before, (CoinGecko.min_from unix_ts first prices), after.
  eexists. split; [exact Eq|]. split; [exact Hb|]. split; [exact Ha|].
  unfold CoinGecko.get_price_at_timestamp. rewrite Hmiss, Hresp.
  split; [reflexivity|]. simpl. split; [|reflexivity].
  apply cache_get_set_same, price_key_eqb_refl.
Qed.

Lemma price_answer_is_cached http self coin_id unix_ts price self' sent :
  CoinGecko.get_price_at_timestamp http self coin_id unix_ts
  = (inr price, self', sent) ->
  CoinGecko.cache_get CoinGecko.price_key_eqb (coin_id, unix_ts)
    (CoinGecko._price_cache self') = Some price.
Proof.
  unfold CoinGecko.get_price_at_timestamp.
  destruct (CoinGecko.cache_get _ _ (CoinGecko._price_cache self)) eqn:E.
  - intros H. injection H as <- <- _. exact E.
  - destruct (CoinGecko.range_response http coin_id (unix_ts - 900)
                (unix_ts + 900)) as [m|[[|s0 l]|]]; try discriminate.
    intros H. injection H as <- <- _. simpl.
    apply cache_get_set_same, price_key_eqb_refl.
Qed.

(** X23: once [get_price_at_timestamp] has answered for a coin and a
    time, it gives the same answer for them after any further use of the
    client, without sending a request and whatever the service would now
    reply. *)
Theorem cached_price_is_stable http self coin_id unix_ts price self' sent :
  CoinGecko.get_price_at_timestamp http self coin_id unix_ts
  = (inr price, self', sent) ->
  forall http' uses,
    CoinGecko.get_price_at_timestamp http'
      (CoinGecko.client_after_all http' self' uses) coin_id unix_ts
    = (inr price, CoinGecko.client_after_all http' self' uses, []).
Proof.
  intros H http' uses. apply price_answer_is_cached in H.
  unfold CoinGecko.client_after_all.
  revert self' H. induction uses as [|u uses IH]; simpl; intros self' H.
  - unfold CoinGecko.get_price_at_timestamp. rewrite H. reflexivity.
  - apply IH. now apply price_cache_grows.
Qed.

Lemma coin_id_answer_is_cached http self platform_id contract coin self' sent :
  CoinGecko.get_coin_id_by_contract http self platform_id contract
  = (inr coin, self', sent) ->
  CoinGecko.cache_get CoinGecko.contract_key_eqb (platform_id, lower contract)
    (CoinGecko._contract_cache self') = Some coin.
Proof.
  unfold CoinGecko.get_coin_id_by_contract.
  destruct (CoinGecko.cache_get _ _ (CoinGecko._contract_cache self)) eqn:E.
  - intros H. injection H as <- <- _. exact E.
  - destruct (CoinGecko.contract_response http platform_id contract)
      as [m|o]; [discriminate|].
    destruct (truthy_str o); [|discriminate].
    intros H. injection H as <- <- _. simpl.
    apply cache_get_set_same, contract_key_eqb_refl.
Qed.

(** X24: once [get_coin_id_by_contract] has answered for a platform and
    a contract address, it gives the same answer for that platform and any
    spelling of the address that differs in letter case only, after any
    further use of the client and without sending a request. *)
Theorem coin_id_cache_ignores_letter_case
        http self platform_id contract coin self' sent :
  CoinGecko.get_coin_id_by_contract http self platform_id contract
  = (inr coin, self', sent) ->
  forall http' uses contract',
    lower contract' = lower contract ->
    CoinGecko.get_coin_id_by_contract http'
      (CoinGecko.client_after_all http' self' uses) platform_id contract'
    = (inr coin, CoinGecko.client_after_all http' self' uses, []).
Proof.
  intros H http' uses contract' Hl. apply coin_id_answer_is_cached in H.
  unfold CoinGecko.client_after_all.
  revert self' H. induction uses as [|u uses IH]; simpl; intros self' H.
  - unfold CoinGecko.get_coin_id_by_contract. rewrite Hl, H. reflexivity.
  - apply IH. now apply contract_cache_grows.
Qed.

(** X25: a lookup that raises leaves both caches as they were, and it
    has sent its one request; so the next lookup of the same price, or of
    the same contract, sends the request again. *)
Theorem failed_lookup_is_not_cached http self :
  (forall coin_id unix_ts err self' sent,
     CoinGecko.get_price_at_timestamp http self coin_id unix_ts
     = (inl err, self', sent) ->
     self' = self /\
     sent = [CoinGecko.GetMarketChartRange coin_id (unix_ts - 900)
                                           (unix_ts + 900)] /\
     forall http',
       snd (CoinGecko.get_price_at_timestamp http' self' coin_id unix_ts)
       = sent) /\
  (forall platform_id contract err self' sent,
     CoinGecko.get_coin_id_by_contract http self platform_id contract
     = (inl err, self', sent) ->
     self' = self /\
     sent = [CoinGecko.GetContract platform_id contract] /\
     forall http',
       snd (CoinGecko.get_coin_id_by_contract http' self' platform_id contract)
       = sent).
Proof.
  split.
  - intros coin_id unix_ts err self' sent.
    unfold CoinGecko.get_price_at_timestamp.
    destruct (CoinGecko.cache_get _ _ (CoinGecko._price_cache self)) eqn:E;
      [discriminate|].
    assert (Hnext : forall http',
      snd (CoinGecko.get_price_at_timestamp http' self coin_id unix_ts) =
      [CoinGecko.GetMarketChartRange coin_id (unix_ts - 900) (unix_ts + 900)]).
    { intros http'. unfold CoinGecko.get_price_at_timestamp. rewrite E.
      destruct (CoinGecko.range_response http' coin_id (unix_ts - 900)
                  (unix_ts + 900)) as [m|[[|s0 l]|]]; reflexivity. }
    destruct (CoinGecko.range_response http coin_id (unix_ts - 900)
                (unix_ts + 900)) as [m|[[|s0 l]|]]; try discriminate;
      intros H; injection H as _ <- <-; auto.
  - intros platform_id contract err self' sent.
    unfold CoinGecko.get_coin_id_by_contract.
    destruct (CoinGecko.cache_get _ _ (CoinGecko._contract_cache self)) eqn:E;
      [discriminate|].
    assert (Hnext : forall http',
      snd (CoinGecko.get_coin_id_by_contract http' self platform_id contract) =
      [CoinGecko.GetContract platform_id contract]).
    { intros http'. unfold CoinGecko.get_coin_id_by_contract. rewrite E.
      destruct (CoinGecko.contract_response http' platform_id contract)
        as [m|o]; [reflexivity|]. destruct (truthy_str o); reflexivity. }
    destruct (CoinGecko.contract_response http platform_id contract)
      as [m|o].
    + intros H; injection H as _ <- <-; auto.
    + destruct (truthy_str o); [discriminate|].
      intros H; injection H as _ <- <-; auto.
Qed.

(** ** The properties on the sample data *)

(** The embedding runs the scenario of
    [test_swap_analysis_marks_and_values] to the figures the test asserts:
    two swaps, 0.04 BTC worth 1200 USD for the first, "MULTI" and 300 USD,
    3/260 BTC for the second, the gift left alone. *)
Example test_swap_analysis_marks_and_values :
  summary_figures (fst (fst sample_run)) =
  Some (2 # 1, 67 # 1300, 20100 # 13, 30000 # 1)%Q /\
  map row_figures (store_after sample_run) =
  [ (1%Z, None, None, None, None, None, None, None);
    (1%Z, Some "USDC", Some (1000 # 1), Some (1000 # 1), Some (25000 # 1),
     Some (1 # 25), Some (30000 # 1), Some (1200 # 1))%Q;
    (1%Z, None, None, None, None, None, None, None);
    (1%Z, None, None, None, None, None, None, None);
    (1%Z, Some "MULTI", None, Some (300 # 1), Some (26000 # 1),
     Some (3 # 260), Some (30000 # 1), Some (4500 # 13))%Q;
    (0%Z, None, None, None, None, None, None, None) ].
Proof. split; vm_compute; reflexivity. Qed.

Ltac distinct_ids :=
  vm_compute;
  repeat (constructor; [simpl; intuition discriminate|]);
  constructor.

Lemma swap_group_partition_legs_marked_witness :
  (_is_outgoing sample_analyzer (select_row (row_at 1 sample_run)) = true \/
   _is_incoming sample_analyzer (select_row (row_at 1 sample_run)) = true ->
   is_swap (row_at 1 sample_run) = 1%Z) /\
  (_is_outgoing sample_analyzer (select_row (row_at 1 sample_run)) = false ->
   _is_incoming sample_analyzer (select_row (row_at 1 sample_run)) = false ->
   In (row_at 1 sample_run) sample_store).
Proof.
  apply (swap_group_partition_legs_marked string day_of sample_analyzer sample_clock
           sample_store "0xswap1" (row_at 1 sample_run)).
  - distinct_ids.
  - vm_compute; reflexivity.
  - vm_compute; discriminate.
  - vm_compute; discriminate.
  - vm_compute. right; left; reflexivity.
  - vm_compute; reflexivity.
Defined.

(** C1 as stated fails: the third leg of transaction 0xswap1 belongs to a
    group with both partitions non-empty, involves the wallet on neither
    side, and is still [is_swap = 0] after the completed run. *)
Lemma foreign_leg_of_swap_group_not_marked :
  completes foreign_leg_run = true /\
  outgoing_of sample_analyzer store_with_foreign_leg "0xswap1" <> [] /\
  incoming_of sample_analyzer store_with_foreign_leg "0xswap1" <> [] /\
  In (row_at 2 foreign_leg_run) (store_after foreign_leg_run) /\
  tx_hash (row_at 2 foreign_leg_run) = "0xswap1" /\
  is_swap (row_at 2 foreign_leg_run) = 0%Z.
Proof.
  repeat split; try (vm_compute; discriminate); try (vm_compute; reflexivity).
  vm_compute. right; right; left; reflexivity.
Qed.


Lemma non_swap_group_rows_unchanged_witness :
  nth_error (store_after sample_run) 5 =
  Some (stored 6 "ethereum" "0xnoswap" "gift" day3 (Some "0xFriend") wallet
               (Some "ETH") (Some (dec 1 2)) None).
Proof.
  apply (non_swap_group_rows_unchanged string day_of sample_analyzer sample_clock
           sample_store 5).
  - distinct_ids.
  - reflexivity.
  - left. vm_compute; reflexivity.
Defined.

Lemma second_run_reproduces_enrichment_witness :
  completes (analyze day_of sample_analyzer later_clock (store_after sample_run)) =
  completes sample_run /\
  store_after (analyze day_of sample_analyzer later_clock (store_after sample_run)) =
  store_after sample_run.
Proof.
  apply (second_run_reproduces_enrichment string day_of sample_analyzer
           sample_clock later_clock sample_store).
  - distinct_ids.
  - intros h _ _ coin. simpl.
    rewrite !andb_false_r. reflexivity.
Defined.


Lemma spent_asset_and_amount_recorded_witness :
  match components_or_nil
          (fst (spent_components_of day_of sample_analyzer sample_clock
                                    sample_store "0xswap1")) with
  | [c] =>
      swap_spent_asset (row_at 1 sample_run) = Some (sc_asset c) /\
      swap_spent_amount (row_at 1 sample_run) = Some (sc_amount c) /\
      sc_amount c = sum_amounts (outgoing_of sample_analyzer sample_store "0xswap1") /\
      (forall r, In r (outgoing_of sample_analyzer sample_store "0xswap1") ->
                 counted r = true -> sc_asset c = or_empty (r_asset r))
  | _ =>
      swap_spent_asset (row_at 1 sample_run) = Some "MULTI" /\
      swap_spent_amount (row_at 1 sample_run) = None
  end.
Proof.
  apply (spent_asset_and_amount_recorded string day_of sample_analyzer sample_clock
           sample_store "0xswap1" (row_at 1 sample_run)).
  - distinct_ids.
  - vm_compute; reflexivity.
  - vm_compute; discriminate.
  - vm_compute; discriminate.
  - vm_compute; reflexivity.
  - vm_compute; discriminate.
  - vm_compute. right; left; reflexivity.
  - vm_compute; reflexivity.
  - vm_compute; reflexivity.
Defined.





Lemma empty_wallet_rejected_before_any_work_witness :
  SwapAnalyzer_init "0xWallet" "transactions.sqlite3" sample_client =
  inr (mkSwapAnalyzer (lower "0xWallet") "transactions.sqlite3" sample_client).
Proof.
  apply (proj2 (empty_wallet_rejected_before_any_work string day_of
                  "transactions.sqlite3" sample_client sample_clock sample_store)).
  discriminate.
Defined.

(** C9 as stated fails for a malformed wallet: the wallet of the tests is
    not an EVM address, the constructor accepts it, and the run reads the
    store and marks rows. *)
Lemma malformed_wallet_is_accepted :
  well_formed_address "0xWallet" = false /\
  completes (main day_of "0xWallet" "transactions.sqlite3" sample_client sample_clock
                  sample_store) = true /\
  is_swap (row_at 0 (main day_of "0xWallet" "transactions.sqlite3" sample_client
                          sample_clock sample_store)) = 1%Z /\
  is_swap (nth 0 sample_store no_row) = 0%Z.
Proof. repeat split; vm_compute; reflexivity. Qed.

(** ** The further properties on the sample data *)

Lemma wallet_match_is_case_insensitive_witness :
  (r_from_address (select_row (nth 0 sample_store no_row)) = None ->
   _is_outgoing sample_analyzer (select_row (nth 0 sample_store no_row)) = false) /\
  (r_to_address (select_row (nth 0 sample_store no_row)) = None ->
   _is_incoming sample_analyzer (select_row (nth 0 sample_store no_row)) = false) /\
  (forall a, r_from_address (select_row (nth 0 sample_store no_row)) = Some a ->
             (_is_outgoing sample_analyzer (select_row (nth 0 sample_store no_row))
              = true <-> lower a = lower "0xWallet")) /\
  (forall a, r_to_address (select_row (nth 0 sample_store no_row)) = Some a ->
             (_is_incoming sample_analyzer (select_row (nth 0 sample_store no_row))
              = true <-> lower a = lower "0xWallet")).
Proof.
  apply (wallet_match_is_case_insensitive string "0xWallet"
           "transactions.sqlite3" sample_client sample_analyzer
           (select_row (nth 0 sample_store no_row))).
  reflexivity.
Defined.

Lemma parse_timestamp_zulu_suffix_witness :
  _parse_timestamp day_of (Some "2024-01-01T00:00:00Z") =
  day_of "2024-01-01T00:00:00+00:00" /\
  _parse_timestamp day_of (Some "2024-01-01T00:00:00") =
  day_of "2024-01-01T00:00:00".
Proof.
  destruct (parse_timestamp_zulu_suffix string day_of "2024-01-01T00:00:00")
    as [Hz Hplain].
  split; [exact Hz|]. apply Hplain; [discriminate | reflexivity].
Defined.

Lemma resolve_coin_id_contract_takes_precedence_witness :
  snd (_resolve_coin_id sample_analyzer "ethereum" (Some "USDC")
                        (Some usdc_contract)) =
  [CallCoinIdByContract "ethereum" usdc_contract] /\
  _resolve_coin_id sample_analyzer "solana" (Some "USDC") (Some usdc_contract) =
  (inl (CoinGeckoError "Unsupported chain for CoinGecko mapping: solana"), []) /\
  snd (_resolve_coin_id sample_analyzer "ethereum" (Some "ETH") None) = [].
Proof.
  destruct (resolve_coin_id_contract_takes_precedence string sample_analyzer
              "ethereum" (Some "USDC") (Some usdc_contract)) as [He _].
  destruct (He eq_refl) as [_ [_ He']].
  destruct (resolve_coin_id_contract_takes_precedence string sample_analyzer
              "solana" (Some "USDC") (Some usdc_contract)) as [Hs _].
  destruct (Hs eq_refl) as [_ [Hs' _]].
  destruct (resolve_coin_id_contract_takes_precedence string sample_analyzer
              "ethereum" (Some "ETH") None) as [_ Hn].
  split; [exact (He' "ethereum" eq_refl)|].
  split; [exact (Hs' eq_refl) | exact (Hn eq_refl)].
Defined.

Lemma no_counted_leg_no_component_witness :
  _build_spent_components sample_analyzer [zero_leg] "2024-01-01" = (inr [], []).
Proof.
  apply (no_counted_leg_no_component string sample_analyzer [zero_leg]
           "2024-01-01").
  intros r [<-|[]]. reflexivity.
Defined.


Lemma summary_counts_qualifying_groups_witness :
  exists summary,
    fst (fst (analyze day_of sample_analyzer sample_clock sample_store))
    = inr summary /\
    swaps_detected summary =
    Q2Qc (inject_Z (Z.of_nat (List.length
                                (filter (qualifies sample_analyzer)
                                        (_group_transactions sample_store))))) /\
    btc_amount summary =
    fold_right (fun g acc =>
                  Qcplus (group_btc_amount day_of sample_analyzer sample_clock g) acc)
               Decimal_zero (_group_transactions sample_store) /\
    btc_price_current summary = dec 30000 1 /\
    btc_value_usd summary = Qcmult (btc_amount summary) (dec 30000 1).
Proof.
  apply (summary_counts_qualifying_groups string day_of sample_analyzer
           sample_clock sample_store (dec 30000 1)).
  - discriminate.
  - reflexivity.
Defined.

Lemma non_incoming_rows_keep_valuation_witness :
  exists t',
    nth_error (store_after (analyze day_of sample_analyzer sample_clock sample_store))
              0 = Some t' /\
    enrichment_of t' = enrichment_of (nth 0 sample_store no_row).
Proof.
  apply (non_incoming_rows_keep_valuation string day_of sample_analyzer
           sample_clock sample_store 0 (nth 0 sample_store no_row)).
  - distinct_ids.
  - reflexivity.
  - vm_compute; reflexivity.
Defined.

Lemma run_without_swap_group_witness :
  analyze day_of sample_analyzer sample_clock gift_store =
  (inr (mkSummary 0 0 0 (dec 30000 1))%Qc, gift_store,
   [CallCurrentPrice "bitcoin"]).
Proof.
  apply (run_without_swap_group string day_of sample_analyzer sample_clock
           gift_store (dec 30000 1)).
  - discriminate.
  - reflexivity.
  - intros h. unfold is_swap_group, outgoing_of, incoming_of, group_rows.
    let g := eval vm_compute in (_group_transactions gift_store) in
    change (_group_transactions gift_store) with g.
    cbn [group_get]. destruct ("0xnoswap" =? h); reflexivity.
Defined.

Lemma sample_next_rowid_fresh : rowid_is_fresh sample_env.
Proof.
  intros ids i Hin. simpl. unfold sample_next_rowid.
  induction ids as [|j ids IH]; [destruct Hin|].
  cbn [fold_right].
  pose proof (Z.le_max_l j (fold_right Z.max 0%Z ids)) as Hl.
  pose proof (Z.le_max_r j (fold_right Z.max 0%Z ids)) as Hr.
  destruct Hin as [->|Hin]; [lia|]. specialize (IH Hin). lia.
Qed.

Lemma sample_upsert_result : sample_upsert = inr (4%nat, sample_table).
Proof. vm_compute; reflexivity. Qed.

Lemma upsert_keeps_stored_rows_witness :
  4%nat = List.length sample_fetch /\
  exists news,
    sample_table = store_after sample_run ++ news /\
    (List.length news <= 4)%nat /\
    Forall unanalysed news /\
    Forall (fun t => chain t = "ethereum") news.
Proof.
  apply (upsert_keeps_stored_rows sample_env "ethereum" sample_fetch
           (store_after sample_run) 4 sample_table).
  exact sample_upsert_result.
Defined.


Lemma upsert_twice_adds_nothing_witness :
  upsert_events later_env "ethereum" sample_fetch sample_table =
  inr (4%nat, sample_table).
Proof.
  apply (upsert_twice_adds_nothing sample_env later_env "ethereum" sample_fetch
           (store_after sample_run) 4 sample_table).
  - reflexivity.
  - exact sample_upsert_result.
Defined.


Lemma unique_by_tx_and_unique_id_keeps_first_witness :
  NoDup (map event_key (_unique_by_tx_and_unique_id (fetched_in ++ fetched_out))) /\
  exists rest,
    _unique_by_tx_and_unique_id (fetched_in ++ fetched_out) =
    _unique_by_tx_and_unique_id (fetched_in ++ [paid; to_self]) ++ known :: rest.
Proof.
  destruct (unique_by_tx_and_unique_id_keeps_first (fetched_in ++ fetched_out))
    as [Hn [_ [_ [Hfirst _]]]].
  split; [exact Hn|].
  apply (Hfirst (fetched_in ++ [paid; to_self]) known []).
  - reflexivity.
  - vm_compute. intuition discriminate.
Defined.

Lemma is_spam_event_characterised_witness :
  is_spam_event sample_env sample_url_like bought "ethereum" = false.
Proof.
  apply (is_spam_event_characterised sample_env sample_url_like bought "ethereum").
  split; [discriminate|]. right. split; [reflexivity|]. split; [|reflexivity].
  intros k Hk. unfold SPAM_KEYWORDS in Hk. simpl in Hk.
  repeat (destruct Hk as [<-|Hk]; [reflexivity|]). destruct Hk.
Defined.

Lemma asset_allowlist_tolerates_final_newline_witness :
  _asset_is_weird "ETH" = false /\
  _asset_is_weird ("ETH" ++ String "010" "") = false /\
  _asset_is_weird ("ETH" ++ String "010" (String "010" "")) = true.
Proof.
  apply (asset_allowlist_tolerates_final_newline "ETH"). reflexivity.
Defined.

Lemma price_at_timestamp_is_closest_sample_witness :
  exists before sample after self',
    sample_prices = before ++ sample :: after /\
    (forall s, In s before ->
       (CoinGecko.distance new_year sample < CoinGecko.distance new_year s)%Z) /\
    (forall s, In s after ->
       (CoinGecko.distance new_year sample <= CoinGecko.distance new_year s)%Z) /\
    CoinGecko.get_price_at_timestamp sample_http CoinGecko.new_client
      "bitcoin" new_year =
    (inr (snd sample), self',
     [CoinGecko.GetMarketChartRange "bitcoin" (new_year - 900) (new_year + 900)]) /\
    CoinGecko.cache_get CoinGecko.price_key_eqb ("bitcoin", new_year)
      (CoinGecko._price_cache self') = Some (snd sample) /\
    CoinGecko._contract_cache self' =
    CoinGecko._contract_cache CoinGecko.new_client.
Proof.
  apply (price_at_timestamp_is_closest_sample sample_http CoinGecko.new_client
           "bitcoin" new_year sample_prices).
  - reflexivity.
  - reflexivity.
  - discriminate.
Defined.

Lemma cached_price_is_stable_witness :
  CoinGecko.get_price_at_timestamp outage_http
    (CoinGecko.client_after_all outage_http
       (CoinGecko.client_after sample_http CoinGecko.new_client
          (CoinGecko.UsePriceAt "bitcoin" new_year))
       sample_uses)
    "bitcoin" new_year =
  (inr (dec 42100 1),
   CoinGecko.client_after_all outage_http
     (CoinGecko.client_after sample_http CoinGecko.new_client
        (CoinGecko.UsePriceAt "bitcoin" new_year))
     sample_uses,
   []).
Proof.
  apply (cached_price_is_stable sample_http CoinGecko.new_client "bitcoin"
           new_year (dec 42100 1)
           (CoinGecko.client_after sample_http CoinGecko.new_client
              (CoinGecko.UsePriceAt "bitcoin" new_year))
           [CoinGecko.GetMarketChartRange "bitcoin" (new_year - 900)
                                          (new_year + 900)]).
  vm_compute; reflexivity.
Defined.

Lemma coin_id_cache_ignores_letter_case_witness :
  CoinGecko.get_coin_id_by_contract outage_http
    (CoinGecko.client_after_all outage_http
       (CoinGecko.client_after sample_http CoinGecko.new_client
          (CoinGecko.UseCoinId "ethereum" usdc_contract))
       sample_uses)
    "ethereum" "0xA0B86991C6218B36C1D19D4A2E9EB0CE3606EB48" =
  (inr "usd-coin",
   CoinGecko.client_after_all outage_http
     (CoinGecko.client_after sample_http CoinGecko.new_client
        (CoinGecko.UseCoinId "ethereum" usdc_contract))
     sample_uses,
   []).
Proof.
  apply (coin_id_cache_ignores_letter_case sample_http CoinGecko.new_client
           "ethereum" usdc_contract "usd-coin"
           (CoinGecko.client_after sample_http CoinGecko.new_client
              (CoinGecko.UseCoinId "ethereum" usdc_contract))
           [CoinGecko.GetContract "ethereum" usdc_contract]).
  - vm_compute; reflexivity.
  - reflexivity.
Defined.

Lemma failed_lookup_is_not_cached_witness :
  snd (CoinGecko.get_price_at_timestamp sample_http CoinGecko.new_client
         "bitcoin" new_year) =
  [CoinGecko.GetMarketChartRange "bitcoin" (new_year - 900) (new_year + 900)] /\
  snd (CoinGecko.get_coin_id_by_contract sample_http CoinGecko.new_client
         "ethereum" "0xToken") =
  [CoinGecko.GetContract "ethereum" "0xToken"].
Proof.
  destruct (failed_lookup_is_not_cached outage_http CoinGecko.new_client)
    as [Hprice _].
  destruct (failed_lookup_is_not_cached sample_http CoinGecko.new_client)
    as [_ Hcoin].
  split.
  - destruct (Hprice "bitcoin" new_year
                (CoinGecko.ApiError "CoinGecko API error 503: ")
                CoinGecko.new_client
                [CoinGecko.GetMarketChartRange "bitcoin" (new_year - 900)
                                               (new_year + 900)] eq_refl)
      as [_ [_ Hnext]].
    exact (Hnext sample_http).
  - destruct (Hcoin "ethereum" "0xToken"
                (CoinGecko.CouldNotResolve "ethereum" "0xToken")
                CoinGecko.new_client
                [CoinGecko.GetContract "ethereum" "0xToken"] eq_refl)
      as [_ [_ Hnext]].
    exact (Hnext sample_http).
Defined.
